(** * go-xfs: a shallow embedding of [xfs.go] and its behavioural contract

    [xfs.go] is a thin layer over Go's [os], [io], [bufio] and
    [path/filepath] packages.  The development has three layers:

    - a model of the host: a POSIX-like file system of regular files,
      directories and symbolic links (an inode table), seen by one
      unprivileged process that owns every file, together with the
      standard-library functions [xfs.go] calls (modules [syscall], [os],
      [io], [filepath], [bufio]);
    - the functions of [xfs.go], transcribed one by one into a state monad
      over the host (module [xfs]);
    - the theorems about them.

    Go's [string] and [[]byte] are both byte sequences: a [string] is a Rocq
    [string] (a sequence of 8-bit characters) and a [[]byte] is a
    [list ascii]; the conversions [string(b)] and [[]byte(s)] are explicit. *)

From Stdlib Require Import NArith Ascii String List Bool Lia.
From stdpp Require Import base option gmap strings list fin_maps.

Open Scope string_scope.
Open Scope list_scope.

(** ** Bytes and strings *)

Definition byte := ascii.
Definition bytes := list byte.

(** [[]byte(s)] and [string(b)]. *)
Definition bytes_of_string (s : string) : bytes := list_ascii_of_string s.
Definition string_of_bytes (b : bytes) : string := string_of_list_ascii b.

Definition LF : ascii := "010"%char.
Definition CR : ascii := "013"%char.
Definition slash : ascii := "/"%char.
Definition backslash : ascii := "\"%char.
Definition tilde : ascii := "~"%char.
Definition dot : ascii := "."%char.

(** [s[n:]] for [n <= len(s)]. *)
Fixpoint drop_string (n : nat) (s : string) : string :=
  match n, s with
  | O, _ => s
  | S n', String _ s' => drop_string n' s'
  | S _, EmptyString => EmptyString
  end.

(** [strings.Join(elems, sep)]. *)
Fixpoint join_strings (sep : string) (elems : list string) : string :=
  match elems with
  | [] => ""
  | [e] => e
  | e :: rest => e +:+ sep +:+ join_strings sep rest
  end.

(** The fields of a path between separators, empty fields included. *)
Fixpoint fields (s : string) : list string :=
  match s with
  | EmptyString => [EmptyString]
  | String c s' =>
      if Ascii.eqb c slash then EmptyString :: fields s'
      else match fields s' with
           | f :: fs => String c f :: fs
           | [] => [String c EmptyString]
           end
  end.

(** The non-empty path elements: repeated and trailing separators do not
    count.  A path with a trailing separator is therefore resolved as the
    path without it; the [ENOTDIR] a kernel answers when such a path names
    a regular file is not modelled. *)
Definition components (path : string) : list string :=
  List.filter (fun f => negb (String.eqb f "")) (fields path).

(** ** Errors *)

Module syscall.

Inductive Errno : Set :=
| ENOENT | EACCES | EEXIST | ENOTDIR | EISDIR | ELOOP | EINVAL.

End syscall.
Export syscall.

(** Go's non-nil [error] values that the modelled calls can produce. *)
Inductive Error : Set :=
| PathError (op path : string) (e : Errno)
| SyscallError (call : string) (e : Errno)
| ErrorString (msg : string)
| ErrTooLong
| SkipDir
| SkipAll
| RuntimePanic (msg : string).

(** An [error] interface value; [nil] is [None]. *)
Definition error := option Error.
Definition nil_error : error := None.

(** ** The file system *)

Definition ino := nat.
Definition FileMode := N.
Bind Scope N_scope with FileMode.

Definition ModeDir : FileMode := 2147483648%N.
Definition ModeSymlink : FileMode := 134217728%N.
Definition ModePerm : FileMode := 511%N.

Inductive Inode : Type :=
| IFile (perm : N) (data : bytes)
| IDir (perm : N) (parent : ino) (entries : gmap string ino)
| ISymlink (target : string).

(** The host as one process sees it: the inode table, the root directory,
    the working directory ([None] when it cannot be determined; otherwise
    the name [getwd] reports and its inode), the file-creation mask and the
    [HOME] environment variable. *)
Record Sys : Type := mkSys {
  inodes : gmap ino Inode;
  root : ino;
  cwd : option (string * ino);
  umask : N;
  env_HOME : option string
}.

Definition set_inodes (s : Sys) (m : gmap ino Inode) : Sys :=
  mkSys m (root s) (cwd s) (umask s) (env_HOME s).

(** Owner permission bits: the process owns every file and is not
    privileged. *)
Definition may_read (perm : N) : bool := N.testbit perm 8.
Definition may_write (perm : N) : bool := N.testbit perm 7.
Definition may_search (perm : N) : bool := N.testbit perm 6.

Definition is_symlink (n : Inode) : bool :=
  match n with ISymlink _ => true | _ => false end.

(** The result of walking a path: the inode it names; or, when everything
    but the last element resolved to a searchable directory [dir] that has
    no entry [name], that position (where a create would put it); or the
    error. *)
Inductive Located : Type :=
| Found (i : ino)
| Absent (dir : ino) (name : string)
| Failed (e : Errno).

Definition IsAbs_prefix (path : string) : bool :=
  match path with
  | String c _ => Ascii.eqb c slash
  | EmptyString => false
  end.

Definition dir_lookup (d parent : ino) (entries : gmap string ino) (c : string) : option ino :=
  if String.eqb c "." then Some d
  else if String.eqb c ".." then Some parent
  else entries !! c.

Definition is_nil {A} (l : list A) : bool :=
  match l with [] => true | _ => false end.

(** Path walk from directory [d] over the elements [comps].  [fuel] bounds
    the number of symbolic links expanded (Linux allows 40); [follow] says
    whether a symbolic link in last position is expanded too. *)
Fixpoint namei (fuel : nat) (m : gmap ino Inode) (rt : ino) (follow : bool) : ino -> list string -> Located :=
  fix go (d : ino) (comps : list string) {struct comps} : Located :=
    match comps with
    | [] => Found d
    | c :: rest =>
        match m !! d with
        | Some (IDir perm parent entries) =>
            if negb (may_search perm) then Failed EACCES
            else match dir_lookup d parent entries c with
                 | None => if is_nil rest then Absent d c else Failed ENOENT
                 | Some i =>
                     match m !! i with
                     | Some (ISymlink target) =>
                         if is_nil rest && negb follow then Found i
                         else if String.eqb target "" then Failed ENOENT
                         else match fuel with
                              | O => Failed ELOOP
                              | S fuel' =>
                                  namei fuel' m rt follow
                                    (if IsAbs_prefix target then rt else d)
                                    (components target ++ rest)
                              end
                     | Some _ => go i rest
                     | None => Failed ENOENT
                     end
                 end
        | Some _ => Failed ENOTDIR
        | None => Failed ENOENT
        end
    end.

Definition MAXSYMLINKS : nat := 40.

Definition resolve (follow : bool) (s : Sys) (path : string) : Located :=
  if String.eqb path "" then Failed ENOENT
  else match (if IsAbs_prefix path then Some (root s) else snd <$> cwd s) with
       | None => Failed ENOENT
       | Some d => namei MAXSYMLINKS (inodes s) (root s) follow d (components path)
       end.

(** An inode number not in use. *)
Definition fresh_ino (m : gmap ino Inode) : ino := fresh (dom m).

(** Enter a new inode [node] under [name] in directory [d]. *)
Definition link_new (s : Sys) (d : ino) (name : string) (node : Inode) : Errno + (ino * Sys) :=
  match inodes s !! d with
  | Some (IDir perm parent entries) =>
      if may_write perm then
        let n := fresh_ino (inodes s) in
        inr (n, set_inodes s (<[n := node]> (<[d := IDir perm parent (<[name := n]> entries)]> (inodes s))))
      else inl EACCES
  | Some _ => inl ENOTDIR
  | None => inl ENOENT
  end.

(** The content of the regular file a path names (following links), if any:
    the state an observer compares, whatever the file's own permissions. *)
Definition content (s : Sys) (path : string) : option bytes :=
  match resolve true s path with
  | Found i => match inodes s !! i with
               | Some (IFile _ data) => Some data
               | _ => None
               end
  | _ => None
  end.

(** ** System calls

    The kernel side of the calls made by the [os] package, as functions of
    the host state.  A query returns its answer, an update the new state. *)

(** What [xfs.go] reads of an [os.FileInfo]: its mode.  The interface value
    can be [nil] ([None]), which is what the [os] functions return next to
    a non-nil error. *)
Record fileStat : Set := mkStat { st_mode : FileMode }.
Definition FileInfo := option fileStat.

(** [info.Mode()] and [info.IsDir()].  Every caller in [xfs.go] checks the
    error first, so the [nil] case is never evaluated there. *)
Definition FileInfo_Mode (info : FileInfo) : FileMode :=
  match info with
  | Some st => st_mode st
  | None => 0%N
  end.

Definition FileInfo_IsDir (info : FileInfo) : bool :=
  negb (N.eqb (N.land (FileInfo_Mode info) ModeDir) 0).

Definition stat_of (n : Inode) : fileStat :=
  match n with
  | IFile perm _ => mkStat (N.land perm ModePerm)
  | IDir perm _ _ => mkStat (N.lor ModeDir (N.land perm ModePerm))
  | ISymlink _ => mkStat (N.lor ModeSymlink ModePerm)
  end.

(** [stat(2)] ([follow = true]) and [lstat(2)]. *)
Definition sys_stat (follow : bool) (s : Sys) (path : string) : Errno + fileStat :=
  match resolve follow s path with
  | Found i => match inodes s !! i with
               | Some n => inr (stat_of n)
               | None => inl ENOENT
               end
  | Absent _ _ => inl ENOENT
  | Failed e => inl e
  end.

(** An open file: the name it was opened under and its inode.  A [*File]
    can be [nil]. *)
Record fileDesc : Set := mkFile { fd_name : string; fd_ino : ino }.
Definition File := option fileDesc.

(** [open(path, O_RDONLY)]. *)
Definition sys_open (s : Sys) (path : string) : Errno + fileDesc :=
  match resolve true s path with
  | Found i => match inodes s !! i with
               | Some (IFile perm _) | Some (IDir perm _ _) =>
                   if may_read perm then inr (mkFile path i) else inl EACCES
               | Some (ISymlink _) => inl ELOOP
               | None => inl ENOENT
               end
  | Absent _ _ => inl ENOENT
  | Failed e => inl e
  end.

(** [open(path, O_CREAT|O_TRUNC|acc, perm)] where [acc] is [O_RDWR]
    ([rdwr = true]) or [O_WRONLY].  An existing file is truncated and keeps
    its permission bits; a missing one is created with [perm] less the
    mask.  A dangling link in last position is followed. *)
Definition sys_creat (rdwr : bool) (s : Sys) (path : string) (perm : FileMode) : Errno + (fileDesc * Sys) :=
  match resolve true s path with
  | Found i =>
      match inodes s !! i with
      | Some (IFile p _) =>
          if may_write p && (negb rdwr || may_read p)
          then inr (mkFile path i, set_inodes s (<[i := IFile p []]> (inodes s)))
          else inl EACCES
      | Some (IDir _ _ _) => inl EISDIR
      | Some (ISymlink _) => inl ELOOP
      | None => inl ENOENT
      end
  | Absent d name =>
      match link_new s d name (IFile (N.ldiff (N.land perm ModePerm) (umask s)) []) with
      | inr (n, s') => inr (mkFile path n, s')
      | inl e => inl e
      end
  | Failed e => inl e
  end.

(** [chmod(2)]: follows links; the owner may always change the bits. *)
Definition sys_chmod (s : Sys) (path : string) (mode : FileMode) : Errno + Sys :=
  match resolve true s path with
  | Found i =>
      match inodes s !! i with
      | Some (IFile _ data) =>
          inr (set_inodes s (<[i := IFile (N.land mode ModePerm) data]> (inodes s)))
      | Some (IDir _ parent entries) =>
          inr (set_inodes s (<[i := IDir (N.land mode ModePerm) parent entries]> (inodes s)))
      | Some (ISymlink _) => inl ELOOP
      | None => inl ENOENT
      end
  | Absent _ _ => inl ENOENT
  | Failed e => inl e
  end.

(** [mkdir(2)]: a link in last position is not followed. *)
Definition sys_mkdir (s : Sys) (path : string) (perm : FileMode) : Errno + Sys :=
  match resolve false s path with
  | Found _ => inl EEXIST
  | Absent d name =>
      match link_new s d name (IDir (N.ldiff (N.land perm ModePerm) (umask s)) d ∅) with
      | inr (_, s') => inr s'
      | inl e => inl e
      end
  | Failed e => inl e
  end.

(** Reading an open file to its end, from the start. *)
Definition sys_read_all (s : Sys) (f : fileDesc) : Errno + bytes :=
  match inodes s !! fd_ino f with
  | Some (IFile _ data) => inr data
  | Some (IDir _ _ _) => inl EISDIR
  | _ => inl EINVAL
  end.

(** Writing [data] at offset 0 of an open file. *)
Definition sys_write (s : Sys) (f : fileDesc) (data : bytes) : Errno + Sys :=
  match inodes s !! fd_ino f with
  | Some (IFile p old) =>
      inr (set_inodes s (<[fd_ino f := IFile p (data ++ skipn (length data) old)]> (inodes s)))
  | _ => inl EINVAL
  end.

Fixpoint insert_sorted (x : string) (l : list string) : list string :=
  match l with
  | [] => [x]
  | y :: l' => if String.leb x y then x :: l else y :: insert_sorted x l'
  end.

(** [slices.Sort] on strings: byte-wise lexical order. *)
Definition sort_strings (l : list string) : list string :=
  fold_right insert_sorted [] l.

(** The names in an open directory. *)
Definition sys_readdirnames (s : Sys) (f : fileDesc) : Errno + list string :=
  match inodes s !! fd_ino f with
  | Some (IDir _ _ entries) => inr (fst <$> map_to_list entries)
  | _ => inl ENOTDIR
  end.

(** ** The world and the monad of effects

    A world is the host state and the record of the standard-library calls
    [xfs.go] has made, in order; a Go function is a world transformer that
    also returns its results. *)

Inductive Call : Type :=
| call_Stat (name : string)
| call_Lstat (name : string)
| call_Open (name : string)
| call_Create (name : string)
| call_Close (f : File)
| call_Chmod (name : string) (mode : FileMode)
| call_MkdirAll (path : string) (perm : FileMode)
| call_ReadFile (name : string)
| call_WriteFile (name : string) (data : bytes) (perm : FileMode)
| call_Getwd
| call_UserHomeDir
| call_Copy (dst src : File)
| call_Abs (path : string)
| call_Walk (root : string).

Record World : Type := mkWorld { sys : Sys; calls : list Call }.

Definition M (A : Type) : Type := World -> A * World.

Definition ret {A} (a : A) : M A := fun w => (a, w).

Definition bind {A B} (m : M A) (k : A -> M B) : M B :=
  fun w => let (a, w') := m w in k a w'.

Notation "'let*' x ':=' c1 'in' c2" := (bind c1 (fun x => c2))
  (at level 10, x pattern, c1 at level 100, c2 at level 200, only parsing).

Definition trace (c : Call) : M unit :=
  fun w => (tt, mkWorld (sys w) (calls w ++ [c])).

Definition get_sys : M Sys := fun w => (sys w, w).

(** A standard-library call: it is recorded, and it acts on the host. *)
Definition call {A} (c : Call) (f : Sys -> A * Sys) : M A :=
  fun w => let (a, s') := f (sys w) in (a, mkWorld s' (calls w ++ [c])).

(** The result and the final world of a computation. *)
Definition result {A} (m : M A) (w : World) : A := fst (m w).
Definition after {A} (m : M A) (w : World) : World := snd (m w).

Definition is_some {A} (o : option A) : bool :=
  match o with Some _ => true | None => false end.

(** ** Package [os]

    For each function, its action on the host (lower case) and the call
    itself. *)

Module os.

(** [os.IsNotExist]: the error, unwrapped, is [ENOENT]. *)
Definition IsNotExist (err : error) : bool :=
  match err with
  | Some (PathError _ _ ENOENT) => true
  | Some (SyscallError _ ENOENT) => true
  | _ => false
  end.

Definition stat (name : string) (s : Sys) : FileInfo * error :=
  match sys_stat true s name with
  | inr st => (Some st, None)
  | inl e => (None, Some (PathError "stat" name e))
  end.

Definition Stat (name : string) : M (FileInfo * error) :=
  call (call_Stat name) (fun s => (stat name s, s)).

Definition lstat (name : string) (s : Sys) : FileInfo * error :=
  match sys_stat false s name with
  | inr st => (Some st, None)
  | inl e => (None, Some (PathError "lstat" name e))
  end.

Definition Lstat (name : string) : M (FileInfo * error) :=
  call (call_Lstat name) (fun s => (lstat name s, s)).

Definition open (name : string) (s : Sys) : File * error :=
  match sys_open s name with
  | inr f => (Some f, None)
  | inl e => (None, Some (PathError "open" name e))
  end.

Definition Open (name : string) : M (File * error) :=
  call (call_Open name) (fun s => (open name s, s)).

(** [os.Create(name)] is [OpenFile(name, O_RDWR|O_CREATE|O_TRUNC, 0666)]. *)
Definition create (name : string) (s : Sys) : (File * error) * Sys :=
  match sys_creat true s name 438%N with
  | inr (f, s') => ((Some f, None), s')
  | inl e => ((None, Some (PathError "open" name e)), s)
  end.

Definition Create (name : string) : M (File * error) :=
  call (call_Create name) (create name).

(** [f.Close()]: nothing of the file system changes. *)
Definition close (f : File) : error :=
  match f with
  | Some _ => None
  | None => Some (ErrorString "invalid argument")
  end.

Definition Close (f : File) : M error :=
  call (call_Close f) (fun s => (close f, s)).

Definition chmod (name : string) (mode : FileMode) (s : Sys) : error * Sys :=
  match sys_chmod s name mode with
  | inr s' => (None, s')
  | inl e => (Some (PathError "chmod" name e), s)
  end.

Definition Chmod (name : string) (mode : FileMode) : M error :=
  call (call_Chmod name mode) (chmod name mode).

Definition is_sep (c : ascii) : bool := Ascii.eqb c slash.

Fixpoint drop_while (p : ascii -> bool) (l : list ascii) : list ascii :=
  match l with
  | c :: l' => if p c then drop_while p l' else l
  | [] => []
  end.

(** The parent [path[:i]] that [MkdirAll] extracts: trailing separators are
    skipped, then the last element, and the separator before it is left
    out. *)
Definition parent_of (path : string) : string :=
  let r := drop_while (fun c => negb (is_sep c)) (drop_while is_sep (rev (list_ascii_of_string path))) in
  string_of_list_ascii (rev (tl r)).

(** [os.MkdirAll], on the host state.  The recursion is on the parent, a
    proper prefix of [path], so [fuel] from the length of [path] on is
    never used up. *)
Fixpoint mkdirAll (fuel : nat) (path : string) (perm : FileMode) (s : Sys) : error * Sys :=
  match sys_stat true s path with
  | inr dir =>
      if FileInfo_IsDir (Some dir) then (None, s)
      else (Some (PathError "mkdir" path ENOTDIR), s)
  | inl _ =>
      let parent := parent_of path in
      let '(err, s1) :=
        match fuel with
        | S fuel' =>
            if negb (String.eqb parent "") then mkdirAll fuel' parent perm s
            else (None, s)
        | O => (None, s)
        end in
      match err with
      | Some e => (Some e, s1)
      | None =>
          match sys_mkdir s1 path perm with
          | inr s2 => (None, s2)
          | inl e =>
              match sys_stat false s1 path with
              | inr dir =>
                  if FileInfo_IsDir (Some dir) then (None, s1)
                  else (Some (PathError "mkdir" path e), s1)
              | inl _ => (Some (PathError "mkdir" path e), s1)
              end
          end
      end
  end.

Definition MkdirAll (path : string) (perm : FileMode) : M error :=
  call (call_MkdirAll path perm) (mkdirAll (String.length path) path perm).

(** [os.ReadFile]: open, read to the end, close. *)
Definition readFile (name : string) (s : Sys) : bytes * error :=
  match sys_open s name with
  | inl e => ([], Some (PathError "open" name e))
  | inr f =>
      match sys_read_all s f with
      | inr data => (data, None)
      | inl e => ([], Some (PathError "read" name e))
      end
  end.

Definition ReadFile (name : string) : M (bytes * error) :=
  call (call_ReadFile name) (fun s => (readFile name s, s)).

(** [os.WriteFile]: [OpenFile(name, O_WRONLY|O_CREATE|O_TRUNC, perm)], one
    write, close. *)
Definition writeFile (name : string) (data : bytes) (perm : FileMode) (s : Sys) : error * Sys :=
  match sys_creat false s name perm with
  | inl e => (Some (PathError "open" name e), s)
  | inr (f, s1) =>
      match sys_write s1 f data with
      | inr s2 => (None, s2)
      | inl e => (Some (PathError "write" name e), s1)
      end
  end.

Definition WriteFile (name : string) (data : bytes) (perm : FileMode) : M error :=
  call (call_WriteFile name data perm) (writeFile name data perm).

Definition getwd (s : Sys) : string * error :=
  match cwd s with
  | Some (dir, _) => (dir, None)
  | None => ("", Some (SyscallError "getwd" ENOENT))
  end.

Definition Getwd : M (string * error) :=
  call call_Getwd (fun s => (getwd s, s)).

(** [os.UserHomeDir] on Unix: the value of [HOME], which must be set and
    not empty. *)
Definition userHomeDir (s : Sys) : string * error :=
  match env_HOME s with
  | Some home =>
      if String.eqb home "" then ("", Some (ErrorString "$HOME is not defined"))
      else (home, None)
  | None => ("", Some (ErrorString "$HOME is not defined"))
  end.

Definition UserHomeDir : M (string * error) :=
  call call_UserHomeDir (fun s => (userHomeDir s, s)).

End os.

(** ** Package [io] *)

Module io.

(** [io.Copy(dst, src)]: reads [src] to its end and writes it to [dst];
    returns the number of bytes written.  Which system call the runtime
    moves the bytes with is not modelled: a source that cannot be read is
    reported as the error of a read, with the errno the kernel gives. *)
Definition copy (dst src : File) (s : Sys) : (N * error) * Sys :=
  match dst, src with
  | Some d, Some f =>
      match sys_read_all s f with
      | inl e => ((0%N, Some (PathError "read" (fd_name f) e)), s)
      | inr data =>
          match sys_write s d data with
          | inr s' => ((N.of_nat (length data), None), s')
          | inl e => ((0%N, Some (PathError "write" (fd_name d) e)), s)
          end
      end
  | _, _ => ((0%N, Some (ErrorString "invalid argument")), s)
  end.

Definition Copy (dst src : File) : M (N * error) :=
  call (call_Copy dst src) (copy dst src).

End io.

(** ** Package [path/filepath] (Unix) *)

Module filepath.

Definition IsAbs (path : string) : bool := IsAbs_prefix path.

(** Elimination of [.] and [..] elements, left to right; [out] is the
    cleaned prefix, last element first. *)
Fixpoint clean_elems (rooted : bool) (out : list string) (elems : list string) : list string :=
  match elems with
  | [] => rev out
  | c :: rest =>
      if String.eqb c "." then clean_elems rooted out rest
      else if String.eqb c ".." then
        match out with
        | top :: out' =>
            if String.eqb top ".." then clean_elems rooted (c :: out) rest
            else clean_elems rooted out' rest
        | [] =>
            if rooted then clean_elems rooted [] rest
            else clean_elems rooted [c] rest
        end
      else clean_elems rooted (c :: out) rest
  end.

(** [filepath.Clean]: the shortest equivalent path by lexical processing. *)
Definition Clean (path : string) : string :=
  let body := join_strings "/" (clean_elems (IsAbs path) [] (components path)) in
  if IsAbs path then "/" +:+ body
  else if String.eqb body "" then "." else body.

(** [filepath.Join] of two elements: empty elements are ignored and the
    result is cleaned. *)
Definition Join (a b : string) : string :=
  if negb (String.eqb a "") then Clean (a +:+ "/" +:+ b)
  else if negb (String.eqb b "") then Clean b
  else "".

(** [filepath.Abs]. *)
Definition abs (path : string) (s : Sys) : string * error :=
  if IsAbs path then (Clean path, None)
  else
    let '(wd, err) := os.getwd s in
    match err with
    | Some e => ("", Some e)
    | None => (Join wd path, None)
    end.

Definition Abs (path : string) : M (string * error) :=
  call (call_Abs path) (fun s => (abs path s, s)).

Fixpoint strip_common (b t : list string) : list string * list string :=
  match b, t with
  | x :: b', y :: t' => if String.eqb x y then strip_common b' t' else (b, t)
  | _, _ => (b, t)
  end.

(** [filepath.Rel]. *)
Definition Rel (basepath targpath : string) : string * error :=
  let base := Clean basepath in
  let targ := Clean targpath in
  let cannot := Some (ErrorString ("Rel: can't make " +:+ targpath +:+ " relative to " +:+ basepath)) in
  if String.eqb targ base then (".", None)
  else
    let base := if String.eqb base "." then "" else base in
    if negb (Bool.eqb (IsAbs base) (IsAbs targ)) then ("", cannot)
    else
      let '(b, t) := strip_common (components base) (components targ) in
      match b with
      | [] => (join_strings "/" t, None)
      | x :: _ =>
          if String.eqb x ".." then ("", cannot)
          else (join_strings "/" (repeat ".." (length b) ++ t), None)
      end.

Definition WalkFunc : Type := string -> FileInfo -> error -> M error.

(** What the model of [walk] returns when its depth bound is reached;
    [filepath.walk] itself has no such bound. *)
Definition depth_exceeded : error :=
  Some (ErrorString "walk: depth bound of the model exceeded").

Definition is_skip (err : error) : bool :=
  match err with
  | Some SkipDir | Some SkipAll => true
  | _ => false
  end.

Definition is_SkipDir (err : error) : bool :=
  match err with Some SkipDir => true | _ => false end.

Definition is_SkipAll (err : error) : bool :=
  match err with Some SkipAll => true | _ => false end.

(** [readDirNames]: the sorted names of the entries of a directory. *)
Definition readDirNames (s : Sys) (dirname : string) : list string * error :=
  match sys_open s dirname with
  | inl e => ([], Some (PathError "open" dirname e))
  | inr f =>
      match sys_readdirnames s f with
      | inl e => ([], Some (PathError "readdirent" dirname e))
      | inr names => (sort_strings names, None)
      end
  end.

(** [filepath.walk].  [fuel] bounds the depth of the recursion; running out
    of it is reported as an error the real function does not have. *)
Fixpoint walk (fuel : nat) (path : string) (info : FileInfo) (walkFn : WalkFunc) : M error :=
  match fuel with
  | O => ret depth_exceeded
  | S fuel' =>
      if negb (FileInfo_IsDir info) then walkFn path info None
      else
        let* s := get_sys in
        let '(names, err) := readDirNames s path in
        let* err1 := walkFn path info err in
        if is_some err || is_some err1 then ret err1
        else
          (fix loop (names : list string) : M error :=
             match names with
             | [] => ret None
             | name :: rest =>
                 let filename := Join path name in
                 let* s := get_sys in
                 let '(fileInfo, err) := os.lstat filename s in
                 if is_some err then
                   let* err := walkFn filename fileInfo err in
                   if is_some err && negb (is_SkipDir err) then ret err
                   else loop rest
                 else
                   let* err := walk fuel' filename fileInfo walkFn in
                   if is_some err && (negb (FileInfo_IsDir fileInfo) || negb (is_SkipDir err))
                   then ret err
                   else loop rest
             end) names
  end.

(** [filepath.Walk]: no path is deeper than there are inodes. *)
Definition Walk (root : string) (fn : WalkFunc) : M error :=
  let* _ := trace (call_Walk root) in
  let* s := get_sys in
  let '(info, err) := os.lstat root s in
  let* err :=
    if is_some err then fn root None err
    else walk (S (size (inodes s))) root info fn in
  if is_SkipDir err || is_SkipAll err then ret None
  else ret err.

End filepath.

(** ** Package [bufio]: a [Scanner] with the default split function *)

Module bufio.

Definition MaxScanTokenSize : nat := 64 * 1024.

Fixpoint IndexByte (data : bytes) (c : byte) : option nat :=
  match data with
  | [] => None
  | x :: data' => if Ascii.eqb x c then Some 0 else S <$> IndexByte data' c
  end.

(** [dropCR]: drops a terminal carriage return. *)
Definition dropCR (data : bytes) : bytes :=
  match rev data with
  | x :: r => if Ascii.eqb x CR then rev r else data
  | [] => data
  end.

(** [bufio.ScanLines], the split function: how far to advance and the
    token found, if any. *)
Definition ScanLines (data : bytes) (atEOF : bool) : nat * option bytes :=
  if atEOF && is_nil data then (0, None)
  else match IndexByte data LF with
       | Some i => (i + 1, Some (dropCR (firstn i data)))
       | None => if atEOF then (length data, Some (dropCR data)) else (0, None)
       end.

(** A scanner over an in-memory reader: the input not yet consumed, the
    last token and the first error that is not end of input. *)
Record Scanner : Type := mkScanner {
  sc_input : bytes;
  sc_token : bytes;
  sc_err : error
}.

(** [bufio.NewScanner(strings.NewReader(s))]. *)
Definition NewScanner (s : string) : Scanner :=
  mkScanner (bytes_of_string s) [] None.

(** [scanner.Scan()].  The split function sees what fits the buffer, which
    grows to [MaxScanTokenSize] bytes and no further, and it is told the
    input has ended only once the rest of the input leaves room in that
    buffer.  When a full buffer holds no token the scan stops with
    [ErrTooLong]. *)
Definition Scan (sc : Scanner) : bool * Scanner :=
  if is_some (sc_err sc) then (false, sc)
  else if is_nil (sc_input sc) then (false, mkScanner [] [] None)
  else
    let atEOF := Nat.ltb (length (sc_input sc)) MaxScanTokenSize in
    match ScanLines (firstn MaxScanTokenSize (sc_input sc)) atEOF with
    | (advance, Some token) => (true, mkScanner (skipn advance (sc_input sc)) token None)
    | (_, None) => (false, mkScanner (sc_input sc) [] (Some ErrTooLong))
    end.

Definition Text (sc : Scanner) : string := string_of_bytes (sc_token sc).

Definition Err (sc : Scanner) : error := sc_err sc.

End bufio.

(** ** Package [xfs]: the functions of [xfs.go] *)

(** What a call that may panic yields. *)
Inductive Outcome (A : Type) : Type :=
| Returned (a : A)
| Panicked (msg : string).
Arguments Returned {A} a.
Arguments Panicked {A} msg.

Module xfs.

Definition Chmod (filename : string) (perm : FileMode) : M error :=
  os.Chmod filename perm.

Definition Create (filename : string) : M (File * error) :=
  os.Create filename.

Definition Cwd : M (string * error) :=
  os.Getwd.

Definition Lstat (filename : string) : M (FileInfo * error) :=
  os.Lstat filename.

Definition MkdirAll (dir : string) (perm : FileMode) : M error :=
  os.MkdirAll dir perm.

Definition MkdirAllDefault (dir : string) : M error :=
  MkdirAll dir 493%N.

Definition Open (filename : string) : M (File * error) :=
  os.Open filename.

Definition ReadFile (filename : string) : M (bytes * error) :=
  os.ReadFile filename.

Definition Stat (filename : string) : M (FileInfo * error) :=
  os.Stat filename.

Definition WriteFile (filename : string) (data : bytes) (perm : FileMode) : M error :=
  os.WriteFile filename data perm.

(** [err == nil || !os.IsNotExist(err)] *)
Definition Exists (filename : string) : M bool :=
  let* (_, err) := os.Stat filename in
  ret (negb (is_some err) || negb (os.IsNotExist err)).

Definition EnsureDir (dir : string) (perm : FileMode) : M error :=
  let* found := Exists dir in
  if found then ret None
  else os.MkdirAll dir perm.

Definition EnsureDirDefault (dir : string) : M error :=
  EnsureDir dir 493%N.

Definition EnsureFile (filename : string) (perm : FileMode) : M error :=
  let* found := Exists filename in
  if found then ret None
  else
    let* (file, err) := os.Create filename in
    if is_some err then ret err
    else
      let* _ := os.Close file in
      os.Chmod filename perm.

Definition EnsureFileDefault (filename : string) : M error :=
  EnsureFile filename 420%N.

Definition IsFile (filename : string) : M bool :=
  let* (info, err) := os.Stat filename in
  if is_some err then ret false
  else ret (negb (FileInfo_IsDir info)).

Definition IsDir (filename : string) : M bool :=
  let* (info, err) := os.Stat filename in
  if is_some err then ret false
  else ret (FileInfo_IsDir info).

Definition IsSymlink (filename : string) : M bool :=
  let* (info, err) := os.Lstat filename in
  if is_some err then ret false
  else ret (negb (N.eqb (N.land (FileInfo_Mode info) ModeSymlink) 0)).

(** The two deferred [Close] calls run, last deferred first, once the
    result is determined. *)
Definition copyFile (src dst : string) (info : FileInfo) (overwrite : bool) : M error :=
  let* found := Exists dst in
  if found && negb overwrite then ret None
  else
    let* (srcFile, err) := os.Open src in
    if is_some err then ret err
    else
      let* (dstFile, err) := os.Create dst in
      if is_some err then
        let* _ := os.Close srcFile in
        ret err
      else
        let* (_, err) := io.Copy dstFile srcFile in
        if is_some err then
          let* _ := os.Close dstFile in
          let* _ := os.Close srcFile in
          ret err
        else
          let* err := os.Chmod dst (FileInfo_Mode info) in
          let* _ := os.Close dstFile in
          let* _ := os.Close srcFile in
          ret err.

Definition CopyFile (src dst : string) (overwrite : bool) : M error :=
  let* (info, err) := os.Stat src in
  if is_some err then ret err
  else copyFile src dst info overwrite.

(** The function literal that [CopyDir] hands to [filepath.Walk]; it
    captures [src], [dst] and [overwrite]. *)
Definition CopyDir_func1 (src dst : string) (overwrite : bool) : filepath.WalkFunc :=
  fun path info err =>
    if is_some err then ret err
    else
      let '(relPath, err) := filepath.Rel src path in
      if is_some err then ret err
      else
        let dstPath := filepath.Join dst relPath in
        if FileInfo_IsDir info then EnsureDir dstPath (FileInfo_Mode info)
        else copyFile path dstPath info overwrite.

Definition CopyDir (src dst : string) (overwrite : bool) : M error :=
  filepath.Walk src (CopyDir_func1 src dst overwrite).

Definition Copy (src dst : string) (overwrite : bool) : M error :=
  let* (info, err) := os.Stat src in
  if is_some err then ret err
  else if FileInfo_IsDir info then CopyDir src dst overwrite
  else CopyFile src dst overwrite.

(** [relative[0] == c && (relative[1] == '/' || relative[1] == '\\')]: the
    second operand is evaluated only when the first holds, and an index
    expression out of range panics ([None]). *)
Definition prefixed (relative : string) (c : ascii) : option bool :=
  match String.get 0 relative with
  | None => None
  | Some c0 =>
      if Ascii.eqb c0 c then
        match String.get 1 relative with
        | None => None
        | Some c1 => Some (Ascii.eqb c1 slash || Ascii.eqb c1 backslash)
        end
      else Some false
  end.

Definition index_out_of_range : string := "runtime error: index out of range".

Definition Resolve (relative base : string) : M (Outcome (string * error)) :=
  if filepath.IsAbs relative then ret (Returned (relative, None))
  else
    let* base :=
      if String.eqb base "" then
        let* (dir, _) := Cwd in
        ret dir
      else ret base in
    match prefixed relative tilde with
    | None => ret (Panicked index_out_of_range)
    | Some true =>
        let* (home, err) := os.UserHomeDir in
        if is_some err then ret (Returned ("", err))
        else
          let* r := filepath.Abs (filepath.Join home (drop_string 2 relative)) in
          ret (Returned r)
    | Some false =>
        match prefixed relative dot with
        | None => ret (Panicked index_out_of_range)
        | Some true =>
            let* r := filepath.Abs (filepath.Join base (drop_string 2 relative)) in
            ret (Returned r)
        | Some false =>
            let* r := filepath.Abs (filepath.Join base relative) in
            ret (Returned r)
        end
    end.

Definition ReadTextFile (filename : string) : M (string * error) :=
  let* (data, err) := os.ReadFile filename in
  if is_some err then ret ("", err)
  else ret (string_of_bytes data, None).

(** [for scanner.Scan() { lines = append(lines, scanner.Text()) }].  Every
    successful scan consumes input, so [fuel] above the length of the input
    is never used up. *)
Fixpoint scan_loop (fuel : nat) (scanner : bufio.Scanner) (lines : list string) : list string * bufio.Scanner :=
  match fuel with
  | O => (lines, scanner)
  | S fuel' =>
      let '(more, scanner) := bufio.Scan scanner in
      if more then scan_loop fuel' scanner (lines ++ [bufio.Text scanner])
      else (lines, scanner)
  end.

Definition ReadFileLines (filename : string) : M (list string * error) :=
  let* (data, err) := os.ReadFile filename in
  if is_some err then ret ([], err)
  else
    let scanner := bufio.NewScanner (string_of_bytes data) in
    let '(lines, scanner) := scan_loop (S (length data)) scanner [] in
    ret (lines, bufio.Err scanner).

Definition WriteTextFile (filename : string) (data : string) (perm : FileMode) : M error :=
  os.WriteFile filename (bytes_of_string data) perm.

(** The [strings.Builder] receives each line, then the separator. *)
Definition WriteFileLinesSep (filename : string) (lines : list string) (sep : string) (perm : FileMode) : M error :=
  let sb := fold_left (fun sb line => (sb +:+ line) +:+ sep) lines "" in
  WriteTextFile filename sb perm.

Section platform.

(** Modelled from the spec: [EOL], the constant of the platform-specific
    source file that is not among the sources, "the host's conventional
    line-ending"; a line feed on Unix, carriage return and line feed on
    Windows. *)
Variable EOL : string.

Definition WriteFileLines (filename : string) (lines : list string) (perm : FileMode) : M error :=
  WriteFileLinesSep filename lines EOL perm.

End platform.

End xfs.

Definition EOL_unix : string := String LF EmptyString.
Definition EOL_windows : string := String CR (String LF EmptyString).

Global Arguments resolve : simpl never.
Global Arguments namei : simpl never.
Global Arguments fresh_ino : simpl never.

(** ** Vocabulary of the statements *)

(** What a computation returns and the host state it leaves. *)
Definition run {A} (m : M A) (w : World) : A * Sys := (result m w, sys (after m w)).

(** The answer of [Exists] on a host state. *)
Definition exists_on (s : Sys) (p : string) : bool :=
  negb (is_some (snd (os.stat p s))) || negb (os.IsNotExist (snd (os.stat p s))).

(** The text the specification gives for [WriteFileLinesSep]: every line
    followed by the separator, the last one included. *)
Fixpoint lines_with_sep (lines : list string) (sep : string) : string :=
  match lines with
  | [] => ""
  | line :: rest => line +:+ sep +:+ lines_with_sep rest sep
  end.

Definition has_LF (s : string) : bool :=
  is_some (bufio.IndexByte (bytes_of_string s) LF).

Definition ends_with_CR (s : string) : bool :=
  match rev (bytes_of_string s) with
  | x :: _ => Ascii.eqb x CR
  | [] => false
  end.

Definition is_EOL (sep : string) : Prop := sep = EOL_unix \/ sep = EOL_windows.

(** A line that survives being written with [sep] and scanned back: it
    holds no line feed, it and its terminator fit the scanner's buffer, and
    where the terminator is a bare line feed it does not end in a carriage
    return. *)
Definition line_fits (sep line : string) : Prop :=
  has_LF line = false /\
  String.length line + String.length sep <= bufio.MaxScanTokenSize /\
  (sep = EOL_unix -> ends_with_CR line = false).

(** The inode table once directory [pd] has the new entry [name] for the
    new inode [n]. *)
Definition extended (m : gmap ino Inode) (pd : ino) (pp : N) (par : ino)
    (ents : gmap string ino) (name : string) (n : ino) (node : Inode) : gmap ino Inode :=
  <[n := node]> (<[pd := IDir pp par (<[name := n]> ents)]> m).

(** How a walk that did not fail changes by that extension. *)
Definition extends_at (pd : ino) (name : string) (n : ino) (old new : Located) : Prop :=
  match old with
  | Found i => new = Found i
  | Absent d c => if decide (d = pd /\ c = name) then new = Found n else new = Absent d c
  | Failed _ => True
  end.

(** A walk that ends without meeting a link in last position does not
    depend on whether such a link would be followed. *)
Definition follow_agnostic (m : gmap ino Inode) (old new : Located) : Prop :=
  match old with
  | Found i => (forall t, m !! i <> Some (ISymlink t)) -> new = Found i
  | Absent d c => new = Absent d c
  | Failed _ => True
  end.

(** Only directories are added, each with the given permission bits less
    the mask; files, links and everything else of the host stay. *)
Definition grows_dirs (perm : FileMode) (s s' : Sys) : Prop :=
  root s' = root s /\ cwd s' = cwd s /\ umask s' = umask s /\ env_HOME s' = env_HOME s /\
  forall i,
    match inodes s !! i with
    | Some (IDir p parent ents) =>
        exists ents', inodes s' !! i = Some (IDir p parent ents') /\ ents ⊆ ents'
    | Some n => inodes s' !! i = Some n
    | None =>
        inodes s' !! i = None \/
        exists parent ents,
          inodes s' !! i = Some (IDir (N.ldiff (N.land perm ModePerm) (umask s)) parent ents)
    end.

(** The base [Resolve] goes on with when none is given, and the world once
    it is determined: the error of [Cwd] is not part of either. *)
Definition resolve_base (base : string) (w : World) : string * World :=
  if String.eqb base "" then
    (fst (os.getwd (sys w)), mkWorld (sys w) (calls w ++ [call_Getwd]))
  else (base, w).

(** The course of a walk as its visitor sees it: a sequence of visits, each
    from the world the previous one left, that all return [nil] but
    possibly the last; the result is the last visit's error and the world
    is the one it left. *)
Inductive visits (fn : filepath.WalkFunc) : World -> error -> World -> Prop :=
| visits_none w : visits fn w None w
| visits_next w path info err w1 r w2 :
    filepath.is_skip err = false ->
    fn path info err w = (None, w1) -> visits fn w1 r w2 -> visits fn w r w2
| visits_last w path info err e w1 :
    filepath.is_skip err = false ->
    fn path info err w = (Some e, w1) -> visits fn w (Some e) w1.

(** A visitor that never asks to skip. *)
Definition never_skips (fn : filepath.WalkFunc) : Prop :=
  forall path info err w,
    filepath.is_skip err = false -> filepath.is_skip (fst (fn path info err w)) = false.

(** The outcome of a walk from world [w]: a course of visits, unless the
    model's depth bound was reached. *)
Definition walked (fn : filepath.WalkFunc) (w : World) (out : error * World) : Prop :=
  visits fn w (fst out) (snd out) \/ fst out = filepath.depth_exceeded.

(** ** Example hosts

    The home directory of the repository's tests ([testdir], [testfile]
    with the content "test data", [testsymlink]), a directory [locked]
    without permissions, and a tree with links to a file and to a
    directory:
<<
    /home/user/            (working directory)
      testdir/
      testfile             "test data"
      testsymlink -> testfile
      locked/              (mode 000)
        secret
      tree/
        a.txt              "hello"
        linkd -> sub
        linkf -> a.txt
        sub/
          b.txt            "world"
      files/
        a.txt              "hello"
        linkf -> a.txt
>> *)

Definition demo_inodes : gmap ino Inode :=
  list_to_map
    [ (0, IDir 493 0 (list_to_map [("home", 1)]));
      (1, IDir 493 0 (list_to_map [("user", 2)]));
      (2, IDir 493 1 (list_to_map
            [("testdir", 3); ("testfile", 4); ("testsymlink", 5);
             ("locked", 6); ("tree", 8); ("files", 14)]));
      (3, IDir 493 2 ∅);
      (4, IFile 420 (bytes_of_string "test data"));
      (5, ISymlink "testfile");
      (6, IDir 0 2 (list_to_map [("secret", 7)]));
      (7, IFile 420 (bytes_of_string "hidden"));
      (8, IDir 493 2 (list_to_map
            [("a.txt", 9); ("sub", 10); ("linkf", 12); ("linkd", 13)]));
      (9, IFile 420 (bytes_of_string "hello"));
      (10, IDir 493 8 (list_to_map [("b.txt", 11)]));
      (11, IFile 420 (bytes_of_string "world"));
      (12, ISymlink "a.txt");
      (13, ISymlink "sub");
      (14, IDir 493 2 (list_to_map [("a.txt", 15); ("linkf", 16)]));
      (15, IFile 420 (bytes_of_string "hello"));
      (16, ISymlink "a.txt") ].

Definition demo_sys : Sys :=
  mkSys demo_inodes 0 (Some ("/home/user", 2)) 18 (Some "/home/user").

Definition demo : World := mkWorld demo_sys [].

(** The same host for a process whose working directory cannot be
    determined. *)
Definition lost_sys : Sys :=
  mkSys demo_inodes 0 None 18 (Some "/home/user").

Definition lost : World := mkWorld lost_sys [].

(** The demonstration host with one more file, [long]: the line "ab", then
    a line of [MaxScanTokenSize] letters, then the line "cd". *)
Definition long_line_content : bytes :=
  bytes_of_string (lines_with_sep ["ab"] EOL_unix)
  ++ repeat "x"%char bufio.MaxScanTokenSize
  ++ bytes_of_string (String LF "cd").

Definition long_line_world : World :=
  after (os.WriteFile "long" long_line_content 420) demo.

(** ** Vocabulary of the further statements *)

(** The segments of a file between line feeds.  What follows the last line
    feed is a segment when it is not empty. *)
Fixpoint segments (data : bytes) : list bytes :=
  match data with
  | [] => []
  | x :: rest =>
      if Ascii.eqb x LF then [] :: segments rest
      else match segments rest with
           | seg :: segs => (x :: seg) :: segs
           | [] => [[x]]
           end
  end.

(** A segment the scanner's buffer can hold next to its terminator. *)
Definition fits (seg : bytes) : bool :=
  Nat.ltb (length seg) bufio.MaxScanTokenSize.

(** The segments before the first one that does not fit. *)
Fixpoint scannable (segs : list bytes) : list bytes :=
  match segs with
  | [] => []
  | seg :: rest => if fits seg then seg :: scannable rest else []
  end.

(** The line a segment stands for: a terminal carriage return is dropped. *)
Definition line_of (seg : bytes) : string := string_of_bytes (bufio.dropCR seg).

(** The lines of a file of content [data], and the error of a segment that
    does not fit. *)
Definition scanned_lines (data : bytes) : list string * error :=
  (line_of <$> scannable (segments data),
   if forallb fits (segments data) then None else Some ErrTooLong).

(** The loop of [filepath.walk] over the names of a directory, with [visit]
    for the recursive call. *)
Fixpoint walk_names (visit : string -> FileInfo -> M error) (walkFn : filepath.WalkFunc)
    (path : string) (names : list string) : M error :=
  match names with
  | [] => ret None
  | name :: rest =>
      let filename := filepath.Join path name in
      let* s := get_sys in
      let '(fileInfo, err) := os.lstat filename s in
      if is_some err then
        let* err := walkFn filename fileInfo err in
        if is_some err && negb (filepath.is_SkipDir err) then ret err
        else walk_names visit walkFn path rest
      else
        let* err := visit filename fileInfo in
        if is_some err && (negb (FileInfo_IsDir fileInfo) || negb (filepath.is_SkipDir err))
        then ret err
        else walk_names visit walkFn path rest
  end.

(** Nothing is removed: every path that named an inode names it still; a
    directory keeps its permission bits and its entries and may have more
    of them; a link stays as it is; a regular file stays a regular file.
    The root, the working directory, the mask and [HOME] are the same. *)
Definition keeps_names (s s' : Sys) : Prop :=
  root s' = root s /\ cwd s' = cwd s /\ umask s' = umask s /\ env_HOME s' = env_HOME s /\
  (forall follow q i, resolve follow s q = Found i -> resolve follow s' q = Found i) /\
  forall i,
    match inodes s !! i with
    | Some (IDir p parent ents) =>
        exists ents', inodes s' !! i = Some (IDir p parent ents') /\ ents ⊆ ents'
    | Some (ISymlink target) => inodes s' !! i = Some (ISymlink target)
    | Some (IFile _ _) => exists p data, inodes s' !! i = Some (IFile p data)
    | None => True
    end.

(** A name as a directory holds it: not empty, without a separator, and
    neither [.] nor [..]. *)
Definition simple_name (name : string) : bool :=
  negb (existsb (Ascii.eqb slash) (list_ascii_of_string name)) &&
  negb (String.eqb name "") && negb (String.eqb name ".") && negb (String.eqb name "..").

(** A regular file that its owner may read. *)
Definition readable_file (n : option Inode) : bool :=
  match n with
  | Some (IFile p _) => may_read p
  | _ => false
  end.

(** The setting in which [CopyDir] is shown to copy a directory of files:
    [src] and [dst] are names in the working directory, which its owner may
    search and write; [src] is a directory its owner may read, write and
    search, with the entries [entries], each a regular file its owner may
    read; nothing is called [dst]; and the mask leaves the owner the write
    and search bits. *)
Definition flat_copy_setting (s : Sys) (src dst : string) (entries : gmap string ino) : Prop :=
  simple_name src = true /\ simple_name dst = true /\
  N.land (umask s) 192 = 0%N /\
  exists cn c pc cpar centries ds pd dpar,
    cwd s = Some (cn, c) /\
    inodes s !! c = Some (IDir pc cpar centries) /\
    may_search pc = true /\ may_write pc = true /\
    centries !! src = Some ds /\ centries !! dst = None /\
    inodes s !! ds = Some (IDir pd dpar entries) /\
    may_read pd = true /\ may_write pd = true /\ may_search pd = true /\
    forallb (fun '(name, i) => simple_name name && readable_file (inodes s !! i))
      (map_to_list entries) = true.

(** The entries of the directory with inode [i]. *)
Definition dir_entries (s : Sys) (i : ino) : gmap string ino :=
  match inodes s !! i with
  | Some (IDir _ _ entries) => entries
  | _ => ∅
  end.

(** The demonstration host with two files in [testdir]. *)
Definition demo_files : World :=
  after (os.WriteFile "testdir/b" (bytes_of_string "two") 384)
    (after (os.WriteFile "testdir/a" (bytes_of_string "one") 420) demo).

(** Every regular file is as it was: the same content and the same
    permission bits. *)
Definition keeps_files (s s' : Sys) : Prop :=
  forall i p data, inodes s !! i = Some (IFile p data) -> inodes s' !! i = Some (IFile p data).

(** * Theorems *)

Lemma namei_nil fuel m rt follow d : namei fuel m rt follow d [] = Found d.
Proof. destruct fuel; reflexivity. Qed.

Lemma namei_cons fuel m rt follow d c rest :
  namei fuel m rt follow d (c :: rest) =
  match m !! d with
  | Some (IDir perm parent entries) =>
      if negb (may_search perm) then Failed EACCES
      else match dir_lookup d parent entries c with
           | None => if is_nil rest then Absent d c else Failed ENOENT
           | Some i =>
               match m !! i with
               | Some (ISymlink target) =>
                   if is_nil rest && negb follow then Found i
                   else if String.eqb target "" then Failed ENOENT
                   else match fuel with
                        | O => Failed ELOOP
                        | S fuel' =>
                            namei fuel' m rt follow
                              (if IsAbs_prefix target then rt else d)
                              (components target ++ rest)
                        end
               | Some _ => namei fuel m rt follow i rest
               | None => Failed ENOENT
               end
           end
  | Some _ => Failed ENOTDIR
  | None => Failed ENOENT
  end.
Proof. destruct fuel; reflexivity. Qed.

(** Rewriting a regular file in place leaves every path walk as it was. *)
Lemma namei_file_update fuel m rt follow i p dat p' dat' :
  m !! i = Some (IFile p dat) ->
  forall d comps,
    namei fuel (<[i := IFile p' dat']> m) rt follow d comps = namei fuel m rt follow d comps.
Proof.
  intros Hi. induction fuel as [|fuel IHf].
  - intros d comps. revert d. induction comps as [|c rest IH]; intros d.
    + by rewrite !namei_nil.
    + rewrite !namei_cons.
      destruct (decide (i = d)) as [->|Hd].
      { rewrite lookup_insert_eq, Hi. done. }
      rewrite lookup_insert_ne by done.
      destruct (m !! d) as [[| perm parent entries |]|]; try done.
      destruct (negb (may_search perm)); [done|].
      destruct (dir_lookup d parent entries c) as [j|]; [|done].
      destruct (decide (i = j)) as [->|Hj].
      { rewrite lookup_insert_eq, Hi. apply IH. }
      rewrite lookup_insert_ne by done.
      destruct (m !! j) as [[| |]|]; try done; apply IH.
  - intros d comps. revert d. induction comps as [|c rest IH]; intros d.
    + by rewrite !namei_nil.
    + rewrite !namei_cons.
      destruct (decide (i = d)) as [->|Hd].
      { rewrite lookup_insert_eq, Hi. done. }
      rewrite lookup_insert_ne by done.
      destruct (m !! d) as [[| perm parent entries |]|]; try done.
      destruct (negb (may_search perm)); [done|].
      destruct (dir_lookup d parent entries c) as [j|]; [|done].
      destruct (decide (i = j)) as [->|Hj].
      { rewrite lookup_insert_eq, Hi. apply IH. }
      rewrite lookup_insert_ne by done.
      destruct (m !! j) as [[| |]|]; try done; try apply IH.
      destruct (is_nil rest && negb follow); [done|].
      destruct (String.eqb target ""); [done|]. apply IHf.
Qed.

Section extension.

Variables (m : gmap ino Inode) (rt : ino) (follow : bool).
Variables (pd : ino) (pp : N) (par : ino) (ents : gmap string ino).
Variables (name : string) (n : ino) (node : Inode).
Hypothesis Hpd : m !! pd = Some (IDir pp par ents).
Hypothesis Hn : m !! n = None.
Hypothesis Hname : ents !! name = None.
Hypothesis Hnode : is_symlink node = false.

Local Abbreviation m' := (extended m pd pp par ents name n node).
Local Abbreviation extends := (extends_at pd name n).

Lemma n_ne_pd : n <> pd.
Proof. intros ->. congruence. Qed.

Lemma lookup_extended i :
  m' !! i =
  if decide (i = n) then Some node
  else if decide (i = pd) then Some (IDir pp par (<[name := n]> ents))
  else m !! i.
Proof.
  unfold extended. destruct (decide (i = n)) as [->|].
  - by rewrite lookup_insert_eq.
  - rewrite lookup_insert_ne by done.
    destruct (decide (i = pd)) as [->|].
    + by rewrite lookup_insert_eq.
    + by rewrite lookup_insert_ne.
Qed.

Lemma namei_extends_step fuel :
  (forall fuel', fuel = S fuel' -> forall d comps,
      extends (namei fuel' m rt follow d comps) (namei fuel' m' rt follow d comps)) ->
  forall comps d, extends (namei fuel m rt follow d comps) (namei fuel m' rt follow d comps).
Proof.
  intros IHf. induction comps as [|c rest IH]; intros d.
  - rewrite !namei_nil. done.
  - rewrite !namei_cons, !lookup_extended.
    destruct (decide (d = n)) as [->|Hdn].
    { rewrite Hn. done. }
    assert (Hchild : forall j, m !! j <> None ->
      extends
        match m !! j with
        | Some (ISymlink target) =>
            if is_nil rest && negb follow then Found j
            else if String.eqb target "" then Failed ENOENT
            else match fuel with
                 | O => Failed ELOOP
                 | S fuel' => namei fuel' m rt follow (if IsAbs_prefix target then rt else d) (components target ++ rest)
                 end
        | Some _ => namei fuel m rt follow j rest
        | None => Failed ENOENT
        end
        match m' !! j with
        | Some (ISymlink target) =>
            if is_nil rest && negb follow then Found j
            else if String.eqb target "" then Failed ENOENT
            else match fuel with
                 | O => Failed ELOOP
                 | S fuel' => namei fuel' m' rt follow (if IsAbs_prefix target then rt else d) (components target ++ rest)
                 end
        | Some _ => namei fuel m' rt follow j rest
        | None => Failed ENOENT
        end).
    { intros j Hj. rewrite lookup_extended.
      destruct (decide (j = n)) as [->|Hjn]; [congruence|].
      destruct (decide (j = pd)) as [->|Hjp].
      { rewrite Hpd. apply IH. }
      destruct (m !! j) as [[| |target]|]; try done; try apply IH.
      destruct (is_nil rest && negb follow); [done|].
      destruct (String.eqb target ""); [done|].
      destruct fuel as [|fuel']; [done|]. by apply IHf. }
    destruct (decide (d = pd)) as [->|Hdp].
    + rewrite Hpd.
      destruct (negb (may_search pp)); [done|].
      unfold dir_lookup.
      destruct (String.eqb c ".") eqn:E1.
      { apply Hchild. congruence. }
      destruct (String.eqb c "..") eqn:E2.
      { destruct (decide (m !! par = None)) as [Hpar|Hpar]; [by rewrite Hpar|by apply Hchild]. }
      destruct (decide (c = name)) as [->|Hc].
      * rewrite lookup_insert_eq.
        rewrite Hname.
        destruct (is_nil rest) eqn:Hrest; [|done].
        cbn. rewrite decide_True by done.
        rewrite lookup_extended, decide_True by done.
        destruct rest; [|done]. rewrite namei_nil.
        destruct node; done.
      * rewrite lookup_insert_ne by done.
        destruct (ents !! c) as [j|] eqn:Hj.
        { destruct (decide (m !! j = None)) as [Hmj|Hmj]; [by rewrite Hmj|by apply Hchild]. }
        destruct (is_nil rest); [|done].
        cbn. rewrite decide_False; [done|]. intros [_ ?]. done.
    + destruct (m !! d) as [[| perm parent entries |]|]; try done.
      destruct (negb (may_search perm)); [done|].
      destruct (dir_lookup d parent entries c) as [j|] eqn:Hj.
      * destruct (decide (m !! j = None)) as [Hmj|Hmj]; [by rewrite Hmj|by apply Hchild].
      * destruct (is_nil rest); [|done]. cbn. rewrite decide_False; [done|]. intros [? _]. done.
Qed.

Lemma namei_extends fuel d comps :
  extends (namei fuel m rt follow d comps) (namei fuel m' rt follow d comps).
Proof.
  revert d comps. induction fuel as [|fuel IH]; intros d comps.
  - apply namei_extends_step. intros fuel' [=].
  - apply namei_extends_step. intros fuel' [= <-]. apply IH.
Qed.

End extension.

Lemma namei_follow_step m rt fuel :
  (forall fuel', fuel = S fuel' -> forall d comps,
      follow_agnostic m (namei fuel' m rt false d comps) (namei fuel' m rt true d comps)) ->
  forall comps d, follow_agnostic m (namei fuel m rt false d comps) (namei fuel m rt true d comps).
Proof.
  intros IHf. induction comps as [|c rest IH]; intros d.
  - rewrite !namei_nil. done.
  - rewrite !namei_cons.
    destruct (m !! d) as [[| perm parent entries |]|]; try done.
    destruct (negb (may_search perm)); [done|].
    destruct (dir_lookup d parent entries c) as [j|]; [|by destruct (is_nil rest)].
    destruct (m !! j) as [[| |target]|] eqn:Hj; try done; try apply IH.
    rewrite andb_false_r, andb_true_r.
    destruct (is_nil rest) eqn:Hrest.
    + cbn. intros H. by destruct (H target).
    + destruct (String.eqb target ""); [done|].
      destruct fuel as [|fuel']; [done|]. by apply IHf.
Qed.

Lemma namei_follow m rt fuel d comps :
  follow_agnostic m (namei fuel m rt false d comps) (namei fuel m rt true d comps).
Proof.
  revert d comps. induction fuel as [|fuel IH]; intros d comps.
  - apply namei_follow_step. intros fuel' [=].
  - apply namei_follow_step. intros fuel' [= <-]. apply IH.
Qed.


Lemma namei_Absent_step m rt follow fuel pd name :
  (forall fuel', fuel = S fuel' -> forall d comps,
      namei fuel' m rt follow d comps = Absent pd name ->
      exists perm parent ents, m !! pd = Some (IDir perm parent ents) /\ dir_lookup pd parent ents name = None) ->
  forall comps d,
    namei fuel m rt follow d comps = Absent pd name ->
    exists perm parent ents, m !! pd = Some (IDir perm parent ents) /\ dir_lookup pd parent ents name = None.
Proof.
  intros IHf. induction comps as [|c rest IH]; intros d.
  - rewrite namei_nil. done.
  - rewrite namei_cons.
    destruct (m !! d) as [[| perm parent entries |]|] eqn:Hd; try done.
    destruct (negb (may_search perm)); [done|].
    destruct (dir_lookup d parent entries c) as [j|] eqn:Hc.
    + destruct (m !! j) as [[| |target]|] eqn:Hj; try done; try apply IH.
      destruct (is_nil rest && negb follow); [done|].
      destruct (String.eqb target ""); [done|].
      destruct fuel as [|fuel']; [done|]. by apply IHf.
    + destruct (is_nil rest); [|done]. intros [= <- <-]. eauto.
Qed.

Lemma namei_Absent_inv m rt follow fuel pd name d comps :
  namei fuel m rt follow d comps = Absent pd name ->
  exists perm parent ents, m !! pd = Some (IDir perm parent ents) /\ dir_lookup pd parent ents name = None.
Proof.
  revert d comps. induction fuel as [|fuel IH]; intros d comps.
  - apply namei_Absent_step. intros fuel' [=].
  - apply namei_Absent_step. intros fuel' [= <-]. apply IH.
Qed.

Lemma dir_lookup_None d parent ents name :
  dir_lookup d parent ents name = None -> ents !! name = None.
Proof.
  unfold dir_lookup. destruct (String.eqb name "."); [done|].
  by destruct (String.eqb name "..").
Qed.

Lemma fresh_ino_None (m : gmap ino Inode) : m !! fresh_ino m = None.
Proof. apply not_elem_of_dom. unfold fresh_ino. apply (is_fresh (dom m)). Qed.

(** *** Consequences for [resolve] *)

Lemma resolve_file_update follow s i p dat p' dat' path :
  inodes s !! i = Some (IFile p dat) ->
  resolve follow (set_inodes s (<[i := IFile p' dat']> (inodes s))) path = resolve follow s path.
Proof.
  intros Hi. unfold resolve. cbn [set_inodes root cwd inodes].
  destruct (String.eqb path ""); [done|].
  destruct (if IsAbs_prefix path then Some (root s) else snd <$> cwd s); [|done].
  by eapply namei_file_update.
Qed.

Lemma resolve_Absent_inv follow s path pd name :
  resolve follow s path = Absent pd name ->
  exists perm parent ents, inodes s !! pd = Some (IDir perm parent ents) /\ ents !! name = None.
Proof.
  unfold resolve. destruct (String.eqb path ""); [done|].
  destruct (if IsAbs_prefix path then Some (root s) else snd <$> cwd s); [|done].
  intros H. apply namei_Absent_inv in H as (perm & parent & ents & H1 & H2).
  apply dir_lookup_None in H2. eauto.
Qed.

Lemma link_new_resolve s pd name node n s' :
  link_new s pd name node = inr (n, s') ->
  is_symlink node = false ->
  (exists perm parent ents, inodes s !! pd = Some (IDir perm parent ents) /\ ents !! name = None) ->
  forall follow path, extends_at pd name n (resolve follow s path) (resolve follow s' path).
Proof.
  intros Hl Hnode (perm & parent & ents & Hpd & Hname) follow path.
  unfold link_new in Hl. rewrite Hpd in Hl.
  destruct (may_write perm); [|done]. injection Hl as <- <-.
  unfold resolve. cbn [set_inodes root cwd inodes].
  destruct (String.eqb path ""); [done|].
  destruct (if IsAbs_prefix path then Some (root s) else snd <$> cwd s); [|done].
  eapply namei_extends; eauto using fresh_ino_None.
Qed.

Lemma link_new_inodes s pd name node n s' :
  link_new s pd name node = inr (n, s') ->
  inodes s !! n = None /\ inodes s' !! n = Some node /\
  (forall i, i <> n -> i <> pd -> inodes s' !! i = inodes s !! i) /\
  (forall i p dat, inodes s !! i = Some (IFile p dat) -> inodes s' !! i = Some (IFile p dat)).
Proof.
  unfold link_new. destruct (inodes s !! pd) as [[|perm parent ents|]|] eqn:Hpd; try done.
  destruct (may_write perm); [|done]. intros [= <- <-]. cbn [set_inodes inodes].
  pose proof (fresh_ino_None (inodes s)) as Hn.
  split; [done|]. split; [by rewrite lookup_insert_eq|]. split.
  - intros i H1 H2. by rewrite !lookup_insert_ne.
  - intros i p dat Hi.
    rewrite !lookup_insert_ne; [done| |]; congruence.
Qed.

Lemma resolve_follow s path :
  follow_agnostic (inodes s) (resolve false s path) (resolve true s path).
Proof.
  unfold resolve. destruct (String.eqb path ""); [done|].
  destruct (if IsAbs_prefix path then Some (root s) else snd <$> cwd s); [|done].
  apply namei_follow.
Qed.

(** *** What the system calls establish *)
Opaque namei.

Lemma sys_creat_inv rdwr s path perm f s' :
  sys_creat rdwr s path perm = inr (f, s') ->
  fd_name f = path /\
  (exists p, inodes s' !! fd_ino f = Some (IFile p [])) /\
  resolve true s' path = Found (fd_ino f) /\
  (forall follow q i, resolve follow s q = Found i -> resolve follow s' q = Found i) /\
  (forall i p dat, i <> fd_ino f ->
     (inodes s !! i = Some (IFile p dat) <-> inodes s' !! i = Some (IFile p dat))) /\
  root s' = root s /\ cwd s' = cwd s /\ umask s' = umask s /\ env_HOME s' = env_HOME s.
Proof.
  unfold sys_creat. destruct (resolve true s path) as [i|d name|e] eqn:Hres; [| |intros [=]].
  - destruct (inodes s !! i) as [[p dat| |]|] eqn:Hi; try (intros [=]; fail).
    destruct (may_write p && (negb rdwr || may_read p)); [|intros [=]].
    intros [= <- <-]. cbn [fd_name fd_ino].
    split; [done|]. split; [exists p; cbn; by rewrite lookup_insert_eq|].
    split; [by erewrite resolve_file_update|].
    split; [intros follow q j; by erewrite resolve_file_update|].
    split; [|done]. intros j p0 dat0 Hne. cbn. by rewrite lookup_insert_ne.
  - destruct (link_new s d name _) as [e|[n s1]] eqn:Hl; [intros [=]|].
    intros [= <- <-]. cbn [fd_name fd_ino].
    pose proof (resolve_Absent_inv _ _ _ _ _ Hres) as Hdir.
    pose proof (link_new_resolve _ _ _ _ _ _ Hl eq_refl Hdir) as Hext.
    destruct (link_new_inodes _ _ _ _ _ _ Hl) as (Hn & Hn' & Hother & Hfiles).
    split; [done|]. split; [eauto|].
    split.
    { specialize (Hext true path). rewrite Hres in Hext. unfold extends_at in Hext.
      rewrite decide_True in Hext; [exact Hext|split; reflexivity]. }
    split.
    { intros follow q i Hq. specialize (Hext follow q). rewrite Hq in Hext. exact Hext. }
    split.
    { intros i p dat Hi. split; [apply Hfiles|]. intros Hi'.
      destruct (decide (i = d)) as [->|Hd]; [|by rewrite <- Hother].
      destruct Hdir as (dp & dpar & dents & Hd & _).
      revert Hi'. unfold link_new in Hl. rewrite Hd in Hl.
      destruct (may_write dp); [|discriminate Hl]. injection Hl as <- <-.
      cbn. rewrite lookup_insert_ne by done. rewrite lookup_insert_eq. intros [=]. }
    unfold link_new in Hl. destruct (inodes s !! d) as [[| dperm ? ?|]|]; try discriminate Hl.
    destruct (may_write dperm); [|discriminate Hl]. injection Hl as <- <-. repeat split.
Qed.

Lemma sys_mkdir_inv s path perm s' :
  sys_mkdir s path perm = inr s' ->
  exists n p parent,
    resolve true s' path = Found n /\ inodes s' !! n = Some (IDir p parent ∅).
Proof.
  unfold sys_mkdir. destruct (resolve false s path) as [i|d name|e] eqn:Hres; try (intros [=]; fail).
  destruct (link_new s d name _) as [e|[n s1]] eqn:Hl; [intros [=]|].
  intros [= <-].
  pose proof (resolve_Absent_inv _ _ _ _ _ Hres) as Hdir.
  pose proof (link_new_resolve _ _ _ _ _ _ Hl eq_refl Hdir true path) as Hext.
  destruct (link_new_inodes _ _ _ _ _ _ Hl) as (Hn & Hn' & _).
  pose proof (resolve_follow s path) as Hf. rewrite Hres in Hf. unfold follow_agnostic in Hf.
  rewrite Hf in Hext. unfold extends_at in Hext.
  rewrite decide_True in Hext; [|split; reflexivity].
  exists n, (N.ldiff (N.land perm ModePerm) (umask s)), d. split; [exact Hext|exact Hn'].
Qed.

Lemma sys_stat_Found follow s path i n :
  resolve follow s path = Found i -> inodes s !! i = Some n ->
  sys_stat follow s path = inr (stat_of n).
Proof. intros H1 H2. unfold sys_stat. by rewrite H1, H2. Qed.

Lemma sys_stat_follow_dir s path st :
  sys_stat false s path = inr st -> FileInfo_IsDir (Some st) = true ->
  sys_stat true s path = inr st.
Proof.
  unfold sys_stat. pose proof (resolve_follow s path) as Hf.
  destruct (resolve false s path) as [i| |]; try (intros [=]; fail).
  destruct (inodes s !! i) as [n|] eqn:Hi; [|intros [=]].
  intros [= <-] Hdir. unfold follow_agnostic in Hf. rewrite Hf, Hi; [reflexivity|].
  intros t Ht. rewrite Hi in Ht. injection Ht as ->. discriminate Hdir.
Qed.

Lemma sys_write_inv s f data s' :
  sys_write s f data = inr s' ->
  exists p old, inodes s !! fd_ino f = Some (IFile p old) /\
    s' = set_inodes s (<[fd_ino f := IFile p (data ++ skipn (length data) old)]> (inodes s)).
Proof.
  unfold sys_write. destruct (inodes s !! fd_ino f) as [[p old| |]|]; try (intros [=]; fail).
  intros [= <-]. eauto.
Qed.

Lemma sys_open_inv s name fd :
  sys_open s name = inr fd ->
  fd_name fd = name /\ resolve true s name = Found (fd_ino fd) /\
  exists n, inodes s !! fd_ino fd = Some n /\ is_symlink n = false.
Proof.
  unfold sys_open. destruct (resolve true s name) as [i| |]; try (intros [=]; fail).
  destruct (inodes s !! i) as [[p dat|p par ents|]|] eqn:Hi; try (intros [=]; fail).
  - destruct (may_read p); intros [= <-]. cbn. eauto.
  - destruct (may_read p); intros [= <-]. cbn. eauto.
Qed.

Lemma sys_chmod_file s name mode i p dat :
  resolve true s name = Found i -> inodes s !! i = Some (IFile p dat) ->
  sys_chmod s name mode = inr (set_inodes s (<[i := IFile (N.land mode ModePerm) dat]> (inodes s))).
Proof. intros H1 H2. unfold sys_chmod. by rewrite H1, H2. Qed.

Lemma content_Found s name i p dat :
  resolve true s name = Found i -> inodes s !! i = Some (IFile p dat) ->
  content s name = Some dat.
Proof. intros H1 H2. unfold content. by rewrite H1, H2. Qed.

(** A successful [os.WriteFile] leaves a regular file with exactly the data
    written. *)
Lemma writeFile_inv name data perm s s' :
  os.writeFile name data perm s = (None, s') ->
  exists i p, resolve true s' name = Found i /\ inodes s' !! i = Some (IFile p data).
Proof.
  unfold os.writeFile.
  destruct (sys_creat false s name perm) as [e|[f s1]] eqn:Hc; [intros [=]|].
  destruct (sys_write s1 f data) as [e|s2] eqn:Hw; intros [= <-].
  apply sys_creat_inv in Hc as (Hname & (p & Hf) & Hres & _).
  apply sys_write_inv in Hw as (p' & old & Hf' & ->).
  rewrite Hf in Hf'. injection Hf' as <- <-.
  exists (fd_ino f), p. split.
  - by erewrite resolve_file_update.
  - cbn. rewrite lookup_insert_eq. by rewrite drop_nil, app_nil_r.
Qed.

Lemma writeFile_content name data perm s s' :
  os.writeFile name data perm s = (None, s') -> content s' name = Some data.
Proof. intros H. apply writeFile_inv in H as (i & p & H1 & H2). by eapply content_Found. Qed.

Lemma readFile_of_file name s i p data :
  resolve true s name = Found i -> inodes s !! i = Some (IFile p data) ->
  os.readFile name s =
  if may_read p then (data, None) else ([], Some (PathError "open" name EACCES)).
Proof.
  intros H1 H2. unfold os.readFile, sys_open, sys_read_all. rewrite H1, H2.
  destruct (may_read p); [|done]. cbn. by rewrite H2.
Qed.

Lemma readFile_content name s data :
  os.readFile name s = (data, None) -> content s name = Some data.
Proof.
  unfold os.readFile.
  destruct (sys_open s name) as [e|fd] eqn:Ho; [intros [=]|].
  apply sys_open_inv in Ho as (_ & Hres & _).
  unfold sys_read_all.
  destruct (inodes s !! fd_ino fd) as [[p dat| |]|] eqn:Hi; intros [= <-].
  by eapply content_Found.
Qed.

(** ** The functions of [xfs.go] on the host state *)

Lemma Exists_run p w :
  xfs.Exists p w = (exists_on (sys w) p, mkWorld (sys w) (calls w ++ [call_Stat p])).
Proof.
  unfold xfs.Exists, os.Stat, call, bind, ret, exists_on.
  by destruct (os.stat p (sys w)) as [info err].
Qed.

Lemma exists_on_stat s p st : sys_stat true s p = inr st -> exists_on s p = true.
Proof. intros H. unfold exists_on, os.stat. by rewrite H. Qed.

Lemma copyFile_run src dst info overwrite w :
  run (xfs.copyFile src dst info overwrite) w =
  if exists_on (sys w) dst && negb overwrite then (None, sys w)
  else match os.open src (sys w) with
       | (_, Some e) => (Some e, sys w)
       | (srcFile, None) =>
           match os.create dst (sys w) with
           | ((_, Some e), s1) => (Some e, s1)
           | ((dstFile, None), s1) =>
               match io.copy dstFile srcFile s1 with
               | ((_, Some e), s2) => (Some e, s2)
               | ((_, None), s2) => os.chmod dst (FileInfo_Mode info) s2
               end
           end
       end.
Proof.
  unfold run, result, after, xfs.copyFile, bind. rewrite Exists_run.
  destruct (exists_on (sys w) dst && negb overwrite); [done|].
  unfold os.Open, os.Create, io.Copy, os.Chmod, os.Close, call, bind, ret. cbn [sys calls].
  destruct (os.open src (sys w)) as [srcFile [e|]]; cbn [is_some sys fst snd]; [done|].
  destruct (os.create dst (sys w)) as [[dstFile [e|]] s1]; cbn [is_some sys fst snd]; [done|].
  destruct (io.copy dstFile srcFile s1) as [[n [e|]] s2]; cbn [is_some sys fst snd]; [done|].
  by destruct (os.chmod dst (FileInfo_Mode info) s2) as [err s3].
Qed.

Lemma copyFile_overwrite_content src dst info s s' :
  (match os.open src s with
   | (_, Some e) => (Some e, s)
   | (srcFile, None) =>
       match os.create dst s with
       | ((_, Some e), s1) => (Some e, s1)
       | ((dstFile, None), s1) =>
           match io.copy dstFile srcFile s1 with
           | ((_, Some e), s2) => (Some e, s2)
           | ((_, None), s2) => os.chmod dst (FileInfo_Mode info) s2
           end
       end
   end) = (None, s') ->
  exists i j data,
    resolve true s' src = Found i /\ resolve true s' dst = Found j /\
    content s' dst = Some data /\ content s' src = Some data /\
    (i <> j -> content s src = Some data).
Proof.
  unfold os.open. destruct (sys_open s src) as [e|fs] eqn:Ho; [intros [=]|].
  unfold os.create. destruct (sys_creat true s dst 438%N) as [e|[fd s1]] eqn:Hc; [intros [=]|].
  unfold io.copy. destruct (sys_read_all s1 fs) as [e|data] eqn:Hr; [intros [=]|].
  destruct (sys_write s1 fd data) as [e|s2] eqn:Hw; [intros [=]|].
  apply sys_open_inv in Ho as (_ & Hsrc & n & Hn & Hnsym).
  apply sys_creat_inv in Hc as (_ & (p & Hfd) & Hdst & Hmono & Hfiles & _).
  apply sys_write_inv in Hw as (p' & old & Hfd' & ->).
  rewrite Hfd in Hfd'. injection Hfd' as <- <-. rewrite drop_nil, app_nil_r.
  unfold sys_read_all in Hr.
  destruct (inodes s1 !! fd_ino fs) as [[ps dat| |]|] eqn:Hfs; try discriminate Hr.
  injection Hr as ->.
  set (s2 := set_inodes s1 (<[fd_ino fd := IFile p data]> (inodes s1))).
  assert (Hdst2 : resolve true s2 dst = Found (fd_ino fd)).
  { unfold s2. erewrite resolve_file_update; [exact Hdst|exact Hfd]. }
  assert (Hfd2 : inodes s2 !! fd_ino fd = Some (IFile p data)).
  { unfold s2. cbn. by rewrite lookup_insert_eq. }
  unfold os.chmod. rewrite (sys_chmod_file _ _ _ _ _ _ Hdst2 Hfd2).
  intros [= <-].
  set (s3 := set_inodes s2 _).
  assert (Hres3 : forall q, resolve true s3 q = resolve true s1 q).
  { intros q. unfold s3. rewrite (resolve_file_update _ _ _ _ _ _ _ _ Hfd2).
    unfold s2. apply (resolve_file_update _ _ _ _ _ _ _ _ Hfd). }
  assert (Hfd3 : inodes s3 !! fd_ino fd = Some (IFile (N.land (FileInfo_Mode info) ModePerm) data)).
  { unfold s3. cbn. by rewrite lookup_insert_eq. }
  assert (Hfs3 : exists q, inodes s3 !! fd_ino fs = Some (IFile q data)).
  { destruct (decide (fd_ino fs = fd_ino fd)) as [E|E].
    - rewrite E. eauto.
    - exists ps. unfold s3, s2. cbn. by rewrite !lookup_insert_ne. }
  destruct Hfs3 as [q Hfs3].
  exists (fd_ino fs), (fd_ino fd), data.
  assert (Hsrc3 : resolve true s3 src = Found (fd_ino fs)).
  { rewrite Hres3. apply Hmono. exact Hsrc. }
  assert (Hdst3 : resolve true s3 dst = Found (fd_ino fd)).
  { rewrite Hres3. exact Hdst. }
  split; [exact Hsrc3|]. split; [exact Hdst3|].
  split; [exact (content_Found _ _ _ _ _ Hdst3 Hfd3)|].
  split; [exact (content_Found _ _ _ _ _ Hsrc3 Hfs3)|].
  intros Hne. apply (content_Found _ _ _ ps _ Hsrc). apply Hfiles; [exact Hne|exact Hfs].
Qed.

Lemma EnsureFile_run filename perm w :
  run (xfs.EnsureFile filename perm) w =
  if exists_on (sys w) filename then (None, sys w)
  else match os.create filename (sys w) with
       | ((_, Some e), s1) => (Some e, s1)
       | ((_, None), s1) => os.chmod filename perm s1
       end.
Proof.
  unfold run, result, after, xfs.EnsureFile, bind. rewrite Exists_run.
  destruct (exists_on (sys w) filename); [done|].
  unfold os.Create, os.Chmod, os.Close, call, bind, ret. cbn [sys calls].
  destruct (os.create filename (sys w)) as [[file [e|]] s1]; cbn [is_some sys fst snd]; [done|].
  by destruct (os.chmod filename perm s1) as [err s2].
Qed.

Lemma EnsureDir_run dir perm w :
  run (xfs.EnsureDir dir perm) w =
  if exists_on (sys w) dir then (None, sys w)
  else os.mkdirAll (String.length dir) dir perm (sys w).
Proof.
  unfold run, result, after, xfs.EnsureDir, bind. rewrite Exists_run.
  destruct (exists_on (sys w) dir); [done|].
  unfold os.MkdirAll, call. cbn [sys calls].
  by destruct (os.mkdirAll _ dir perm (sys w)) as [err s1].
Qed.

Lemma create_chmod_exists filename perm s s' :
  (match os.create filename s with
   | ((_, Some e), s1) => (Some e, s1)
   | ((_, None), s1) => os.chmod filename perm s1
   end) = (None, s') ->
  exists_on s' filename = true.
Proof.
  unfold os.create.
  destruct (sys_creat true s filename 438%N) as [e|[fd s1]] eqn:Hc; [intros [=]|].
  apply sys_creat_inv in Hc as (_ & (p & Hfd) & Hres & _).
  unfold os.chmod. rewrite (sys_chmod_file _ _ _ _ _ _ Hres Hfd). intros [= <-].
  eapply exists_on_stat, sys_stat_Found.
  - rewrite (resolve_file_update _ _ _ _ _ _ _ _ Hfd). exact Hres.
  - cbn. apply lookup_insert_eq.
Qed.

Lemma IsDir_stat_of_dir p parent ents :
  FileInfo_IsDir (Some (stat_of (IDir p parent ents))) = true.
Proof.
  unfold FileInfo_IsDir, FileInfo_Mode, stat_of. cbn [st_mode].
  apply negb_true_iff, N.eqb_neq. intros H.
  apply (f_equal (fun x => N.testbit x 31)) in H.
  rewrite N.land_spec, N.lor_spec in H. discriminate H.
Qed.

Lemma mkdirAll_eq fuel path perm s :
  os.mkdirAll fuel path perm s =
  match sys_stat true s path with
  | inr dir =>
      if FileInfo_IsDir (Some dir) then (None, s)
      else (Some (PathError "mkdir" path ENOTDIR), s)
  | inl _ =>
      let parent := os.parent_of path in
      let '(err, s1) :=
        match fuel with
        | S fuel' =>
            if negb (String.eqb parent "") then os.mkdirAll fuel' parent perm s
            else (None, s)
        | O => (None, s)
        end in
      match err with
      | Some e => (Some e, s1)
      | None =>
          match sys_mkdir s1 path perm with
          | inr s2 => (None, s2)
          | inl e =>
              match sys_stat false s1 path with
              | inr dir =>
                  if FileInfo_IsDir (Some dir) then (None, s1)
                  else (Some (PathError "mkdir" path e), s1)
              | inl _ => (Some (PathError "mkdir" path e), s1)
              end
          end
      end
  end.
Proof. destruct fuel; reflexivity. Qed.

(** When [MkdirAll] succeeds the path names a directory. *)
Lemma mkdirAll_is_dir fuel path perm s s' :
  os.mkdirAll fuel path perm s = (None, s') ->
  exists st, sys_stat true s' path = inr st /\ FileInfo_IsDir (Some st) = true.
Proof.
  rewrite mkdirAll_eq.
  destruct (sys_stat true s path) as [e0|dir] eqn:Hst.
  - cbv zeta.
    destruct (match fuel with
              | S fuel' => if negb (String.eqb (os.parent_of path) "")
                           then os.mkdirAll fuel' (os.parent_of path) perm s else (None, s)
              | O => (None, s)
              end) as [[e|] s1]; [intros [=]|].
    destruct (sys_mkdir s1 path perm) as [e|s2] eqn:Hmk.
    + destruct (sys_stat false s1 path) as [e1|dir] eqn:Hl; [intros [=]|].
      destruct (FileInfo_IsDir (Some dir)) eqn:Hd; intros [= <-].
      exists dir. split; [|exact Hd]. by apply sys_stat_follow_dir.
    + intros [= <-].
      apply sys_mkdir_inv in Hmk as (n & p & parent & Hres & Hn).
      eexists. split; [exact (sys_stat_Found _ _ _ _ _ Hres Hn)|]. apply IsDir_stat_of_dir.
  - destruct (FileInfo_IsDir (Some dir)) eqn:Hd; intros [= <-]. eauto.
Qed.

Lemma EnsureFile_then_exists filename perm w :
  result (xfs.EnsureFile filename perm) w = None ->
  exists_on (sys (after (xfs.EnsureFile filename perm) w)) filename = true.
Proof.
  pose proof (EnsureFile_run filename perm w) as Hrun. unfold run in Hrun.
  intros Hok. rewrite Hok in Hrun.
  destruct (exists_on (sys w) filename) eqn:Hex.
  - injection Hrun as ->. exact Hex.
  - symmetry in Hrun. by eapply create_chmod_exists.
Qed.

Lemma EnsureDir_then_exists dir perm w :
  result (xfs.EnsureDir dir perm) w = None ->
  exists_on (sys (after (xfs.EnsureDir dir perm) w)) dir = true.
Proof.
  pose proof (EnsureDir_run dir perm w) as Hrun. unfold run in Hrun.
  intros Hok. rewrite Hok in Hrun.
  destruct (exists_on (sys w) dir) eqn:Hex.
  - injection Hrun as ->. exact Hex.
  - symmetry in Hrun. apply mkdirAll_is_dir in Hrun as (st & Hst & _).
    by eapply exists_on_stat.
Qed.

Lemma grows_dirs_refl perm s : grows_dirs perm s s.
Proof.
  repeat split. intros i. destruct (inodes s !! i) as [[| p parent ents |]|]; eauto.
Qed.

Lemma grows_dirs_trans perm s1 s2 s3 :
  grows_dirs perm s1 s2 -> grows_dirs perm s2 s3 -> grows_dirs perm s1 s3.
Proof.
  intros (Hr1 & Hc1 & Hu1 & He1 & H1) (Hr2 & Hc2 & Hu2 & He2 & H2).
  split; [congruence|]. split; [congruence|]. split; [congruence|]. split; [congruence|].
  intros i. specialize (H1 i). specialize (H2 i).
  destruct (inodes s1 !! i) as [[p dat| p parent ents |t]|].
  - by rewrite H1 in H2.
  - destruct H1 as (ents' & H1 & Hsub). rewrite H1 in H2.
    destruct H2 as (ents'' & H2 & Hsub'). exists ents''. split; [done|]. by etrans.
  - by rewrite H1 in H2.
  - destruct H1 as [H1|(parent & ents & H1)]; rewrite H1 in H2.
    + rewrite Hu1 in H2. exact H2.
    + destruct H2 as (ents' & H2 & _). right. eauto.
Qed.

Lemma sys_mkdir_grows s path perm s' :
  sys_mkdir s path perm = inr s' -> grows_dirs perm s s'.
Proof.
  unfold sys_mkdir. destruct (resolve false s path) as [i|d name|e] eqn:Hres; try (intros [=]; fail).
  destruct (link_new s d name _) as [e|[n s1]] eqn:Hl; [intros [=]|]. intros [= <-].
  apply resolve_Absent_inv in Hres as (dp & dpar & dents & Hd & Hname).
  unfold link_new in Hl. rewrite Hd in Hl.
  destruct (may_write dp); [|discriminate Hl]. revert Hl. intros [= <- <-].
  repeat split. intros i. cbn [inodes set_inodes].
  pose proof (fresh_ino_None (inodes s)) as Hfresh.
  destruct (decide (i = fresh_ino (inodes s))) as [->|Hi].
  { rewrite Hfresh, lookup_insert_eq. right. eauto. }
  rewrite lookup_insert_ne by done.
  destruct (decide (i = d)) as [->|Hid].
  { rewrite Hd, lookup_insert_eq. eexists. split; [done|]. by apply insert_subseteq. }
  rewrite lookup_insert_ne by done.
  destruct (inodes s !! i) as [[| p parent ents |]|]; eauto.
Qed.

Lemma mkdirAll_grows fuel path perm s err s' :
  os.mkdirAll fuel path perm s = (err, s') -> grows_dirs perm s s'.
Proof.
  revert path s err s'. induction fuel as [|fuel IH]; intros path s err s'; rewrite mkdirAll_eq.
  - destruct (sys_stat true s path) as [e0|dir].
    + cbv zeta iota beta.
      destruct (sys_mkdir s path perm) as [e|s2] eqn:Hmk.
      * destruct (sys_stat false s path) as [e1|dir]; [|destruct (FileInfo_IsDir _)];
          intros [= <- <-]; apply grows_dirs_refl.
      * intros [= <- <-]. by eapply sys_mkdir_grows.
    + destruct (FileInfo_IsDir _); intros [= <- <-]; apply grows_dirs_refl.
  - destruct (sys_stat true s path) as [e0|dir].
    + cbv zeta.
      match goal with
      | |- match ?x with _ => _ end = _ -> _ => destruct x as [[e|] s1] eqn:Hparent
      end.
      * intros [= <- <-].
        destruct (negb (String.eqb (os.parent_of path) "")); [by eapply IH|].
        discriminate Hparent.
      * assert (grows_dirs perm s s1) as Hg1.
        { destruct (negb (String.eqb (os.parent_of path) "")); [by eapply IH|].
          revert Hparent. intros [= <-]. apply grows_dirs_refl. }
        destruct (sys_mkdir s1 path perm) as [e|s2] eqn:Hmk.
        -- destruct (sys_stat false s1 path) as [e1|dir]; [|destruct (FileInfo_IsDir _)];
             intros [= <- <-]; exact Hg1.
        -- intros [= <- <-]. eapply grows_dirs_trans; [exact Hg1|]. by eapply sys_mkdir_grows.
    + destruct (FileInfo_IsDir _); intros [= <- <-]; apply grows_dirs_refl.
Qed.

(** *** The recursion bound of [mkdirAll] *)

Lemma drop_while_length p l : length (os.drop_while p l) <= length l.
Proof. induction l as [|c l IH]; cbn; [lia|]. destruct (p c); cbn; lia. Qed.

Lemma length_string_of_list_ascii l : String.length (string_of_list_ascii l) = length l.
Proof. induction l as [|c l IH]; cbn; [done|]. by rewrite IH. Qed.

Lemma length_list_ascii_of_string s : length (list_ascii_of_string s) = String.length s.
Proof. induction s as [|c s IH]; cbn; [done|]. by rewrite IH. Qed.

Lemma parent_of_shorter path :
  os.parent_of path = "" \/ String.length (os.parent_of path) < String.length path.
Proof.
  unfold os.parent_of.
  set (r := os.drop_while _ (os.drop_while _ _)).
  assert (length r <= String.length path) as Hr.
  { unfold r. etrans; [apply drop_while_length|]. etrans; [apply drop_while_length|].
    by rewrite length_rev, length_list_ascii_of_string. }
  destruct r as [|c r']; [by left|]. right.
  rewrite length_string_of_list_ascii, length_rev. cbn in *. lia.
Qed.

Lemma mkdirAll_fuel perm n :
  forall path fuel s, String.length path <= n -> String.length path <= fuel ->
    os.mkdirAll fuel path perm s = os.mkdirAll n path perm s.
Proof.
  induction n as [|n IH]; intros path fuel s Hn Hfuel; rewrite !(mkdirAll_eq _ path).
  - destruct path; [|cbn in Hn; lia].
    destruct (sys_stat true s "") as [e0|dir]; [|done].
    change (os.parent_of "") with "". cbn [String.eqb negb]. by destruct fuel.
  - destruct (sys_stat true s path) as [e0|dir]; [|done].
    destruct fuel as [|fuel].
    + destruct path; [|cbn in Hfuel; lia].
      change (os.parent_of "") with "". by cbn [String.eqb negb].
    + cbv zeta. destruct (parent_of_shorter path) as [->|Hlt]; [done|].
      rewrite (IH (os.parent_of path) fuel s) by lia. done.
Qed.

(** ** Strings and bytes *)

Lemma append_cons x (a b : string) : String x a +:+ b = String x (a +:+ b).
Proof. reflexivity. Qed.

Lemma bytes_of_string_app a b :
  bytes_of_string (a +:+ b) = bytes_of_string a ++ bytes_of_string b.
Proof.
  unfold bytes_of_string. induction a as [|c a IH]; [reflexivity|].
  rewrite append_cons. cbn. by rewrite IH.
Qed.

Lemma string_of_bytes_of_string s : string_of_bytes (bytes_of_string s) = s.
Proof. apply string_of_list_ascii_of_string. Qed.

Lemma bytes_of_string_of_bytes b : bytes_of_string (string_of_bytes b) = b.
Proof. apply list_ascii_of_string_of_list_ascii. Qed.

Lemma length_bytes_of_string s : length (bytes_of_string s) = String.length s.
Proof.
  unfold bytes_of_string. induction s as [|c s IH]; [reflexivity|]. simpl. f_equal. exact IH.
Qed.

Lemma append_assoc (a b c : string) : (a +:+ b) +:+ c = a +:+ (b +:+ c).
Proof. induction a as [|x a IH]; [reflexivity|]. rewrite !append_cons. by rewrite IH. Qed.

Lemma append_empty_r (a : string) : a +:+ "" = a.
Proof. induction a as [|x a IH]; [reflexivity|]. rewrite !append_cons. by rewrite IH. Qed.

Lemma builder_fold sep lines acc :
  fold_left (fun sb line => (sb +:+ line) +:+ sep) lines acc = acc +:+ lines_with_sep lines sep.
Proof.
  revert acc. induction lines as [|l lines IH]; intros acc; cbn.
  - by rewrite append_empty_r.
  - by rewrite IH, !append_assoc.
Qed.

(** ** The scanner *)

Lemma MaxScanTokenSize_pos : 0 < bufio.MaxScanTokenSize.
Proof. unfold bufio.MaxScanTokenSize. lia. Qed.

Lemma MaxScanTokenSize_large : 1026 <= bufio.MaxScanTokenSize.
Proof. apply Nat.leb_le. vm_compute. reflexivity. Qed.

Opaque bufio.MaxScanTokenSize.

Lemma IndexByte_app_found a b c :
  bufio.IndexByte a c = None -> bufio.IndexByte (a ++ c :: b) c = Some (length a).
Proof.
  induction a as [|x a IH]; cbn.
  - intros _. by rewrite Ascii.eqb_refl.
  - destruct (Ascii.eqb x c); [done|].
    destruct (bufio.IndexByte a c); [done|]. intros _. by rewrite IH.
Qed.

Lemma IndexByte_app_None a b c :
  bufio.IndexByte a c = None -> bufio.IndexByte b c = None -> bufio.IndexByte (a ++ b) c = None.
Proof.
  induction a as [|x a IH]; cbn; [done|].
  destruct (Ascii.eqb x c); [done|].
  destruct (bufio.IndexByte a c); [done|]. intros _ Hb. by rewrite IH.
Qed.

Lemma IndexByte_take data c i n :
  bufio.IndexByte data c = Some i -> i < n -> bufio.IndexByte (take n data) c = Some i.
Proof.
  revert i n. induction data as [|x data IH]; intros i n; cbn; [done|].
  destruct (Ascii.eqb x c) eqn:E.
  - intros [= <-] Hn. destruct n; [lia|]. cbn. by rewrite E.
  - destruct (bufio.IndexByte data c) as [j|] eqn:Hj; [|done].
    cbn. intros [= <-] Hn. destruct n; [lia|]. cbn. rewrite E.
    erewrite IH; [done|done|lia].
Qed.

Lemma IndexByte_take_None data c n :
  bufio.IndexByte data c = None -> bufio.IndexByte (take n data) c = None.
Proof.
  revert n. induction data as [|x data IH]; intros n; cbn.
  - by destruct n.
  - destruct (Ascii.eqb x c) eqn:E; [done|].
    destruct (bufio.IndexByte data c) eqn:Hj; [done|]. intros _.
    destruct n; [done|]. cbn. by rewrite E, IH.
Qed.

Lemma dropCR_snoc body : bufio.dropCR (body ++ [CR]) = body.
Proof. unfold bufio.dropCR. rewrite rev_app_distr. cbn. by rewrite rev_involutive. Qed.

Lemma dropCR_keep s :
  ends_with_CR s = false -> bufio.dropCR (bytes_of_string s) = bytes_of_string s.
Proof.
  unfold ends_with_CR, bufio.dropCR.
  destruct (rev (bytes_of_string s)); [done|]. by intros ->.
Qed.

Lemma is_nil_take {A} n (l : list A) : 0 < n -> is_nil (take n l) = is_nil l.
Proof. destruct n; [lia|]. by destruct l. Qed.

(** A scan over a line that ends within the buffer. *)
Lemma Scan_line body tail tok :
  bufio.IndexByte body LF = None ->
  length body < bufio.MaxScanTokenSize ->
  bufio.Scan (bufio.mkScanner (body ++ LF :: tail) tok None) =
  (true, bufio.mkScanner tail (bufio.dropCR body) None).
Proof.
  intros Hno Hlen. unfold bufio.Scan. cbn [bufio.sc_err bufio.sc_input is_some].
  replace (is_nil (body ++ LF :: tail)) with false by (by destruct body).
  unfold bufio.ScanLines.
  rewrite is_nil_take by apply MaxScanTokenSize_pos.
  replace (is_nil (body ++ LF :: tail)) with false by (by destruct body).
  rewrite andb_false_r.
  rewrite (IndexByte_take _ _ (length body)); [|by apply IndexByte_app_found|done].
  rewrite take_take, Nat.min_l by lia.
  rewrite take_app_length.
  replace (length body + 1) with (length body + 1)%nat by done.
  rewrite drop_app_add. done.
Qed.

(** A scan over the rest of the input when it has no terminator. *)
Lemma Scan_last body tok :
  body <> [] ->
  bufio.IndexByte body LF = None ->
  length body < bufio.MaxScanTokenSize ->
  bufio.Scan (bufio.mkScanner body tok None) =
  (true, bufio.mkScanner [] (bufio.dropCR body) None).
Proof.
  intros Hne Hno Hlen. unfold bufio.Scan. cbn [bufio.sc_err bufio.sc_input is_some].
  replace (is_nil body) with false by (by destruct body).
  unfold bufio.ScanLines.
  rewrite is_nil_take by apply MaxScanTokenSize_pos.
  replace (is_nil body) with false by (by destruct body).
  rewrite andb_false_r.
  rewrite firstn_all2 by lia. rewrite Hno.
  replace (length body <? bufio.MaxScanTokenSize)%nat with true
    by (symmetry; by apply Nat.ltb_lt).
  by rewrite drop_all.
Qed.

Lemma Scan_end tok : bufio.Scan (bufio.mkScanner [] tok None) = (false, bufio.mkScanner [] [] None).
Proof. reflexivity. Qed.

(** A scan when the buffer fills up before any terminator. *)
Lemma Scan_too_long data tok :
  bufio.IndexByte (take bufio.MaxScanTokenSize data) LF = None ->
  bufio.MaxScanTokenSize <= length data ->
  bufio.Scan (bufio.mkScanner data tok None) =
  (false, bufio.mkScanner data [] (Some ErrTooLong)).
Proof.
  intros Hno Hlen. unfold bufio.Scan. cbn [bufio.sc_err bufio.sc_input is_some].
  pose proof MaxScanTokenSize_pos.
  replace (is_nil data) with false by (destruct data; [cbn in Hlen; lia|done]).
  unfold bufio.ScanLines.
  replace (length data <? bufio.MaxScanTokenSize)%nat with false
    by (symmetry; apply Nat.ltb_ge; lia).
  cbn [andb]. by rewrite Hno.
Qed.

Lemma has_LF_false s : has_LF s = false -> bufio.IndexByte (bytes_of_string s) LF = None.
Proof. unfold has_LF. by destruct (bufio.IndexByte _ _). Qed.

Lemma Scan_written_line sep line tail tok :
  is_EOL sep -> line_fits sep line ->
  bufio.Scan (bufio.mkScanner (bytes_of_string (line +:+ sep) ++ tail) tok None) =
  (true, bufio.mkScanner tail (bytes_of_string line) None).
Proof.
  intros Hsep (Hlf & Hlen & Hcr). apply has_LF_false in Hlf.
  rewrite bytes_of_string_app, <- app_assoc.
  destruct Hsep as [-> | ->].
  - change (bytes_of_string EOL_unix ++ tail) with (LF :: tail).
    rewrite Scan_line; [|done|].
    + by rewrite dropCR_keep by auto.
    + rewrite length_bytes_of_string. cbn in Hlen. lia.
  - change (bytes_of_string EOL_windows ++ tail) with ([CR] ++ LF :: tail).
    rewrite app_assoc, Scan_line.
    + by rewrite dropCR_snoc.
    + by apply IndexByte_app_None.
    + rewrite length_app, length_bytes_of_string. cbn in *. lia.
Qed.

Lemma scan_loop_written sep lines :
  is_EOL sep -> Forall (line_fits sep) lines ->
  forall fuel tail tok acc, exists tok',
    xfs.scan_loop (length lines + fuel)
      (bufio.mkScanner (bytes_of_string (lines_with_sep lines sep) ++ tail) tok None) acc =
    xfs.scan_loop fuel (bufio.mkScanner tail tok' None) (acc ++ lines).
Proof.
  intros Hsep Hall. induction Hall as [|line lines Hline _ IH]; intros fuel tail tok acc.
  - exists tok. cbn. by rewrite app_nil_r.
  - cbn [length lines_with_sep Nat.add xfs.scan_loop].
    rewrite <- append_assoc, bytes_of_string_app, <- app_assoc.
    rewrite Scan_written_line by done.
    destruct (IH fuel tail (bytes_of_string line) (acc ++ [bufio.Text (bufio.mkScanner (bytes_of_string (lines_with_sep lines sep) ++ tail) (bytes_of_string line) None)])) as [tok' ->].
    exists tok'. unfold bufio.Text. cbn [bufio.sc_token].
    by rewrite string_of_bytes_of_string, <- app_assoc.
Qed.

Lemma length_lines_with_sep sep lines :
  is_EOL sep -> length lines <= String.length (lines_with_sep lines sep).
Proof.
  intros Hsep. induction lines as [|l lines IH]; cbn; [lia|].
  rewrite <- !length_bytes_of_string, !bytes_of_string_app, !length_app, !length_bytes_of_string in *.
  destruct Hsep as [-> | ->]; cbn; lia.
Qed.

(** The loop of [ReadFileLines] over what [WriteFileLinesSep] writes. *)
Lemma scan_loop_roundtrip sep lines data :
  is_EOL sep -> Forall (line_fits sep) lines ->
  data = bytes_of_string (lines_with_sep lines sep) ->
  xfs.scan_loop (S (length data)) (bufio.NewScanner (string_of_bytes data)) [] =
  (lines, bufio.mkScanner [] [] None).
Proof.
  intros Hsep Hall ->. unfold bufio.NewScanner.
  rewrite bytes_of_string_of_bytes, length_bytes_of_string.
  pose proof (length_lines_with_sep sep lines Hsep) as Hlen.
  replace (S (String.length (lines_with_sep lines sep)))
    with (length lines + S (String.length (lines_with_sep lines sep) - length lines)) by lia.
  rewrite <- (app_nil_r (bytes_of_string _)).
  destruct (scan_loop_written sep lines Hsep Hall
              (S (String.length (lines_with_sep lines sep) - length lines)) [] [] []) as [tok' ->].
  reflexivity.
Qed.

(** The loop over an input whose line after [lines] does not fit. *)
Lemma scan_loop_too_long sep lines big rest data :
  is_EOL sep -> Forall (line_fits sep) lines ->
  bufio.IndexByte big LF = None ->
  bufio.MaxScanTokenSize <= length big ->
  data = bytes_of_string (lines_with_sep lines sep) ++ big ++ rest ->
  xfs.scan_loop (S (length data)) (bufio.NewScanner (string_of_bytes data)) [] =
  (lines, bufio.mkScanner (big ++ rest) [] (Some ErrTooLong)).
Proof.
  intros Hsep Hall Hno Hbig ->. unfold bufio.NewScanner.
  rewrite bytes_of_string_of_bytes, length_app, length_bytes_of_string.
  pose proof (length_lines_with_sep sep lines Hsep) as Hlen.
  replace (S (String.length (lines_with_sep lines sep) + length (big ++ rest)))
    with (length lines + S (String.length (lines_with_sep lines sep) + length (big ++ rest) - length lines)) by lia.
  destruct (scan_loop_written sep lines Hsep Hall
              (S (String.length (lines_with_sep lines sep) + length (big ++ rest) - length lines))
              (big ++ rest) [] []) as [tok' ->].
  cbn [xfs.scan_loop]. rewrite Scan_too_long; [done| |].
  - rewrite take_app_le by lia. by apply IndexByte_take_None.
  - rewrite length_app. lia.
Qed.

Lemma ReadFileLines_unfold filename w :
  xfs.ReadFileLines filename w =
  (match os.readFile filename (sys w) with
   | (data, Some e) => ([], Some e)
   | (data, None) =>
       let '(lines, scanner) :=
         xfs.scan_loop (S (length data)) (bufio.NewScanner (string_of_bytes data)) [] in
       (lines, bufio.Err scanner)
   end,
   mkWorld (sys w) (calls w ++ [call_ReadFile filename])).
Proof.
  unfold xfs.ReadFileLines, os.ReadFile, call, bind, ret.
  destruct (os.readFile filename (sys w)) as [data [e|]]; cbn [is_some]; [done|].
  by destruct (xfs.scan_loop _ _ _).
Qed.

Lemma visits_trans fn w w1 r w2 :
  visits fn w None w1 -> visits fn w1 r w2 -> visits fn w r w2.
Proof.
  intros H. remember None as r0 eqn:Hr0. revert Hr0.
  induction H as [w|w path info err w1' r' w2' Hskip Hfn H IH|]; intros Hr0 H2.
  - exact H2.
  - eapply visits_next; eauto.
  - discriminate Hr0.
Qed.

Lemma visits_not_skip fn w r w' :
  never_skips fn -> visits fn w r w' -> filepath.is_skip r = false.
Proof.
  intros Hfn H. induction H as [w|w path info err w1 r w2 Hskip Hcall H IH|w path info err e w1 Hskip Hcall].
  - done.
  - exact IH.
  - specialize (Hfn path info err w Hskip). by rewrite Hcall in Hfn.
Qed.

Lemma is_SkipDir_skip err : filepath.is_SkipDir err = true -> filepath.is_skip err = true.
Proof. by destruct err as [[]|]. Qed.

Lemma readDirNames_not_skip s path :
  filepath.is_skip (snd (filepath.readDirNames s path)) = false.
Proof.
  unfold filepath.readDirNames. destruct (sys_open s path); [done|].
  by destruct (sys_readdirnames s f).
Qed.

Lemma lstat_not_skip s name : filepath.is_skip (snd (os.lstat name s)) = false.
Proof. unfold os.lstat. by destruct (sys_stat false s name). Qed.

Lemma walk_visits fn fuel :
  never_skips fn ->
  forall path info w, walked fn w (filepath.walk fuel path info fn w).
Proof.
  intros Hfn. induction fuel as [|fuel IH]; intros path info w.
  - right. reflexivity.
  - cbn [filepath.walk].
    destruct (negb (FileInfo_IsDir info)).
    { left. destruct (fn path info None w) as [[e|] w1] eqn:Hcall; cbn [fst snd].
      - exact (visits_last fn w path info None e w1 eq_refl Hcall).
      - exact (visits_next fn w path info None w1 None w1 eq_refl Hcall (visits_none fn w1)). }
    unfold bind at 1, get_sys.
    pose proof (readDirNames_not_skip (sys w) path) as Hrd.
    destruct (filepath.readDirNames (sys w) path) as [names err]. cbn [snd] in Hrd.
    unfold bind at 1.
    destruct (fn path info err w) as [err1 w1] eqn:Hcall.
    assert (visits fn w err1 w1) as Hfirst.
    { destruct err1 as [e|].
      - exact (visits_last fn _ _ _ _ _ _ Hrd Hcall).
      - exact (visits_next fn _ _ _ _ _ _ _ Hrd Hcall (visits_none fn _)). }
    destruct (is_some err || is_some err1) eqn:Hstop.
    { left. exact Hfirst. }
    apply orb_false_elim in Hstop as [_ Herr1]. destruct err1; [discriminate Herr1|].
    clear Hcall Hrd. revert w1 Hfirst.
    induction names as [|name rest IHnames]; intros w1 Hfirst.
    { left. exact Hfirst. }
    unfold bind at 1, get_sys.
    pose proof (lstat_not_skip (sys w1) (filepath.Join path name)) as Hl.
    destruct (os.lstat (filepath.Join path name) (sys w1)) as [fileInfo lerr]. cbn [snd] in Hl.
    destruct (is_some lerr) eqn:Hlerr.
    + unfold bind at 1.
      destruct (fn (filepath.Join path name) fileInfo lerr w1) as [err2 w2] eqn:Hcall.
      pose proof (Hfn (filepath.Join path name) fileInfo lerr w1 Hl) as Hns.
      rewrite Hcall in Hns. cbn [fst] in Hns.
      destruct err2 as [e|].
      * replace (filepath.is_SkipDir (Some e)) with false
          by (destruct e; try done; discriminate Hns).
        cbn [is_some negb andb]. left. cbn [fst snd ret].
        eapply visits_trans; [exact Hfirst|]. exact (visits_last fn _ _ _ _ _ _ Hl Hcall).
      * cbn [is_some andb]. apply IHnames.
        eapply visits_trans; [exact Hfirst|].
        exact (visits_next fn _ _ _ _ _ _ _ Hl Hcall (visits_none fn _)).
    + unfold bind at 1.
      pose proof (IH (filepath.Join path name) fileInfo w1) as Hsub.
      destruct (filepath.walk fuel (filepath.Join path name) fileInfo fn w1) as [err2 w2].
      destruct Hsub as [Hsub|Hsub]; cbn [fst snd] in Hsub.
      * pose proof (visits_not_skip _ _ _ _ Hfn Hsub) as Hns.
        destruct err2 as [e|].
        -- replace (filepath.is_SkipDir (Some e)) with false
             by (destruct e; try done; discriminate Hns).
           rewrite orb_true_r. cbn [is_some andb]. left. cbn [fst snd ret].
           eapply visits_trans; [exact Hfirst|exact Hsub].
        -- cbn [is_some andb]. apply IHnames.
           eapply visits_trans; [exact Hfirst|exact Hsub].
      * subst err2. cbn [is_some filepath.depth_exceeded filepath.is_SkipDir negb].
        rewrite orb_true_r. cbn [andb]. right. reflexivity.
Qed.

Lemma Walk_visits fn root w :
  never_skips fn ->
  walked fn (mkWorld (sys w) (calls w ++ [call_Walk root])) (filepath.Walk root fn w).
Proof.
  intros Hfn. unfold filepath.Walk, bind at 1, trace. unfold bind at 1, get_sys. cbn [sys].
  set (w0 := mkWorld (sys w) (calls w ++ [call_Walk root])).
  pose proof (lstat_not_skip (sys w) root) as Hl.
  destruct (os.lstat root (sys w)) as [info lerr]. cbn [snd] in Hl.
  unfold bind.
  destruct (is_some lerr).
  - pose proof (Hfn root None lerr w0 Hl) as Hns.
    destruct (fn root None lerr w0) as [err w1] eqn:Hcall. cbn [fst] in Hns.
    replace (filepath.is_SkipDir err || filepath.is_SkipAll err) with false
      by (by destruct err as [[]|]).
    left. cbn [fst snd ret]. destruct err as [e|].
    + exact (visits_last fn _ _ _ _ _ _ Hl Hcall).
    + exact (visits_next fn _ _ _ _ _ _ _ Hl Hcall (visits_none fn _)).
  - pose proof (walk_visits fn (S (size (inodes (sys w)))) Hfn root info w0) as Hsub.
    destruct (filepath.walk _ root info fn w0) as [err w1].
    destruct Hsub as [Hsub|Hsub]; cbn [fst snd] in Hsub.
    + pose proof (visits_not_skip _ _ _ _ Hfn Hsub) as Hns.
      replace (filepath.is_SkipDir err || filepath.is_SkipAll err) with false
        by (by destruct err as [[]|]).
      left. exact Hsub.
    + subst err. right. reflexivity.
Qed.

Lemma Resolve_unfold relative base w :
  xfs.Resolve relative base w =
  if filepath.IsAbs relative then (Returned (relative, None), w)
  else
    let '(base, w1) := resolve_base base w in
    match xfs.prefixed relative tilde with
    | None => (Panicked xfs.index_out_of_range, w1)
    | Some true =>
        match os.userHomeDir (sys w1) with
        | (_, Some e) => (Returned ("", Some e), mkWorld (sys w1) (calls w1 ++ [call_UserHomeDir]))
        | (home, None) =>
            let path := filepath.Join home (drop_string 2 relative) in
            (Returned (filepath.abs path (sys w1)),
             mkWorld (sys w1) (calls w1 ++ [call_UserHomeDir; call_Abs path]))
        end
    | Some false =>
        match xfs.prefixed relative dot with
        | None => (Panicked xfs.index_out_of_range, w1)
        | Some true =>
            let path := filepath.Join base (drop_string 2 relative) in
            (Returned (filepath.abs path (sys w1)),
             mkWorld (sys w1) (calls w1 ++ [call_Abs path]))
        | Some false =>
            let path := filepath.Join base relative in
            (Returned (filepath.abs path (sys w1)),
             mkWorld (sys w1) (calls w1 ++ [call_Abs path]))
        end
    end.
Proof.
  unfold xfs.Resolve, resolve_base. destruct (filepath.IsAbs relative); [done|].
  unfold bind at 1.
  assert (forall A (k : string -> M A),
    (let (a, w') :=
       (if String.eqb base "" then (let* (dir, _) := xfs.Cwd in ret dir) else ret base) w
     in k a w') =
    (let '(b, w1) :=
       (if String.eqb base "" then
          (fst (os.getwd (sys w)), mkWorld (sys w) (calls w ++ [call_Getwd]))
        else (base, w))
     in k b w1)) as Hbase.
  { intros A k. destruct (String.eqb base ""); [|done].
    unfold xfs.Cwd, os.Getwd, call, bind, ret. by destruct (os.getwd (sys w)). }
  rewrite Hbase. clear Hbase.
  destruct (if String.eqb base "" then _ else _) as [b w1].
  destruct (xfs.prefixed relative tilde) as [[|]|]; [| |done].
  - unfold os.UserHomeDir, filepath.Abs, call, bind, ret.
    destruct (os.userHomeDir (sys w1)) as [home [e|]]; cbn [is_some sys calls]; [done|].
    by rewrite <- app_assoc.
  - destruct (xfs.prefixed relative dot) as [[|]|]; [| |done];
      unfold filepath.Abs, call, bind, ret; done.
Qed.

(** ** No visitor of [CopyDir] asks to skip *)

Lemma mkdirAll_not_skip fuel path perm s :
  filepath.is_skip (fst (os.mkdirAll fuel path perm s)) = false.
Proof.
  revert path s. induction fuel as [|fuel IH]; intros path s; rewrite mkdirAll_eq.
  - destruct (sys_stat true s path) as [e0|dir]; [|by destruct (FileInfo_IsDir _)].
    cbv zeta iota beta.
    destruct (sys_mkdir s path perm); [|done].
    destruct (sys_stat false s path); [done|]. by destruct (FileInfo_IsDir _).
  - destruct (sys_stat true s path) as [e0|dir]; [|by destruct (FileInfo_IsDir _)].
    cbv zeta.
    match goal with
    | |- context [match ?x with _ => _ end] =>
        match x with
        | (if _ then _ else _) =>
            assert (filepath.is_skip (fst x) = false) as Hp
              by (destruct (negb (String.eqb (os.parent_of path) "")); [apply IH|done]);
            destruct x as [[e|] s1]
        end
    end; [exact Hp|].
    destruct (sys_mkdir s1 path perm); [|done].
    destruct (sys_stat false s1 path); [done|]. by destruct (FileInfo_IsDir _).
Qed.

Lemma copyFile_not_skip src dst info overwrite w :
  filepath.is_skip (result (xfs.copyFile src dst info overwrite) w) = false.
Proof.
  change (result (xfs.copyFile src dst info overwrite) w)
    with (fst (run (xfs.copyFile src dst info overwrite) w)).
  rewrite copyFile_run.
  destruct (exists_on (sys w) dst && negb overwrite); [done|].
  unfold os.open. destruct (sys_open (sys w) src) as [e|fs]; [done|].
  unfold os.create. destruct (sys_creat true (sys w) dst 438%N) as [e|[fd s1]]; [done|].
  unfold io.copy. destruct (sys_read_all s1 fs) as [e|data]; [done|].
  destruct (sys_write s1 fd data) as [e|s2]; [done|].
  unfold os.chmod. by destruct (sys_chmod s2 dst (FileInfo_Mode info)).
Qed.

Lemma EnsureDir_not_skip dir perm w :
  filepath.is_skip (result (xfs.EnsureDir dir perm) w) = false.
Proof.
  change (result (xfs.EnsureDir dir perm) w) with (fst (run (xfs.EnsureDir dir perm) w)).
  rewrite EnsureDir_run. destruct (exists_on (sys w) dir); [done|].
  apply mkdirAll_not_skip.
Qed.

Lemma Rel_not_skip basepath targpath :
  filepath.is_skip (snd (filepath.Rel basepath targpath)) = false.
Proof.
  unfold filepath.Rel. destruct (String.eqb _ _); [done|].
  destruct (negb _); [done|].
  destruct (filepath.strip_common _ _) as [b t]. destruct b as [|x b]; [done|].
  by destruct (String.eqb x "..").
Qed.

Lemma CopyDir_func1_never_skips src dst overwrite :
  never_skips (xfs.CopyDir_func1 src dst overwrite).
Proof.
  intros path info err w Herr. unfold xfs.CopyDir_func1.
  destruct (is_some err); [exact Herr|].
  pose proof (Rel_not_skip src path) as Hrel.
  destruct (filepath.Rel src path) as [relPath rerr]. cbn [snd] in Hrel.
  destruct (is_some rerr); [exact Hrel|].
  destruct (FileInfo_IsDir info).
  - apply EnsureDir_not_skip.
  - apply copyFile_not_skip.
Qed.

(** The visitor hands back an error it is given, and does nothing else. *)
Lemma CopyDir_func1_error src dst overwrite path info e w :
  xfs.CopyDir_func1 src dst overwrite path info (Some e) w = (Some e, w).
Proof. reflexivity. Qed.

Lemma CopyDir_walked src dst overwrite w :
  walked (xfs.CopyDir_func1 src dst overwrite)
    (mkWorld (sys w) (calls w ++ [call_Walk src]))
    (xfs.CopyDir src dst overwrite w).
Proof. apply Walk_visits, CopyDir_func1_never_skips. Qed.

(** ** [CopyFile], [Copy] and the readers on the host state *)

Lemma CopyFile_unfold src dst overwrite w :
  xfs.CopyFile src dst overwrite w =
  match os.stat src (sys w) with
  | (_, Some e) => (Some e, mkWorld (sys w) (calls w ++ [call_Stat src]))
  | (info, None) =>
      xfs.copyFile src dst info overwrite (mkWorld (sys w) (calls w ++ [call_Stat src]))
  end.
Proof.
  unfold xfs.CopyFile, os.Stat, call, bind, ret.
  by destruct (os.stat src (sys w)) as [info [e|]].
Qed.

Lemma Copy_unfold src dst overwrite w :
  xfs.Copy src dst overwrite w =
  match os.stat src (sys w) with
  | (_, Some e) => (Some e, mkWorld (sys w) (calls w ++ [call_Stat src]))
  | (info, None) =>
      (if FileInfo_IsDir info then xfs.CopyDir src dst overwrite
       else xfs.CopyFile src dst overwrite)
        (mkWorld (sys w) (calls w ++ [call_Stat src]))
  end.
Proof.
  unfold xfs.Copy, os.Stat, call, bind, ret.
  destruct (os.stat src (sys w)) as [info [e|]]; cbn [is_some]; [done|].
  by destruct (FileInfo_IsDir info).
Qed.

Lemma ReadTextFile_unfold filename w :
  xfs.ReadTextFile filename w =
  (match os.readFile filename (sys w) with
   | (_, Some e) => ("", Some e)
   | (data, None) => (string_of_bytes data, None)
   end,
   mkWorld (sys w) (calls w ++ [call_ReadFile filename])).
Proof.
  unfold xfs.ReadTextFile, os.ReadFile, call, bind, ret.
  by destruct (os.readFile filename (sys w)) as [data [e|]].
Qed.

Lemma copyFile_unfold src dst info overwrite w :
  xfs.copyFile src dst info overwrite w =
  let c0 := calls w ++ [call_Stat dst] in
  if exists_on (sys w) dst && negb overwrite then (None, mkWorld (sys w) c0)
  else match os.open src (sys w) with
       | (_, Some e) => (Some e, mkWorld (sys w) (c0 ++ [call_Open src]))
       | (srcFile, None) =>
           match os.create dst (sys w) with
           | ((_, Some e), s1) =>
               (Some e, mkWorld s1 (c0 ++ [call_Open src; call_Create dst; call_Close srcFile]))
           | ((dstFile, None), s1) =>
               match io.copy dstFile srcFile s1 with
               | ((_, Some e), s2) =>
                   (Some e,
                    mkWorld s2 (c0 ++ [call_Open src; call_Create dst; call_Copy dstFile srcFile;
                                       call_Close dstFile; call_Close srcFile]))
               | ((_, None), s2) =>
                   let '(err, s3) := os.chmod dst (FileInfo_Mode info) s2 in
                   (err,
                    mkWorld s3 (c0 ++ [call_Open src; call_Create dst; call_Copy dstFile srcFile;
                                       call_Chmod dst (FileInfo_Mode info);
                                       call_Close dstFile; call_Close srcFile]))
               end
           end
       end.
Proof.
  unfold xfs.copyFile, bind at 1. rewrite Exists_run. cbv zeta.
  destruct (exists_on (sys w) dst && negb overwrite); [done|].
  unfold os.Open, os.Create, io.Copy, os.Chmod, os.Close, call, bind, ret. cbn [sys calls].
  destruct (os.open src (sys w)) as [srcFile [e|]]; cbn [is_some sys calls fst snd]; [done|].
  destruct (os.create dst (sys w)) as [[dstFile [e|]] s1]; cbn [is_some sys calls fst snd].
  { by rewrite <- !app_assoc. }
  destruct (io.copy dstFile srcFile s1) as [[n [e|]] s2]; cbn [is_some sys calls fst snd].
  { by rewrite <- !app_assoc. }
  destruct (os.chmod dst (FileInfo_Mode info) s2) as [err s3]. cbn [sys calls].
  by rewrite <- !app_assoc.
Qed.

Lemma EnsureFile_unfold filename perm w :
  xfs.EnsureFile filename perm w =
  let c0 := calls w ++ [call_Stat filename] in
  if exists_on (sys w) filename then (None, mkWorld (sys w) c0)
  else match os.create filename (sys w) with
       | ((_, Some e), s1) => (Some e, mkWorld s1 (c0 ++ [call_Create filename]))
       | ((file, None), s1) =>
           let '(err, s2) := os.chmod filename perm s1 in
           (err, mkWorld s2 (c0 ++ [call_Create filename; call_Close file;
                                    call_Chmod filename perm]))
       end.
Proof.
  unfold xfs.EnsureFile, bind at 1. rewrite Exists_run. cbv zeta.
  destruct (exists_on (sys w) filename); [done|].
  unfold os.Create, os.Chmod, os.Close, call, bind, ret. cbn [sys calls].
  destruct (os.create filename (sys w)) as [[file [e|]] s1]; cbn [is_some sys calls fst snd]; [done|].
  destruct (os.chmod filename perm s1) as [err s2]. by rewrite <- !app_assoc.
Qed.

Lemma EnsureDir_unfold dir perm w :
  xfs.EnsureDir dir perm w =
  if exists_on (sys w) dir then (None, mkWorld (sys w) (calls w ++ [call_Stat dir]))
  else os.MkdirAll dir perm (mkWorld (sys w) (calls w ++ [call_Stat dir])).
Proof.
  unfold xfs.EnsureDir, bind at 1. rewrite Exists_run.
  by destruct (exists_on (sys w) dir).
Qed.

(** ** Paths *)

(** An element of a relative path: not empty, and no separator in front. *)
Lemma fields_elements s :
  Forall (fun f => f = "" \/ exists c r, f = String c r /\ Ascii.eqb c slash = false) (fields s).
Proof.
  induction s as [|c s IH]; cbn [fields].
  - constructor; [by left|constructor].
  - destruct (Ascii.eqb c slash) eqn:Hc.
    + constructor; [by left|exact IH].
    + destruct (fields s) as [|f fs].
      * constructor; [right; eauto|constructor].
      * inversion IH as [|? ? _ Hfs]; subst. constructor; [right; eauto|exact Hfs].
Qed.

Lemma components_elements path :
  Forall (fun f => exists c r, f = String c r /\ Ascii.eqb c slash = false) (components path).
Proof.
  unfold components. pose proof (fields_elements path) as H.
  induction H as [|f fs Hf _ IH]; cbn [List.filter]; [constructor|].
  destruct f as [|c r]; cbn [String.eqb negb]; [exact IH|].
  constructor; [|exact IH]. destruct Hf as [Hf|Hf]; [discriminate Hf|exact Hf].
Qed.

Lemma clean_elems_Forall (P : string -> Prop) rooted elems :
  Forall P elems -> forall out, Forall P out -> Forall P (filepath.clean_elems rooted out elems).
Proof.
  induction 1 as [|c rest Hc _ IH]; intros out Hout; cbn [filepath.clean_elems].
  - by apply Forall_rev.
  - destruct (String.eqb c "."); [by apply IH|].
    destruct (String.eqb c "..").
    + destruct out as [|top out'].
      * destruct rooted; apply IH; [constructor|by constructor].
      * destruct (String.eqb top "..").
        -- apply IH. by constructor.
        -- apply IH. by inversion Hout.
    + apply IH. by constructor.
Qed.

Lemma IsAbs_join_elements elems :
  Forall (fun f => exists c r, f = String c r /\ Ascii.eqb c slash = false) elems ->
  filepath.IsAbs (join_strings "/" elems) = false.
Proof.
  intros H. destruct H as [|f fs (c & r & -> & Hc) _]; [reflexivity|].
  cbn [join_strings]. destruct fs; cbn; exact Hc.
Qed.

Lemma IsAbs_Clean path : filepath.IsAbs (filepath.Clean path) = filepath.IsAbs path.
Proof.
  unfold filepath.Clean. destruct (filepath.IsAbs path) eqn:Habs; [reflexivity|].
  destruct (String.eqb _ "") eqn:Hb; [reflexivity|].
  apply IsAbs_join_elements, clean_elems_Forall; [apply components_elements|constructor].
Qed.

Lemma Join_empty_base path :
  path <> "" -> filepath.Join "" path = filepath.Clean path.
Proof. intros H. unfold filepath.Join. cbn [String.eqb negb]. by destruct path. Qed.

Lemma IsAbs_Join_abs home path :
  filepath.IsAbs home = true -> filepath.IsAbs (filepath.Join home path) = true.
Proof.
  intros H. unfold filepath.Join. destruct home as [|c home]; [discriminate H|].
  cbn [String.eqb negb]. rewrite IsAbs_Clean. exact H.
Qed.

(** * The claims *)

(** ** Existence *)

(** C1. For every path [p], [Exists(p)] is true if and only if the
    metadata query on [p] succeeds or fails with an error that is not of
    the not-found kind; a permission-denied error makes it true, and only
    a not-found error makes it false.  The host is left as it was. *)
Theorem Exists_iff_stat_not_notfound (w : World) (p : string) :
  (result (xfs.Exists p) w = true <->
     snd (result (os.Stat p) w) = None \/
     exists e, snd (result (os.Stat p) w) = Some e /\ os.IsNotExist (Some e) = false)
  /\ (forall op path, snd (result (os.Stat p) w) = Some (PathError op path EACCES) ->
        result (xfs.Exists p) w = true)
  /\ (result (xfs.Exists p) w = false <->
        exists e, snd (result (os.Stat p) w) = Some e /\ os.IsNotExist (Some e) = true)
  /\ sys (after (xfs.Exists p) w) = sys w.
Proof.
  unfold result, after. rewrite Exists_run. unfold exists_on, os.Stat, call.
  cbn [fst snd sys].
  destruct (snd (os.stat p (sys w))) as [e|].
  - cbn [is_some negb orb]. split; [split|split; [|split; [split|reflexivity]]].
    + intros H. right. exists e. split; [reflexivity|]. by apply negb_true_iff.
    + intros [H|(e' & [= <-] & H)]; [discriminate H|]. by rewrite H.
    + intros op path [= ->]. reflexivity.
    + intros H. exists e. split; [reflexivity|]. by apply negb_false_iff.
    + intros (e' & [= <-] & H). by rewrite H.
  - cbn [is_some negb orb]. split; [split|split; [|split; [split|reflexivity]]].
    + intros _. by left.
    + reflexivity.
    + intros op path [=].
    + intros [=].
    + intros (e' & [=] & _).
Qed.

Lemma Exists_iff_stat_not_notfound_witness :
  result (xfs.Exists "locked/secret") demo = true /\
  result (xfs.Exists "nothing") demo = false /\
  result (xfs.Exists "testfile") demo = true.
Proof.
  split; [|split].
  - apply (proj1 (proj2 (Exists_iff_stat_not_notfound demo "locked/secret"))
             "stat" "locked/secret").
    vm_compute. reflexivity.
  - apply (proj1 (proj2 (proj2 (Exists_iff_stat_not_notfound demo "nothing")))).
    exists (PathError "stat" "nothing" ENOENT). split; vm_compute; reflexivity.
  - apply (proj1 (Exists_iff_stat_not_notfound demo "testfile")).
    left. vm_compute. reflexivity.
Defined.

(** ** Writing lines *)

Lemma WriteFileLinesSep_unfold filename lines sep perm :
  xfs.WriteFileLinesSep filename lines sep perm =
  os.WriteFile filename (bytes_of_string (lines_with_sep lines sep)) perm.
Proof.
  unfold xfs.WriteFileLinesSep, xfs.WriteTextFile. by rewrite builder_fold.
Qed.

(** C6. For every list of lines and every separator,
    [WriteFileLinesSep(filename, lines, sep, perm)] writes exactly
    [L1 + sep + L2 + sep + ... + Ln + sep], the separator after every line
    including the last (nothing for the empty list), as a single
    whole-file write: it is one call of [os.WriteFile] with that text, and
    when it succeeds the file holds that text. *)
Theorem WriteFileLinesSep_single_write filename lines sep perm w :
  xfs.WriteFileLinesSep filename lines sep perm w =
    os.WriteFile filename (bytes_of_string (lines_with_sep lines sep)) perm w
  /\ calls (after (xfs.WriteFileLinesSep filename lines sep perm) w) =
       calls w ++ [call_WriteFile filename (bytes_of_string (lines_with_sep lines sep)) perm]
  /\ (result (xfs.WriteFileLinesSep filename lines sep perm) w = None ->
      content (sys (after (xfs.WriteFileLinesSep filename lines sep perm) w)) filename =
        Some (bytes_of_string (lines_with_sep lines sep)))
  /\ lines_with_sep [] sep = "".
Proof.
  rewrite WriteFileLinesSep_unfold. split; [reflexivity|].
  unfold result, after, os.WriteFile, call.
  destruct (os.writeFile filename _ perm (sys w)) as [err s'] eqn:Hw. cbn [fst snd sys calls].
  split; [reflexivity|]. split; [|reflexivity].
  intros ->. by eapply writeFile_content.
Qed.

Lemma WriteFileLinesSep_single_write_witness :
  content (sys (after (xfs.WriteFileLinesSep "f" ["line1"; "line2"] EOL_unix 420) demo)) "f" =
    Some (bytes_of_string (lines_with_sep ["line1"; "line2"] EOL_unix)).
Proof.
  apply (proj1 (proj2 (proj2
    (WriteFileLinesSep_single_write "f" ["line1"; "line2"] EOL_unix 420 demo)))).
  vm_compute. reflexivity.
Defined.

(** ** Ensuring a directory *)

Lemma IsDir_run filename w :
  result (xfs.IsDir filename) w =
  match os.stat filename (sys w) with
  | (_, Some _) => false
  | (info, None) => FileInfo_IsDir info
  end.
Proof.
  unfold result, xfs.IsDir, os.Stat, call, bind, ret.
  by destruct (os.stat filename (sys w)) as [info [e|]].
Qed.

(** C7. If [Exists(path)] is true, be the entry a file or a directory,
    [EnsureDir(path, perm)] returns success having made the metadata query
    only; if it is false, [EnsureDir] is [os.MkdirAll(path, perm)], which
    adds nothing but directories, each with the given permission bits less
    the mask, and on success leaves [path] a directory. *)
Theorem EnsureDir_creates_only_when_absent dir perm w :
  (result (xfs.Exists dir) w = true ->
     result (xfs.EnsureDir dir perm) w = None /\
     sys (after (xfs.EnsureDir dir perm) w) = sys w /\
     calls (after (xfs.EnsureDir dir perm) w) = calls w ++ [call_Stat dir])
  /\ (result (xfs.Exists dir) w = false ->
     xfs.EnsureDir dir perm w = os.MkdirAll dir perm (after (xfs.Exists dir) w) /\
     calls (after (xfs.EnsureDir dir perm) w) =
       calls w ++ [call_Stat dir; call_MkdirAll dir perm] /\
     grows_dirs perm (sys w) (sys (after (xfs.EnsureDir dir perm) w)) /\
     (result (xfs.EnsureDir dir perm) w = None ->
        result (xfs.IsDir dir) (after (xfs.EnsureDir dir perm) w) = true)).
Proof.
  unfold result, after. rewrite Exists_run, EnsureDir_unfold. cbn [fst snd].
  split; intros ->; [done|].
  split; [reflexivity|].
  unfold os.MkdirAll, call. cbn [sys calls].
  destruct (os.mkdirAll (String.length dir) dir perm (sys w)) as [err s'] eqn:Hmk.
  cbn [fst snd sys calls]. split; [by rewrite <- app_assoc|].
  split; [by eapply mkdirAll_grows|].
  intros ->. apply mkdirAll_is_dir in Hmk as (st & Hst & Hdir).
  pose proof (IsDir_run dir (mkWorld s' ((calls w ++ [call_Stat dir]) ++ [call_MkdirAll dir perm]))) as H.
  unfold result in H. rewrite H. cbn [sys]. unfold os.stat. rewrite Hst. exact Hdir.
Qed.

Lemma EnsureDir_creates_only_when_absent_witness :
  (result (xfs.IsFile "testfile") demo = true /\
   result (xfs.EnsureDir "testfile" 493) demo = None /\
   sys (after (xfs.EnsureDir "testfile" 493) demo) = sys demo) /\
  result (xfs.IsDir "p/q/r") (after (xfs.EnsureDir "p/q/r" 493) demo) = true.
Proof.
  split; [split; [vm_compute; reflexivity|]|].
  - pose proof (proj1 (EnsureDir_creates_only_when_absent "testfile" 493 demo)) as H.
    destruct H as (H1 & H2 & _); [vm_compute; reflexivity|]. by split.
  - apply (proj2 (EnsureDir_creates_only_when_absent "p/q/r" 493 demo));
      vm_compute; reflexivity.
Defined.

(** C8. [EnsureDir] and [EnsureFile] are idempotent: after a successful
    first call, a second call with the same arguments returns success and
    leaves the whole host state as it was. *)
Theorem Ensure_idempotent w path perm :
  (result (xfs.EnsureDir path perm) w = None ->
   let w1 := after (xfs.EnsureDir path perm) w in
   result (xfs.EnsureDir path perm) w1 = None /\
   sys (after (xfs.EnsureDir path perm) w1) = sys w1) /\
  (result (xfs.EnsureFile path perm) w = None ->
   let w1 := after (xfs.EnsureFile path perm) w in
   result (xfs.EnsureFile path perm) w1 = None /\
   sys (after (xfs.EnsureFile path perm) w1) = sys w1).
Proof.
  split; intros Hok w1.
  - pose proof (EnsureDir_then_exists _ _ _ Hok) as Hex. fold w1 in Hex.
    pose proof (EnsureDir_run path perm w1) as Hrun. unfold run in Hrun.
    rewrite Hex in Hrun. by injection Hrun.
  - pose proof (EnsureFile_then_exists _ _ _ Hok) as Hex. fold w1 in Hex.
    pose proof (EnsureFile_run path perm w1) as Hrun. unfold run in Hrun.
    rewrite Hex in Hrun. by injection Hrun.
Qed.

Lemma Ensure_idempotent_witness :
  (result (xfs.EnsureDir "p/q" 493) (after (xfs.EnsureDir "p/q" 493) demo) = None /\
   sys (after (xfs.EnsureDir "p/q" 493) (after (xfs.EnsureDir "p/q" 493) demo)) =
     sys (after (xfs.EnsureDir "p/q" 493) demo)) /\
  (result (xfs.EnsureFile "new" 420) (after (xfs.EnsureFile "new" 420) demo) = None /\
   sys (after (xfs.EnsureFile "new" 420) (after (xfs.EnsureFile "new" 420) demo)) =
     sys (after (xfs.EnsureFile "new" 420) demo)).
Proof.
  split.
  - apply (proj1 (Ensure_idempotent demo "p/q" 493)). vm_compute. reflexivity.
  - apply (proj2 (Ensure_idempotent demo "new" 420)). vm_compute. reflexivity.
Defined.

(** ** Copying a file *)

(** C2, as stated, fails: with a destination that exists and [overwrite]
    false, [CopyFile] still queries the source first and returns that
    error when the source is missing. *)
Lemma CopyFile_missing_source_fails :
  result (xfs.Exists "testfile") demo = true /\
  result (xfs.CopyFile "nothing" "testfile" false) demo =
    Some (PathError "stat" "nothing" ENOENT).
Proof. split; vm_compute; reflexivity. Qed.

(** C2, amended.  If [dst] exists and [overwrite] is false, [CopyFile]
    leaves the host as it was and returns what the metadata query on
    [src] returns for an error: success when the query succeeds, and the
    error of the query when it fails.  If [overwrite] is true, after a
    successful call the content of [dst] equals the content of [src]; it
    is the content [src] had before the call whenever the two name
    different files. *)
Theorem CopyFile_overwrite_flag src dst w :
  (result (xfs.Exists dst) w = true ->
     sys (after (xfs.CopyFile src dst false) w) = sys w /\
     (snd (result (os.Stat src) w) = None ->
      result (xfs.CopyFile src dst false) w = None) /\
     (forall e, snd (result (os.Stat src) w) = Some e ->
      result (xfs.CopyFile src dst false) w = Some e))
  /\ (result (xfs.CopyFile src dst true) w = None ->
     let s' := sys (after (xfs.CopyFile src dst true) w) in
     exists data,
       content s' dst = Some data /\ content s' src = Some data /\
       (resolve true s' src <> resolve true s' dst -> content (sys w) src = Some data)).
Proof.
  unfold result, after. rewrite Exists_run, !CopyFile_unfold.
  unfold os.Stat, call. cbn [fst snd sys].
  destruct (os.stat src (sys w)) as [info [e|]]; cbn [fst snd sys].
  - split; [intros _|intros [=]].
    split; [reflexivity|]. split; [intros [=]|]. intros e' [= <-]. reflexivity.
  - set (w1 := mkWorld (sys w) (calls w ++ [call_Stat src])). split.
    + intros Hex. rewrite copyFile_unfold. cbv zeta. cbn [sys w1].
      rewrite Hex. cbn [negb andb fst snd sys].
      split; [reflexivity|]. split; [reflexivity|]. intros e' [=].
    + intros Hok.
      pose proof (copyFile_run src dst info true w1) as Hrun.
      unfold run, result, after in Hrun. rewrite Hok in Hrun.
      rewrite andb_false_r in Hrun. cbn [sys w1] in Hrun. symmetry in Hrun.
      apply copyFile_overwrite_content in Hrun as (i & j & data & Hi & Hj & Hd & Hs & Hpre).
      exists data. split; [exact Hd|]. split; [exact Hs|].
      intros Hne. apply Hpre. intros ->. apply Hne. by rewrite Hi, Hj.
Qed.

Lemma CopyFile_overwrite_flag_witness :
  (sys (after (xfs.CopyFile "testfile" "tree/a.txt" false) demo) = sys demo /\
   result (xfs.CopyFile "testfile" "tree/a.txt" false) demo = None) /\
  (sys (after (xfs.CopyFile "nothing" "tree/a.txt" false) demo) = sys demo /\
   result (xfs.CopyFile "nothing" "tree/a.txt" false) demo =
     Some (PathError "stat" "nothing" ENOENT)) /\
  (exists data,
     content (sys (after (xfs.CopyFile "testfile" "tree/a.txt" true) demo)) "tree/a.txt" = Some data /\
     content (sys (after (xfs.CopyFile "testfile" "tree/a.txt" true) demo)) "testfile" = Some data /\
     content (sys demo) "testfile" = Some data).
Proof.
  split; [|split].
  - destruct (proj1 (CopyFile_overwrite_flag "testfile" "tree/a.txt" demo)) as (H1 & H2 & _);
      [vm_compute; reflexivity|].
    split; [exact H1|]. apply H2. vm_compute. reflexivity.
  - destruct (proj1 (CopyFile_overwrite_flag "nothing" "tree/a.txt" demo)) as (H1 & _ & H3);
      [vm_compute; reflexivity|].
    split; [exact H1|]. apply H3. vm_compute. reflexivity.
  - destruct (proj2 (CopyFile_overwrite_flag "testfile" "tree/a.txt" demo)) as (data & H1 & H2 & H3);
      [vm_compute; reflexivity|].
    exists data. split; [exact H1|]. split; [exact H2|].
    apply H3. vm_compute. discriminate.
Defined.

(** ** Lines written and read back *)

(** Which file an [open] with [O_CREAT|O_TRUNC] leaves: an existing file
    keeps its permission bits, a new one has [perm] less the mask. *)
Lemma sys_creat_mode rdwr s path perm f s' :
  sys_creat rdwr s path perm = inr (f, s') ->
  match resolve true s path with
  | Found i =>
      fd_ino f = i /\
      exists p old, inodes s !! i = Some (IFile p old) /\ inodes s' !! i = Some (IFile p [])
  | Absent _ _ =>
      inodes s !! fd_ino f = None /\
      inodes s' !! fd_ino f = Some (IFile (N.ldiff (N.land perm ModePerm) (umask s)) [])
  | Failed _ => False
  end.
Proof.
  unfold sys_creat. destruct (resolve true s path) as [i|d name|e] eqn:Hres; [| |intros [=]].
  - destruct (inodes s !! i) as [[p dat| |]|] eqn:Hi; try (intros [=]; fail).
    destruct (may_write p && (negb rdwr || may_read p)); [|intros [=]].
    intros [= <- <-]. cbn [fd_ino]. split; [reflexivity|].
    exists p, dat. split; [reflexivity|]. cbn. by rewrite lookup_insert_eq.
  - destruct (link_new s d name _) as [e|[n s1]] eqn:Hl; [intros [=]|].
    intros [= <- <-]. cbn [fd_ino].
    by destruct (link_new_inodes _ _ _ _ _ _ Hl) as (Hn & Hn' & _).
Qed.

Lemma writeFile_mode name data perm s s' :
  os.writeFile name data perm s = (None, s') ->
  exists i p,
    resolve true s' name = Found i /\ inodes s' !! i = Some (IFile p data) /\
    match resolve true s name with
    | Found i0 => i0 = i /\ exists old, inodes s !! i = Some (IFile p old)
    | Absent _ _ => p = N.ldiff (N.land perm ModePerm) (umask s)
    | Failed _ => False
    end.
Proof.
  unfold os.writeFile.
  destruct (sys_creat false s name perm) as [e|[f s1]] eqn:Hc; [intros [=]|].
  destruct (sys_write s1 f data) as [e|s2] eqn:Hw; intros [= <-].
  pose proof (sys_creat_mode _ _ _ _ _ _ Hc) as Hmode.
  apply sys_creat_inv in Hc as (Hname & (p & Hf) & Hres & _).
  apply sys_write_inv in Hw as (p' & old & Hf' & ->).
  rewrite Hf in Hf'. injection Hf' as <- <-.
  exists (fd_ino f), p. split; [by erewrite resolve_file_update|].
  split; [cbn; rewrite lookup_insert_eq; by rewrite drop_nil, app_nil_r|].
  destruct (resolve true s name) as [i0|d0 c0|e0]; [| |exact Hmode].
  - destruct Hmode as (Hi & p0 & old & Hold & Hnew). split; [by symmetry|].
    subst i0. rewrite Hf in Hnew. injection Hnew as ->. by exists old.
  - destruct Hmode as [_ Hmode]. rewrite Hf in Hmode. by injection Hmode.
Qed.

(** The mode a path has for [Stat], permission bits only. *)
Lemma stat_file_mode s name i p data :
  resolve true s name = Found i -> inodes s !! i = Some (IFile p data) ->
  os.stat name s = (Some (mkStat (N.land p ModePerm)), None).
Proof.
  intros Hres Hi. unfold os.stat. by rewrite (sys_stat_Found _ _ _ _ _ Hres Hi).
Qed.

Lemma may_read_perm p : may_read (N.land p ModePerm) = may_read p.
Proof. unfold may_read. rewrite N.land_spec. apply andb_true_r. Qed.

Lemma land_ldiff_perm perm u :
  N.land (N.ldiff (N.land perm ModePerm) u) ModePerm = N.ldiff (N.land perm ModePerm) u.
Proof.
  apply N.bits_inj. intros n. rewrite !N.land_spec, !N.ldiff_spec, N.land_spec.
  by destruct (N.testbit perm n), (N.testbit ModePerm n), (N.testbit u n).
Qed.

(** C5, as stated, fails: a line that holds a line feed comes back as two
    lines, a line that ends in a carriage return loses it, and a file
    created without read permission cannot be read back. *)
Lemma lines_roundtrip_fails :
  (result (xfs.WriteFileLines EOL_unix "f" [String "a" (String LF "b"); "c"] 420) demo = None /\
   result (xfs.ReadFileLines "f")
     (after (xfs.WriteFileLines EOL_unix "f" [String "a" (String LF "b"); "c"] 420) demo) =
     (["a"; "b"; "c"], None)) /\
  (result (xfs.WriteFileLines EOL_unix "f" [String "a" (String CR ""); "c"] 420) demo = None /\
   result (xfs.ReadFileLines "f")
     (after (xfs.WriteFileLines EOL_unix "f" [String "a" (String CR ""); "c"] 420) demo) =
     (["a"; "c"], None)) /\
  (result (xfs.WriteFileLines EOL_unix "f" ["a"; "c"] 128) demo = None /\
   result (xfs.ReadFileLines "f")
     (after (xfs.WriteFileLines EOL_unix "f" ["a"; "c"] 128) demo) =
     ([], Some (PathError "open" "f" EACCES))).
Proof. repeat split; vm_compute; reflexivity. Qed.

(** C5, amended.  For lines [L1] and [L2] that hold no line feed, that
    together with the line terminator fit the scanner's buffer of 64 KiB
    and, where the terminator is a bare line feed, do not end in a
    carriage return: after a successful
    [WriteFileLines(path, [L1, L2], perm)] the file has a mode, the one
    [Stat] reports, and [ReadFileLines(path)] returns exactly [[L1, L2]]
    when that mode lets the owner read the file; when it does not,
    [ReadFileLines] returns no line and the error of the open.  The mode is
    the one the file had when it was there before the call, and [perm]
    less the mask when the call created it. *)
Theorem WriteFileLines_ReadFileLines EOL path perm L1 L2 w :
  is_EOL EOL -> line_fits EOL L1 -> line_fits EOL L2 ->
  result (xfs.WriteFileLines EOL path [L1; L2] perm) w = None ->
  let w1 := after (xfs.WriteFileLines EOL path [L1; L2] perm) w in
  exists mode,
    fst (result (xfs.Stat path) w1) = Some (mkStat mode) /\
    (forall st, fst (result (xfs.Stat path) w) = Some st -> mode = st_mode st) /\
    (result (xfs.Exists path) w = false ->
     mode = N.ldiff (N.land perm ModePerm) (umask (sys w))) /\
    result (xfs.ReadFileLines path) w1 =
      if may_read mode then ([L1; L2], None)
      else ([], Some (PathError "open" path EACCES)).
Proof.
  intros Hsep H1 H2.
  assert (Forall (line_fits EOL) [L1; L2]) as Hfit
    by (constructor; [exact H1|]; constructor; [exact H2|]; constructor).
  unfold xfs.WriteFileLines. rewrite WriteFileLinesSep_unfold.
  unfold xfs.Stat, os.Stat, os.WriteFile, call, result, after.
  destruct (os.writeFile path _ perm (sys w)) as [err s1] eqn:Hw. cbn [fst snd].
  intros ->. cbn zeta. cbn [sys].
  apply writeFile_mode in Hw as (i & p & Hres & Hi & Hold).
  exists (N.land p ModePerm). rewrite (stat_file_mode _ _ _ _ _ Hres Hi).
  split; [reflexivity|]. split; [|split].
  - intros st. destruct (resolve true (sys w) path) as [i0|d0 c0|e0] eqn:Hres0.
    + destruct Hold as (-> & old & Hi0).
      rewrite (stat_file_mode _ _ _ _ _ Hres0 Hi0). by intros [= <-].
    + unfold os.stat, sys_stat. rewrite Hres0. intros [=].
    + destruct Hold.
  - rewrite Exists_run. cbn [fst]. intros Hex.
    destruct (resolve true (sys w) path) as [i0|d0 c0|e0] eqn:Hres0.
    + destruct Hold as (-> & old & Hi0).
      rewrite (exists_on_stat _ _ _ (sys_stat_Found _ _ _ _ _ Hres0 Hi0)) in Hex.
      discriminate Hex.
    + rewrite Hold. apply land_ldiff_perm.
    + destruct Hold.
  - rewrite ReadFileLines_unfold. cbn [fst sys].
    rewrite (readFile_of_file _ _ _ _ _ Hres Hi), may_read_perm.
    destruct (may_read p); [|reflexivity].
    by rewrite (scan_loop_roundtrip EOL [L1; L2] _ Hsep Hfit eq_refl).
Qed.

Lemma line_fits_short EOL line :
  is_EOL EOL -> has_LF line = false -> ends_with_CR line = false ->
  String.length line <= 1024 -> line_fits EOL line.
Proof.
  intros Hsep Hlf Hcr Hlen. split; [exact Hlf|]. split; [|auto].
  pose proof MaxScanTokenSize_large as Hmax.
  destruct Hsep as [-> | ->]; cbn [String.length EOL_unix EOL_windows]; lia.
Qed.

Lemma WriteFileLines_ReadFileLines_witness :
  result (xfs.ReadFileLines "testfile79")
    (after (xfs.WriteFileLines EOL_unix "testfile79" ["line1"; "line2"] 420) demo) =
    (["line1"; "line2"], None) /\
  result (xfs.ReadFileLines "testfile79")
    (after (xfs.WriteFileLines EOL_unix "testfile79" ["line1"; "line2"] 128) demo) =
    ([], Some (PathError "open" "testfile79" EACCES)).
Proof.
  split.
  - destruct (WriteFileLines_ReadFileLines EOL_unix "testfile79" 420 "line1" "line2" demo)
      as (mode & _ & _ & Hnew & Hread).
    + by left.
    + apply line_fits_short; [by left|reflexivity|reflexivity|cbn; lia].
    + apply line_fits_short; [by left|reflexivity|reflexivity|cbn; lia].
    + vm_compute. reflexivity.
    + rewrite Hread, Hnew; [reflexivity|vm_compute; reflexivity].
  - destruct (WriteFileLines_ReadFileLines EOL_unix "testfile79" 128 "line1" "line2" demo)
      as (mode & _ & _ & Hnew & Hread).
    + by left.
    + apply line_fits_short; [by left|reflexivity|reflexivity|cbn; lia].
    + apply line_fits_short; [by left|reflexivity|reflexivity|cbn; lia].
    + vm_compute. reflexivity.
    + rewrite Hread, Hnew; [reflexivity|vm_compute; reflexivity].
Defined.

(** ** A line that does not fit the scanner *)

(** C10. [ReadFileLines] can fail on a file that was read fully: when a
    line of the file has [MaxScanTokenSize] bytes or more before its
    terminator, [ReadFileLines] returns the lines before it together with
    [ErrTooLong], not the lines of the whole file. *)
Theorem ReadFileLines_too_long filename w lines big rest :
  Forall (line_fits EOL_unix) lines ->
  bufio.IndexByte big LF = None ->
  bufio.MaxScanTokenSize <= length big ->
  result (os.ReadFile filename) w =
    (bytes_of_string (lines_with_sep lines EOL_unix) ++ big ++ rest, None) ->
  result (xfs.ReadFileLines filename) w = (lines, Some ErrTooLong).
Proof.
  intros Hfit Hno Hbig Hread. unfold result in *. rewrite ReadFileLines_unfold.
  unfold os.ReadFile, call in Hread. cbn [fst] in *. rewrite Hread.
  by rewrite (scan_loop_too_long EOL_unix lines big rest _ (or_introl eq_refl) Hfit Hno Hbig eq_refl).
Qed.

Lemma IndexByte_repeat_None c x n : Ascii.eqb x c = false -> bufio.IndexByte (repeat x n) c = None.
Proof. intros H. induction n as [|n IH]; cbn; [done|]. by rewrite H, IH. Qed.

(** What was written is what a read that succeeds returns. *)
Lemma ReadFile_after_WriteFile name data perm w :
  result (os.WriteFile name data perm) w = None ->
  snd (result (os.ReadFile name) (after (os.WriteFile name data perm) w)) = None ->
  result (os.ReadFile name) (after (os.WriteFile name data perm) w) = (data, None).
Proof.
  unfold result, after, os.WriteFile, os.ReadFile, call.
  destruct (os.writeFile name data perm (sys w)) as [err s1] eqn:Hw. cbn [fst snd sys].
  intros ->. apply writeFile_inv in Hw as (i & p & Hres & Hi).
  rewrite (readFile_of_file _ _ _ _ _ Hres Hi).
  destruct (may_read p); [reflexivity|intros [=]].
Qed.

Lemma ReadFileLines_too_long_witness :
  result (xfs.ReadFileLines "long") long_line_world = (["ab"], Some ErrTooLong).
Proof.
  apply (ReadFileLines_too_long "long" long_line_world ["ab"]
           (repeat "x"%char bufio.MaxScanTokenSize) (bytes_of_string (String LF "cd"))).
  - constructor; [|constructor].
    apply line_fits_short; [by left|reflexivity|reflexivity|cbn; lia].
  - by apply IndexByte_repeat_None.
  - by rewrite repeat_length.
  - unfold long_line_world, long_line_content.
    apply ReadFile_after_WriteFile.
    + vm_compute. reflexivity.
    + vm_compute. reflexivity.
Defined.

(** ** Symbolic links under [CopyDir] *)

(** C3.  The code at the input that breaks the claim: the tree holds
    [linkd], a link to the directory [sub].  The walk describes the entry
    by [Lstat], so it is not taken for a directory; [copyFile] opens it
    through the link, creates the regular file [out/linkd], and the copy
    fails reading a directory.  [CopyDir] stops there with that error:
    nothing of [sub] reaches the destination, and the entries after
    [linkd] are not copied. *)
Theorem CopyDir_link_to_directory_fails :
  result (xfs.IsSymlink "tree/linkd") demo = true /\
  content (sys demo) "tree/linkd/b.txt" = Some (bytes_of_string "world") /\
  result (xfs.CopyDir "tree" "out" true) demo = Some (PathError "read" "tree/linkd" EISDIR) /\
  content (sys (after (xfs.CopyDir "tree" "out" true) demo)) "out/linkd" = Some [] /\
  sys_stat true (sys (after (xfs.CopyDir "tree" "out" true) demo)) "out/linkd/b.txt" = inl ENOTDIR /\
  sys_stat true (sys (after (xfs.CopyDir "tree" "out" true) demo)) "out/linkf" = inl ENOENT /\
  sys_stat true (sys (after (xfs.CopyDir "tree" "out" true) demo)) "out/sub" = inl ENOENT.
Proof. repeat split; vm_compute; reflexivity. Qed.

(** A link to a regular file is followed: the destination is a regular
    file with the content of the link's target, not a link. *)
Lemma CopyDir_link_to_file_copies_content :
  result (xfs.IsSymlink "files/linkf") demo = true /\
  result (xfs.CopyDir "files" "out" true) demo = None /\
  content (sys (after (xfs.CopyDir "files" "out" true) demo)) "out/linkf" =
    Some (bytes_of_string "hello") /\
  result (xfs.IsSymlink "out/linkf") (after (xfs.CopyDir "files" "out" true) demo) = false.
Proof. repeat split; vm_compute; reflexivity. Qed.

(** ** Short inputs of [Resolve] *)

(** C4, as stated, fails: a one-letter relative path other than [~] and
    [.] is resolved without any index out of range, because the second
    operand of each [&&] is not evaluated. *)
Lemma Resolve_single_letter_returns :
  String.length "a" < 2 /\ filepath.IsAbs "a" = false /\
  result (xfs.Resolve "a" "") demo = Returned ("/home/user/a", None).
Proof. split; [cbn; lia|]. split; vm_compute; reflexivity. Qed.

(** C4, amended.  For a non-absolute [relative] of length less than 2,
    [Resolve(relative, base)] panics with an index out of range exactly
    when [relative] is the empty string, ["~"] or ["."]; for any other
    one-character string it returns what [filepath.Abs] makes of [relative]
    joined to the base. *)
Theorem Resolve_short_input relative base w :
  filepath.IsAbs relative = false ->
  String.length relative < 2 ->
  (result (xfs.Resolve relative base) w = Panicked xfs.index_out_of_range <->
   relative = "" \/ relative = "~" \/ relative = ".") /\
  (relative <> "" -> relative <> "~" -> relative <> "." ->
   result (xfs.Resolve relative base) w =
   Returned (filepath.abs (filepath.Join (fst (resolve_base base w)) relative) (sys w))).
Proof.
  intros Habs Hlen. unfold result. rewrite Resolve_unfold, Habs.
  assert (sys (snd (resolve_base base w)) = sys w) as Hsys.
  { unfold resolve_base. by destruct (String.eqb base ""). }
  destruct (resolve_base base w) as [b w1]. cbn [fst snd] in *.
  destruct relative as [|c [|c' rest]]; [| |cbn in Hlen; lia].
  - cbn. split; [split; auto|]. done.
  - unfold xfs.prefixed. cbn [String.get].
    destruct (Ascii.eqb c tilde) eqn:Et.
    { apply Ascii.eqb_eq in Et as ->. cbn. split; [split; auto|]. done. }
    destruct (Ascii.eqb c dot) eqn:Ed.
    { apply Ascii.eqb_eq in Ed as ->. cbn. split; [split; auto|]. done. }
    cbn [fst]. rewrite Hsys. split.
    + split; [intros [=]|]. intros [H|[H|H]]; try discriminate H.
      * injection H as ->. by rewrite Ascii.eqb_refl in Et.
      * injection H as ->. by rewrite Ascii.eqb_refl in Ed.
    + done.
Qed.

Lemma Resolve_short_input_witness :
  result (xfs.Resolve "~" "/srv") demo = Panicked xfs.index_out_of_range /\
  result (xfs.Resolve "." "/srv") demo = Panicked xfs.index_out_of_range /\
  result (xfs.Resolve "" "/srv") demo = Panicked xfs.index_out_of_range /\
  result (xfs.Resolve "a" "/srv") demo = Returned ("/srv/a", None).
Proof.
  split; [|split; [|split]].
  - apply (Resolve_short_input "~" "/srv" demo); [reflexivity|cbn; lia|]. auto.
  - apply (Resolve_short_input "." "/srv" demo); [reflexivity|cbn; lia|]. auto.
  - apply (Resolve_short_input "" "/srv" demo); [reflexivity|cbn; lia|]. auto.
  - apply (Resolve_short_input "a" "/srv" demo); [reflexivity|cbn; lia|done..].
Defined.

(** ** Errors *)

(** C9, as stated, fails: [Resolve] drops the error of [Cwd].  Where the
    working directory cannot be determined, a path under the home
    directory is resolved with success. *)
Lemma Resolve_drops_Cwd_error :
  snd (result xfs.Cwd lost) = Some (SyscallError "getwd" ENOENT) /\
  result (xfs.Resolve (String tilde "/x") "") lost = Returned ("/home/user/x", None).
Proof. split; vm_compute; reflexivity. Qed.

Lemma Resolve_error_cases relative base w :
  filepath.IsAbs relative = false ->
  (xfs.prefixed relative tilde = Some true ->
     forall h e, os.userHomeDir (sys w) = (h, Some e) ->
     result (xfs.Resolve relative base) w = Returned ("", Some e)) /\
  (xfs.prefixed relative tilde = Some true ->
     forall home, os.userHomeDir (sys w) = (home, None) ->
     result (xfs.Resolve relative base) w =
     Returned (filepath.abs (filepath.Join home (drop_string 2 relative)) (sys w))) /\
  (xfs.prefixed relative tilde = Some false -> xfs.prefixed relative dot = Some true ->
     result (xfs.Resolve relative base) w =
     Returned (filepath.abs (filepath.Join (fst (resolve_base base w)) (drop_string 2 relative))
                            (sys w))) /\
  (xfs.prefixed relative tilde = Some false -> xfs.prefixed relative dot = Some false ->
     result (xfs.Resolve relative base) w =
     Returned (filepath.abs (filepath.Join (fst (resolve_base base w)) relative) (sys w))).
Proof.
  intros Habs. unfold result. rewrite Resolve_unfold, Habs.
  assert (sys (snd (resolve_base base w)) = sys w) as Hsys.
  { unfold resolve_base. by destruct (String.eqb base ""). }
  destruct (resolve_base base w) as [b w1]. cbn [fst snd] in *. rewrite Hsys.
  split; [|split; [|split]].
  - intros -> h e ->. reflexivity.
  - intros -> home ->. reflexivity.
  - intros -> ->. reflexivity.
  - intros -> ->. reflexivity.
Qed.

Lemma prefixed_nonempty relative c b : xfs.prefixed relative c = Some b -> relative <> "".
Proof. by destruct relative. Qed.

Lemma Resolve_without_cwd relative w e :
  filepath.IsAbs relative = false ->
  os.getwd (sys w) = ("", Some e) ->
  (xfs.prefixed relative tilde = Some true ->
     forall home, os.userHomeDir (sys w) = (home, None) -> filepath.IsAbs home = true ->
     result (xfs.Resolve relative "") w =
     Returned (filepath.Clean (filepath.Join home (drop_string 2 relative)), None)) /\
  (xfs.prefixed relative tilde = Some false -> xfs.prefixed relative dot = Some false ->
     result (xfs.Resolve relative "") w = Returned ("", Some e)).
Proof.
  intros Habs Hwd.
  destruct (Resolve_error_cases relative "" w Habs) as (_ & Hhome & _ & Hplain).
  split.
  - intros Ht home Hh Hhabs. rewrite (Hhome Ht home Hh).
    unfold filepath.abs. by rewrite (IsAbs_Join_abs home _ Hhabs).
  - intros Ht Hd. rewrite (Hplain Ht Hd).
    unfold resolve_base. cbn [String.eqb fst]. rewrite Hwd. cbn [fst].
    rewrite Join_empty_base by (by eapply prefixed_nonempty).
    unfold filepath.abs. by rewrite IsAbs_Clean, Habs, Hwd.
Qed.

(** C9, amended.  Every function of several calls surfaces the first error
    of an underlying call and stops there (only the deferred [Close] calls
    still run, and what [Close] returns is never examined): [Copy], [CopyFile], [copyFile], [EnsureDir], [EnsureFile],
    [ReadTextFile], [ReadFileLines], and [CopyDir], whose walk is a course
    of visits that all succeed but possibly the last.  [Resolve] surfaces
    the errors of [UserHomeDir] and [filepath.Abs], but it drops the error
    of [Cwd]: with an empty base and a working directory that cannot be
    determined, a path under an absolute home directory is resolved with
    success, and a plain relative path fails only because [filepath.Abs]
    then meets the same error. *)
Theorem errors_surface_but_Cwd :
  (forall src dst overwrite w info e,
     os.stat src (sys w) = (info, Some e) ->
     xfs.Copy src dst overwrite w =
       (Some e, mkWorld (sys w) (calls w ++ [call_Stat src])) /\
     xfs.CopyFile src dst overwrite w =
       (Some e, mkWorld (sys w) (calls w ++ [call_Stat src])))
  /\ (forall src dst info overwrite w,
     exists_on (sys w) dst && negb overwrite = false ->
     (forall f e, os.open src (sys w) = (f, Some e) ->
        xfs.copyFile src dst info overwrite w =
          (Some e, mkWorld (sys w) (calls w ++ [call_Stat dst; call_Open src]))) /\
     (forall f d e s1,
        os.open src (sys w) = (f, None) -> os.create dst (sys w) = ((d, Some e), s1) ->
        xfs.copyFile src dst info overwrite w =
          (Some e, mkWorld s1 (calls w ++ [call_Stat dst; call_Open src; call_Create dst;
                                           call_Close f]))) /\
     (forall f d s1 n e s2,
        os.open src (sys w) = (f, None) -> os.create dst (sys w) = ((d, None), s1) ->
        io.copy d f s1 = ((n, Some e), s2) ->
        xfs.copyFile src dst info overwrite w =
          (Some e, mkWorld s2 (calls w ++ [call_Stat dst; call_Open src; call_Create dst;
                                           call_Copy d f; call_Close d; call_Close f]))) /\
     (forall f d s1 n s2,
        os.open src (sys w) = (f, None) -> os.create dst (sys w) = ((d, None), s1) ->
        io.copy d f s1 = ((n, None), s2) ->
        result (xfs.copyFile src dst info overwrite) w =
          fst (os.chmod dst (FileInfo_Mode info) s2)))
  /\ (forall dir perm w,
     exists_on (sys w) dir = false ->
     result (xfs.EnsureDir dir perm) w = fst (os.mkdirAll (String.length dir) dir perm (sys w)))
  /\ (forall filename perm w,
     exists_on (sys w) filename = false ->
     (forall f e s1, os.create filename (sys w) = ((f, Some e), s1) ->
        xfs.EnsureFile filename perm w =
          (Some e, mkWorld s1 (calls w ++ [call_Stat filename; call_Create filename]))) /\
     (forall f s1, os.create filename (sys w) = ((f, None), s1) ->
        result (xfs.EnsureFile filename perm) w = fst (os.chmod filename perm s1)))
  /\ (forall filename w data e,
     os.readFile filename (sys w) = (data, Some e) ->
     xfs.ReadTextFile filename w =
       (("", Some e), mkWorld (sys w) (calls w ++ [call_ReadFile filename])) /\
     xfs.ReadFileLines filename w =
       (([], Some e), mkWorld (sys w) (calls w ++ [call_ReadFile filename])))
  /\ (forall src dst overwrite w,
     walked (xfs.CopyDir_func1 src dst overwrite)
       (mkWorld (sys w) (calls w ++ [call_Walk src])) (xfs.CopyDir src dst overwrite w) /\
     forall path info e w',
       xfs.CopyDir_func1 src dst overwrite path info (Some e) w' = (Some e, w'))
  /\ (forall relative base w,
     filepath.IsAbs relative = false ->
     (xfs.prefixed relative tilde = Some true ->
        forall h e, os.userHomeDir (sys w) = (h, Some e) ->
        result (xfs.Resolve relative base) w = Returned ("", Some e)) /\
     (xfs.prefixed relative tilde = Some true ->
        forall home, os.userHomeDir (sys w) = (home, None) ->
        result (xfs.Resolve relative base) w =
        Returned (filepath.abs (filepath.Join home (drop_string 2 relative)) (sys w))) /\
     (xfs.prefixed relative tilde = Some false -> xfs.prefixed relative dot = Some true ->
        result (xfs.Resolve relative base) w =
        Returned (filepath.abs
                    (filepath.Join (fst (resolve_base base w)) (drop_string 2 relative))
                    (sys w))) /\
     (xfs.prefixed relative tilde = Some false -> xfs.prefixed relative dot = Some false ->
        result (xfs.Resolve relative base) w =
        Returned (filepath.abs (filepath.Join (fst (resolve_base base w)) relative) (sys w))))
  /\ (forall relative w e,
     filepath.IsAbs relative = false ->
     os.getwd (sys w) = ("", Some e) ->
     (xfs.prefixed relative tilde = Some true ->
        forall home, os.userHomeDir (sys w) = (home, None) -> filepath.IsAbs home = true ->
        result (xfs.Resolve relative "") w =
        Returned (filepath.Clean (filepath.Join home (drop_string 2 relative)), None)) /\
     (xfs.prefixed relative tilde = Some false -> xfs.prefixed relative dot = Some false ->
        result (xfs.Resolve relative "") w = Returned ("", Some e))).
Proof.
  split; [|split; [|split; [|split; [|split; [|split; [|split]]]]]].
  - intros src dst overwrite w info e Hst.
    by rewrite Copy_unfold, CopyFile_unfold, Hst.
  - intros src dst info overwrite w Hex.
    pose proof (copyFile_unfold src dst info overwrite w) as Hun.
    cbv zeta in Hun. rewrite Hex in Hun. repeat split.
    + intros f e Ho. rewrite Hun, Ho. by rewrite <- app_assoc.
    + intros f d e s1 Ho Hc. rewrite Hun, Ho, Hc. by rewrite <- app_assoc.
    + intros f d s1 n e s2 Ho Hc Hcp. rewrite Hun, Ho, Hc, Hcp. by rewrite <- app_assoc.
    + intros f d s1 n s2 Ho Hc Hcp. unfold result. rewrite Hun, Ho, Hc, Hcp.
      by destruct (os.chmod dst (FileInfo_Mode info) s2).
  - intros dir perm w Hex.
    pose proof (EnsureDir_run dir perm w) as Hrun. unfold run in Hrun.
    rewrite Hex in Hrun. by rewrite <- Hrun.
  - intros filename perm w Hex.
    pose proof (EnsureFile_unfold filename perm w) as Hun.
    cbv zeta in Hun. rewrite Hex in Hun. split.
    + intros f e s1 Hc. rewrite Hun, Hc. by rewrite <- app_assoc.
    + intros f s1 Hc. unfold result. rewrite Hun, Hc.
      by destruct (os.chmod filename perm s1).
  - intros filename w data e Hr.
    by rewrite ReadTextFile_unfold, ReadFileLines_unfold, Hr.
  - intros src dst overwrite w. split; [apply CopyDir_walked|intros; reflexivity].
  - intros relative base w Habs. by apply Resolve_error_cases.
  - intros relative w e Habs Hwd. by apply Resolve_without_cwd.
Qed.

Lemma errors_surface_but_Cwd_witness :
  xfs.CopyFile "nothing" "testfile" true demo =
    (Some (PathError "stat" "nothing" ENOENT), mkWorld (sys demo) [call_Stat "nothing"]) /\
  result (xfs.Resolve "x" "") lost = Returned ("", Some (SyscallError "getwd" ENOENT)).
Proof.
  split.
  - apply (proj1 errors_surface_but_Cwd "nothing" "testfile" true demo None).
    vm_compute. reflexivity.
  - apply (proj2 (proj2 (proj2 (proj2 (proj2 (proj2 (proj2 errors_surface_but_Cwd))))))
             "x" lost (SyscallError "getwd" ENOENT));
      vm_compute; reflexivity.
Defined.

(** * Further properties of [xfs.go] *)

(** ** Text written and read back *)

(** X1.  What [WriteTextFile] writes, [ReadTextFile] reads back.  After a
    successful [WriteTextFile(filename, data, perm)] the file holds exactly
    [data], whatever it held before, and [ReadTextFile(filename)] returns
    [data] when the owner may read the file, the open error otherwise.  A
    file that [Stat] found before the call keeps its mode: [perm] is used
    only for a file the call creates, less the mask. *)
Theorem WriteTextFile_ReadTextFile filename data perm w :
  result (xfs.WriteTextFile filename data perm) w = None ->
  let w1 := after (xfs.WriteTextFile filename data perm) w in
  content (sys w1) filename = Some (bytes_of_string data) /\
  (exists mode,
     fst (result (xfs.Stat filename) w1) = Some (mkStat mode) /\
     (forall st, fst (result (xfs.Stat filename) w) = Some st -> mode = st_mode st) /\
     (result (xfs.Exists filename) w = false ->
      mode = N.ldiff (N.land perm ModePerm) (umask (sys w))) /\
     result (xfs.ReadTextFile filename) w1 =
       if may_read mode then (data, None)
       else ("", Some (PathError "open" filename EACCES))).
Proof.
  unfold xfs.WriteTextFile, xfs.Stat, os.Stat, os.WriteFile, call, result, after.
  destruct (os.writeFile filename _ perm (sys w)) as [err s1] eqn:Hw. cbn [fst snd].
  intros ->. cbn zeta. cbn [sys].
  pose proof (writeFile_content _ _ _ _ _ Hw) as Hcontent.
  apply writeFile_mode in Hw as (i & p & Hres & Hi & Hold).
  split; [exact Hcontent|].
  exists (N.land p ModePerm).
  rewrite (stat_file_mode _ _ _ _ _ Hres Hi). split; [reflexivity|].
  split; [|split].
  - intros st. destruct (resolve true (sys w) filename) as [i0|d0 c0|e0] eqn:Hres0.
    + destruct Hold as (-> & old & Hi0).
      rewrite (stat_file_mode _ _ _ _ _ Hres0 Hi0). by intros [= <-].
    + unfold os.stat, sys_stat. rewrite Hres0. intros [=].
    + destruct Hold.
  - rewrite Exists_run. cbn [fst]. intros Hex.
    destruct (resolve true (sys w) filename) as [i0|d0 c0|e0] eqn:Hres0.
    + destruct Hold as (-> & old & Hi0).
      rewrite (exists_on_stat _ _ _ (sys_stat_Found _ _ _ _ _ Hres0 Hi0)) in Hex.
      discriminate Hex.
    + rewrite Hold. apply land_ldiff_perm.
    + destruct Hold.
  - rewrite ReadTextFile_unfold. cbn [fst sys].
    rewrite (readFile_of_file _ _ _ _ _ Hres Hi), may_read_perm.
    destruct (may_read p); [|reflexivity]. by rewrite string_of_bytes_of_string.
Qed.

Lemma WriteTextFile_ReadTextFile_witness :
  result (xfs.ReadTextFile "testfile10")
    (after (xfs.WriteTextFile "testfile10" "test data10" 420) demo) = ("test data10", None) /\
  content (sys (after (xfs.WriteTextFile "testfile" "new" 420) demo)) "testfile" =
    Some (bytes_of_string "new").
Proof.
  split.
  - destruct (WriteTextFile_ReadTextFile "testfile10" "test data10" 420 demo)
      as (_ & mode & _ & _ & Hnew & Hread); [vm_compute; reflexivity|].
    rewrite Hread, Hnew; [reflexivity|vm_compute; reflexivity].
  - apply (WriteTextFile_ReadTextFile "testfile" "new" 420 demo). vm_compute. reflexivity.
Defined.

(** ** The lines of any file *)

Lemma IndexByte_cons_None x data c :
  bufio.IndexByte (x :: data) c = None <->
  Ascii.eqb x c = false /\ bufio.IndexByte data c = None.
Proof.
  cbn. destruct (Ascii.eqb x c); [split; [intros [=]|intros [[=] _]]|].
  destruct (bufio.IndexByte data c); cbn; split; try intros [=]; try intros [_ [=]]; auto.
Qed.

Lemma segments_line body tail :
  bufio.IndexByte body LF = None ->
  segments (body ++ LF :: tail) = body :: segments tail.
Proof.
  induction body as [|x body IH]; intros Hno; [reflexivity|].
  apply IndexByte_cons_None in Hno as [Hx Hno].
  cbn. rewrite Hx, (IH Hno). reflexivity.
Qed.

Lemma segments_last body :
  body <> [] -> bufio.IndexByte body LF = None -> segments body = [body].
Proof.
  induction body as [|x body IH]; intros Hne Hno; [by destruct Hne|].
  apply IndexByte_cons_None in Hno as [Hx Hno].
  cbn. rewrite Hx. destruct body as [|y body]; [reflexivity|].
  rewrite IH; [reflexivity|discriminate|exact Hno].
Qed.

Lemma length_segments data : length (segments data) <= length data.
Proof.
  induction data as [|x data IH]; cbn; [lia|].
  destruct (Ascii.eqb x LF); cbn; [lia|].
  destruct (segments data); cbn in *; lia.
Qed.

(** A file is empty, or starts with a segment and its line feed, or is one
    unterminated segment. *)
Lemma bytes_cases (data : bytes) :
  data = [] \/
  (exists body tail, data = body ++ LF :: tail /\ bufio.IndexByte body LF = None) \/
  (data <> [] /\ bufio.IndexByte data LF = None).
Proof.
  induction data as [|x data IH]; [by left|]. right.
  destruct (Ascii.eqb x LF) eqn:Hx.
  - left. apply Ascii.eqb_eq in Hx as ->. by exists [], data.
  - destruct IH as [->|[(body & tail & -> & Hno)|[Hne Hno]]].
    + right. split; [discriminate|]. by apply IndexByte_cons_None.
    + left. exists (x :: body), tail. split; [reflexivity|]. by apply IndexByte_cons_None.
    + right. split; [discriminate|]. by apply IndexByte_cons_None.
Qed.

Lemma fits_lt seg : fits seg = true <-> length seg < bufio.MaxScanTokenSize.
Proof. unfold fits. apply Nat.ltb_lt. Qed.

Lemma fits_ge seg : fits seg = false <-> bufio.MaxScanTokenSize <= length seg.
Proof. unfold fits. apply Nat.ltb_ge. Qed.

(** The scan loop yields the lines of the segments that fit, in order, and
    stops with [ErrTooLong] at the first segment that does not. *)
Lemma scan_loop_segments n :
  forall data, length data <= n ->
  forall fuel tok acc, length (segments data) < fuel ->
    let out := xfs.scan_loop fuel (bufio.mkScanner data tok None) acc in
    fst out = acc ++ (line_of <$> scannable (segments data)) /\
    bufio.Err (snd out) = if forallb fits (segments data) then None else Some ErrTooLong.
Proof.
  induction n as [|n IH]; intros data Hlen fuel tok acc Hfuel.
  - destruct data; [|cbn in Hlen; lia].
    destruct fuel as [|fuel]; [cbn in Hfuel; lia|].
    cbn [xfs.scan_loop]. rewrite Scan_end. cbn. by rewrite app_nil_r.
  - destruct (bytes_cases data) as [->|[(body & tail & -> & Hno)|[Hne Hno]]].
    + destruct fuel as [|fuel]; [cbn in Hfuel; lia|].
      cbn [xfs.scan_loop]. rewrite Scan_end. cbn. by rewrite app_nil_r.
    + rewrite segments_line in * by exact Hno.
      destruct fuel as [|fuel]; [cbn in Hfuel; lia|].
      cbn [xfs.scan_loop scannable forallb]. destruct (fits body) eqn:Hfit.
      * apply fits_lt in Hfit. rewrite (Scan_line _ _ _ Hno Hfit).
        rewrite length_app in Hlen. cbn [length] in Hlen, Hfuel.
        assert (length tail <= n) as Htail by lia.
        assert (length (segments tail) < fuel) as Hfuel' by lia.
        destruct (IH tail Htail fuel (bufio.dropCR body)
                    (acc ++ [bufio.Text (bufio.mkScanner tail (bufio.dropCR body) None)])
                    Hfuel') as [H1 H2].
        cbn zeta in *. split; [|exact H2].
        rewrite H1. cbn [fmap list_fmap andb]. by rewrite <- app_assoc.
      * apply fits_ge in Hfit. rewrite Scan_too_long.
        -- cbn. by rewrite app_nil_r.
        -- rewrite take_app_le by lia. by apply IndexByte_take_None.
        -- rewrite length_app. apply (Nat.le_trans _ _ _ Hfit), Nat.le_add_r.
    + rewrite segments_last in * by assumption.
      destruct fuel as [|[|fuel]]; [cbn in Hfuel; lia..|].
      cbn [scannable forallb]. destruct (fits data) eqn:Hfit.
      * apply fits_lt in Hfit. cbn [xfs.scan_loop].
        rewrite (Scan_last _ _ Hne Hno Hfit), Scan_end. by cbn.
      * apply fits_ge in Hfit. cbn [xfs.scan_loop]. rewrite Scan_too_long.
        -- cbn. by rewrite app_nil_r.
        -- by apply IndexByte_take_None.
        -- exact Hfit.
Qed.

Lemma ReadFileLines_of_content filename w data :
  os.readFile filename (sys w) = (data, None) ->
  result (xfs.ReadFileLines filename) w = scanned_lines data.
Proof.
  intros Hread. unfold result. rewrite ReadFileLines_unfold, Hread. cbn [fst].
  unfold bufio.NewScanner. rewrite bytes_of_string_of_bytes.
  pose proof (length_segments data) as Hsegs.
  destruct (scan_loop_segments (length data) data (Nat.le_refl _) (S (length data)) [] []
              ltac:(lia)) as [H1 H2].
  cbn zeta in *. destruct (xfs.scan_loop _ _ _) as [lines sc]. cbn [fst snd] in *.
  unfold scanned_lines. by rewrite H1, H2.
Qed.

(** X2.  [ReadFileLines] splits the file at every line feed and drops one
    terminal carriage return of each segment; what follows the last line
    feed is a line when it is not empty, so a file that ends in a line feed
    has no empty last line.  The lines are returned up to the first segment
    of [MaxScanTokenSize] bytes or more, where the scan stops with
    [ErrTooLong]. *)
Theorem ReadFileLines_scanned_lines filename w data :
  result (os.ReadFile filename) w = (data, None) ->
  result (xfs.ReadFileLines filename) w = scanned_lines data.
Proof.
  intros Hread. apply ReadFileLines_of_content.
  unfold result, os.ReadFile, call in Hread. exact Hread.
Qed.

Lemma ReadFileLines_scanned_lines_witness :
  result (xfs.ReadFileLines "testfile") demo = (["test data"], None).
Proof.
  rewrite (ReadFileLines_scanned_lines "testfile" demo (bytes_of_string "test data"));
    vm_compute; reflexivity.
Defined.

Lemma IndexByte_rev_tail x r c :
  bufio.IndexByte (rev (x :: r)) c = None -> bufio.IndexByte (rev r) c = None.
Proof.
  cbn [rev]. intros H. destruct (bufio.IndexByte (rev r) c) as [i|] eqn:Hi; [|reflexivity].
  assert (i < length (rev r)) as Hlt.
  { clear H. revert i Hi. induction (rev r) as [|y l IHl]; intros i; cbn; [intros [=]|].
    destruct (Ascii.eqb y c); [intros [= <-]; lia|].
    destruct (bufio.IndexByte l c) as [j|]; cbn; [|intros [=]].
    intros [= <-]. specialize (IHl j eq_refl). lia. }
  pose proof (IndexByte_take (rev r) c i (length (rev r)) Hi Hlt) as Ht.
  pose proof (IndexByte_take_None _ c (length (rev r)) H) as Hn.
  rewrite take_app_le in Hn by lia. congruence.
Qed.

Lemma dropCR_no_LF seg :
  bufio.IndexByte seg LF = None -> has_LF (line_of seg) = false.
Proof.
  intros Hno. unfold has_LF, line_of. rewrite bytes_of_string_of_bytes.
  unfold bufio.dropCR. destruct (rev seg) as [|x r] eqn:Hrev; [by rewrite Hno|].
  destruct (Ascii.eqb x CR); [|by rewrite Hno].
  rewrite <- (rev_involutive seg), Hrev in Hno.
  by rewrite (IndexByte_rev_tail _ _ _ Hno).
Qed.

Lemma segments_no_LF data :
  Forall (fun seg => bufio.IndexByte seg LF = None) (segments data).
Proof.
  induction data as [|x data IH]; cbn; [constructor|].
  destruct (Ascii.eqb x LF) eqn:Hx; [by constructor|].
  destruct (segments data) as [|seg segs].
  - constructor; [|constructor]. by apply IndexByte_cons_None.
  - inversion IH as [|? ? Hseg Hsegs]; subst. constructor; [|exact Hsegs].
    by apply IndexByte_cons_None.
Qed.

Lemma scannable_Forall (P : bytes -> Prop) segs : Forall P segs -> Forall P (scannable segs).
Proof.
  induction 1 as [|seg segs H _ IH]; cbn [scannable]; [constructor|].
  destruct (fits seg); by constructor.
Qed.

(** X3.  Whatever the file, no line that [ReadFileLines] returns holds a
    line feed, and its error is [nil], [ErrTooLong], or the error of
    [os.ReadFile], in which case no line is returned. *)
Theorem ReadFileLines_lines_have_no_LF filename w :
  Forall (fun line => has_LF line = false) (fst (result (xfs.ReadFileLines filename) w)) /\
  (snd (result (xfs.ReadFileLines filename) w) = None \/
   snd (result (xfs.ReadFileLines filename) w) = Some ErrTooLong \/
   result (xfs.ReadFileLines filename) w = ([], snd (result (os.ReadFile filename) w))).
Proof.
  destruct (os.readFile filename (sys w)) as [data [e|]] eqn:Hread.
  - unfold result at 1 2 3 4. rewrite ReadFileLines_unfold.
    unfold result, os.ReadFile, call. rewrite Hread. cbn [fst snd].
    split; [constructor|]. right. right. reflexivity.
  - rewrite (ReadFileLines_of_content _ _ _ Hread). unfold scanned_lines. cbn [fst snd].
    split.
    + apply Forall_fmap. apply scannable_Forall.
      eapply Forall_impl; [apply segments_no_LF|]. intros seg. apply dropCR_no_LF.
    + destruct (forallb fits (segments data)); auto.
Qed.

(** ** Lines written with a terminator of the caller's choice *)

(** X4.  Any number of lines written by [WriteFileLinesSep] with a line
    feed, or a carriage return and a line feed, as separator are the lines
    [ReadFileLines] returns, none for the empty list, provided each line
    holds no line feed, fits the scanner's buffer and, with a bare line
    feed, does not end in a carriage return.  Where the owner may not read
    the file, [ReadFileLines] returns the open error. *)
Theorem WriteFileLinesSep_ReadFileLines sep filename lines perm w :
  is_EOL sep -> Forall (line_fits sep) lines ->
  result (xfs.WriteFileLinesSep filename lines sep perm) w = None ->
  let w1 := after (xfs.WriteFileLinesSep filename lines sep perm) w in
  exists mode,
    fst (result (xfs.Stat filename) w1) = Some (mkStat mode) /\
    result (xfs.ReadFileLines filename) w1 =
      if may_read mode then (lines, None)
      else ([], Some (PathError "open" filename EACCES)).
Proof.
  intros Hsep Hfit. rewrite WriteFileLinesSep_unfold.
  unfold xfs.Stat, os.Stat, os.WriteFile, call, result, after.
  destruct (os.writeFile filename _ perm (sys w)) as [err s1] eqn:Hw. cbn [fst snd].
  intros ->. cbn zeta. cbn [sys].
  apply writeFile_mode in Hw as (i & p & Hres & Hi & _).
  exists (N.land p ModePerm). rewrite (stat_file_mode _ _ _ _ _ Hres Hi).
  split; [reflexivity|].
  rewrite ReadFileLines_unfold. cbn [fst sys].
  rewrite (readFile_of_file _ _ _ _ _ Hres Hi), may_read_perm.
  destruct (may_read p); [|reflexivity].
  by rewrite (scan_loop_roundtrip sep lines _ Hsep Hfit eq_refl).
Qed.

Lemma WriteFileLinesSep_ReadFileLines_witness :
  result (xfs.ReadFileLines "testfile89")
    (after (xfs.WriteFileLinesSep "testfile89" ["line1"; "line2"] EOL_unix 420) demo) =
    (["line1"; "line2"], None) /\
  result (xfs.ReadFileLines "testfile89")
    (after (xfs.WriteFileLinesSep "testfile89" [] EOL_windows 420) demo) = ([], None).
Proof.
  split.
  - destruct (WriteFileLinesSep_ReadFileLines EOL_unix "testfile89" ["line1"; "line2"] 420 demo)
      as (mode & Hst & Hread).
    + by left.
    + constructor; [|constructor; [|constructor]];
        (apply line_fits_short; [by left|reflexivity|reflexivity|cbn; lia]).
    + vm_compute. reflexivity.
    + rewrite Hread. vm_compute in Hst. injection Hst as <-. reflexivity.
  - destruct (WriteFileLinesSep_ReadFileLines EOL_windows "testfile89" [] 420 demo)
      as (mode & Hst & Hread).
    + by right.
    + constructor.
    + vm_compute. reflexivity.
    + rewrite Hread. vm_compute in Hst. injection Hst as <-. reflexivity.
Defined.

(** ** Ensuring a file *)

Lemma land_perm_idem p : N.land (N.land p ModePerm) ModePerm = N.land p ModePerm.
Proof. by rewrite <- N.land_assoc, N.land_diag. Qed.

Lemma perm_not_dir p : FileInfo_IsDir (Some (mkStat (N.land p ModePerm))) = false.
Proof.
  unfold FileInfo_IsDir, FileInfo_Mode. cbn [st_mode].
  by rewrite <- N.land_assoc, (N.land_0_r p : N.land p (N.land ModePerm ModeDir) = 0%N).
Qed.

Lemma IsFile_run filename w :
  result (xfs.IsFile filename) w =
  match os.stat filename (sys w) with
  | (_, Some _) => false
  | (info, None) => negb (FileInfo_IsDir info)
  end.
Proof.
  unfold result, xfs.IsFile, os.Stat, call, bind, ret.
  by destruct (os.stat filename (sys w)) as [info [e|]].
Qed.

(** [os.Create] and then [os.Chmod] on the same name: an empty regular file
    with the permission bits of the [Chmod]. *)
Lemma create_chmod_file filename perm s s' :
  (match os.create filename s with
   | ((_, Some e), s1) => (Some e, s1)
   | ((_, None), s1) => os.chmod filename perm s1
   end) = (None, s') ->
  exists i, resolve true s' filename = Found i /\
            inodes s' !! i = Some (IFile (N.land perm ModePerm) []).
Proof.
  unfold os.create.
  destruct (sys_creat true s filename 438%N) as [e|[fd s1]] eqn:Hc; [intros [=]|].
  apply sys_creat_inv in Hc as (_ & (p & Hfd) & Hres & _).
  unfold os.chmod. rewrite (sys_chmod_file _ _ _ _ _ _ Hres Hfd). intros [= <-].
  exists (fd_ino fd). split.
  - rewrite (resolve_file_update _ _ _ _ _ _ _ _ Hfd). exact Hres.
  - cbn. apply lookup_insert_eq.
Qed.

(** X5.  [EnsureFile] on a path that exists, be it a file, a directory or
    a name [Stat] is denied, changes nothing: it makes the metadata query
    only, so an existing file is neither truncated nor given [perm].  On a
    path that does not exist a successful [EnsureFile] leaves an empty
    regular file whose permission bits are exactly those of [perm]: the
    explicit [Chmod] undoes the mask that applied to [Create]. *)
Theorem EnsureFile_creates_only_when_absent filename perm w :
  (result (xfs.Exists filename) w = true ->
     result (xfs.EnsureFile filename perm) w = None /\
     sys (after (xfs.EnsureFile filename perm) w) = sys w /\
     calls (after (xfs.EnsureFile filename perm) w) = calls w ++ [call_Stat filename])
  /\ (result (xfs.Exists filename) w = false ->
      result (xfs.EnsureFile filename perm) w = None ->
      let w1 := after (xfs.EnsureFile filename perm) w in
      content (sys w1) filename = Some [] /\
      result (xfs.Stat filename) w1 = (Some (mkStat (N.land perm ModePerm)), None) /\
      result (xfs.IsFile filename) w1 = true).
Proof.
  unfold result, after. rewrite Exists_run. cbn [fst].
  split; intros Hex.
  - rewrite EnsureFile_unfold. cbv zeta. by rewrite Hex.
  - intros Hok. pose proof (EnsureFile_run filename perm w) as Hrun.
    unfold run, result, after in Hrun. rewrite Hex, Hok in Hrun. symmetry in Hrun.
    apply create_chmod_file in Hrun as (i & Hres & Hi).
    cbv zeta. split; [exact (content_Found _ _ _ _ _ Hres Hi)|].
    pose proof (stat_file_mode _ _ _ _ _ Hres Hi) as Hst. rewrite land_perm_idem in Hst.
    split.
    + unfold xfs.Stat, os.Stat, call. cbn [fst]. exact Hst.
    + pose proof (IsFile_run filename (snd (xfs.EnsureFile filename perm w))) as Hf.
      unfold result in Hf. rewrite Hf, Hst. by rewrite perm_not_dir.
Qed.

Lemma EnsureFile_creates_only_when_absent_witness :
  (content (sys (after (xfs.EnsureFile "testfile" 384) demo)) "testfile" =
     Some (bytes_of_string "test data")) /\
  result (xfs.Stat "testfile10") (after (xfs.EnsureFile "testfile10" 511) demo) =
    (Some (mkStat 511), None).
Proof.
  split.
  - destruct (proj1 (EnsureFile_creates_only_when_absent "testfile" 384 demo))
      as (_ & Hsys & _); [vm_compute; reflexivity|].
    rewrite Hsys. vm_compute. reflexivity.
  - apply (proj2 (EnsureFile_creates_only_when_absent "testfile10" 511 demo));
      vm_compute; reflexivity.
Defined.

(** ** Copying a file: content, mode, and a file copied onto itself *)

(** The steps of [copyFile] past the test of the destination, when they all
    succeed: the source is a regular file; the destination is a regular
    file with the permission bits of [mode]; it holds what the source held,
    unless the two are one file, which the [Create] emptied before it was
    read. *)
Lemma copy_steps_inv src dst mode s s' :
  (match os.open src s with
   | (_, Some e) => (Some e, s)
   | (srcFile, None) =>
       match os.create dst s with
       | ((_, Some e), s1) => (Some e, s1)
       | ((dstFile, None), s1) =>
           match io.copy dstFile srcFile s1 with
           | ((_, Some e), s2) => (Some e, s2)
           | ((_, None), s2) => os.chmod dst mode s2
           end
       end
   end) = (None, s') ->
  exists i j ps old data,
    resolve true s src = Found i /\ inodes s !! i = Some (IFile ps old) /\
    resolve true s' src = Found i /\ resolve true s' dst = Found j /\
    inodes s' !! j = Some (IFile (N.land mode ModePerm) data) /\
    (resolve true s dst = Found j \/ exists d c, resolve true s dst = Absent d c) /\
    (i <> j -> data = old /\ inodes s' !! i = Some (IFile ps old)) /\
    (i = j -> data = []).
Proof.
  unfold os.open. destruct (sys_open s src) as [e|fs] eqn:Ho; [intros [=]|].
  unfold os.create. destruct (sys_creat true s dst 438%N) as [e|[fd s1]] eqn:Hc; [intros [=]|].
  unfold io.copy. destruct (sys_read_all s1 fs) as [e|data] eqn:Hr; [intros [=]|].
  destruct (sys_write s1 fd data) as [e|s2] eqn:Hw; [intros [=]|].
  apply sys_open_inv in Ho as (_ & Hsrc & n & Hn & Hnsym).
  pose proof (sys_creat_mode _ _ _ _ _ _ Hc) as Hmode.
  apply sys_creat_inv in Hc as (_ & (p & Hfd) & Hdst & Hmono & Hfiles & _).
  apply sys_write_inv in Hw as (p' & old & Hfd' & ->).
  rewrite Hfd in Hfd'. injection Hfd' as <- <-. rewrite drop_nil, app_nil_r.
  unfold sys_read_all in Hr.
  destruct (inodes s1 !! fd_ino fs) as [[ps dat| |]|] eqn:Hfs; try discriminate Hr.
  injection Hr as ->.
  set (s2 := set_inodes s1 (<[fd_ino fd := IFile p data]> (inodes s1))).
  assert (Hdst2 : resolve true s2 dst = Found (fd_ino fd)).
  { unfold s2. erewrite resolve_file_update; [exact Hdst|exact Hfd]. }
  assert (Hfd2 : inodes s2 !! fd_ino fd = Some (IFile p data)).
  { unfold s2. cbn. by rewrite lookup_insert_eq. }
  unfold os.chmod. rewrite (sys_chmod_file _ _ _ _ _ _ Hdst2 Hfd2).
  intros [= <-].
  set (s3 := set_inodes s2 _).
  assert (Hres3 : forall q, resolve true s3 q = resolve true s1 q).
  { intros q. unfold s3. rewrite (resolve_file_update _ _ _ _ _ _ _ _ Hfd2).
    unfold s2. apply (resolve_file_update _ _ _ _ _ _ _ _ Hfd). }
  assert (Hfd3 : inodes s3 !! fd_ino fd = Some (IFile (N.land mode ModePerm) data)).
  { unfold s3. cbn. by rewrite lookup_insert_eq. }
  assert (Hwas : resolve true s dst = Found (fd_ino fd) \/
                 exists d c, resolve true s dst = Absent d c).
  { destruct (resolve true s dst) as [j0|d0 c0|e0]; [|right|destruct Hmode].
    - left. destruct Hmode as [-> _]. reflexivity.
    - exists d0, c0. reflexivity. }
  destruct (decide (fd_ino fs = fd_ino fd)) as [E|E].
  - assert (exists ps0 old0, inodes s !! fd_ino fs = Some (IFile ps0 old0)) as (ps0 & old0 & Hold).
    { destruct (resolve true s dst) as [j0|d0 c0|e0]; [| |destruct Hmode].
      - destruct Hmode as (Hj & p0 & old0 & Hold & _). rewrite E, Hj. eauto.
      - destruct Hmode as [Hnone _]. rewrite E, Hnone in Hn. discriminate Hn. }
    exists (fd_ino fs), (fd_ino fd), ps0, old0, data.
    split; [exact Hsrc|]. split; [exact Hold|].
    split; [rewrite Hres3; apply Hmono; exact Hsrc|].
    split; [rewrite Hres3; exact Hdst|]. split; [exact Hfd3|]. split; [exact Hwas|].
    split; [intros Hne; destruct (Hne E)|].
    intros _. rewrite E, Hfd in Hfs. injection Hfs as _ Hdat. symmetry. exact Hdat.
  - exists (fd_ino fs), (fd_ino fd), ps, data, data.
    assert (inodes s !! fd_ino fs = Some (IFile ps data)) as Hold.
    { apply Hfiles; [exact E|exact Hfs]. }
    split; [exact Hsrc|]. split; [exact Hold|].
    split; [rewrite Hres3; apply Hmono; exact Hsrc|].
    split; [rewrite Hres3; exact Hdst|]. split; [exact Hfd3|]. split; [exact Hwas|].
    split; [|intros Heq; destruct (E Heq)].
    intros _. split; [reflexivity|]. unfold s3, s2. cbn.
    rewrite !lookup_insert_ne by (intros Heq; apply E; symmetry; exact Heq). exact Hfs.
Qed.

Lemma CopyFile_run src dst overwrite w :
  run (xfs.CopyFile src dst overwrite) w =
  match os.stat src (sys w) with
  | (_, Some e) => (Some e, sys w)
  | (info, None) =>
      if exists_on (sys w) dst && negb overwrite then (None, sys w)
      else match os.open src (sys w) with
           | (_, Some e) => (Some e, sys w)
           | (srcFile, None) =>
               match os.create dst (sys w) with
               | ((_, Some e), s1) => (Some e, s1)
               | ((dstFile, None), s1) =>
                   match io.copy dstFile srcFile s1 with
                   | ((_, Some e), s2) => (Some e, s2)
                   | ((_, None), s2) => os.chmod dst (FileInfo_Mode info) s2
                   end
               end
           end
  end.
Proof.
  unfold run, result, after. rewrite CopyFile_unfold.
  destruct (os.stat src (sys w)) as [info [e|]]; [reflexivity|].
  apply (copyFile_run src dst info overwrite (mkWorld (sys w) (calls w ++ [call_Stat src]))).
Qed.

(** X6.  Where the destination does not exist the [overwrite] flag makes
    no difference.  Whenever [CopyFile] gets past the test of the
    destination and succeeds, [Stat] reports for the destination the mode
    it reported for the source before the call: the permission bits are
    copied, whatever the mask.  The destination then holds what the source
    held, unless the two are one file. *)
Theorem CopyFile_copies_content_and_mode src dst overwrite w :
  (result (xfs.Exists dst) w = false ->
   xfs.CopyFile src dst false w = xfs.CopyFile src dst true w) /\
  (result (xfs.Exists dst) w && negb overwrite = false ->
   result (xfs.CopyFile src dst overwrite) w = None ->
   let w1 := after (xfs.CopyFile src dst overwrite) w in
   result (xfs.Stat dst) w1 = result (xfs.Stat src) w /\
   exists data,
     content (sys w1) dst = Some data /\
     (resolve true (sys w1) src <> resolve true (sys w1) dst ->
      content (sys w) src = Some data /\ content (sys w1) src = Some data)).
Proof.
  unfold result, after. rewrite Exists_run. cbn [fst]. split.
  - intros Hex. rewrite !CopyFile_unfold.
    destruct (os.stat src (sys w)) as [info [e|]]; [reflexivity|].
    rewrite !copyFile_unfold. cbv zeta. cbn [sys]. by rewrite Hex.
  - intros Hex Hok. pose proof (CopyFile_run src dst overwrite w) as Hrun.
    unfold run, result, after in Hrun. rewrite Hok, Hex in Hrun.
    unfold xfs.Stat, os.Stat, call. cbn [fst]. cbv zeta.
    destruct (os.stat src (sys w)) as [info [e|]] eqn:Hst; [discriminate Hrun|].
    symmetry in Hrun.
    apply copy_steps_inv in Hrun as (i & j & ps & old & data & Hs & Hi & Hs' & Hd' & Hj & _ & Hne & _).
    rewrite (stat_file_mode _ _ _ _ _ Hs Hi) in Hst. injection Hst as <-.
    cbn [FileInfo_Mode st_mode] in Hj. rewrite land_perm_idem in Hj.
    split.
    + pose proof (stat_file_mode _ _ _ _ _ Hd' Hj) as Hst'.
      rewrite land_perm_idem in Hst'. exact Hst'.
    + exists data. split; [exact (content_Found _ _ _ _ _ Hd' Hj)|].
      rewrite Hs', Hd'. intros Hneq.
      destruct (Hne ltac:(intros ->; by apply Hneq)) as [-> Hi'].
      split; [exact (content_Found _ _ _ _ _ Hs Hi)|exact (content_Found _ _ _ _ _ Hs' Hi')].
Qed.

Lemma CopyFile_copies_content_and_mode_witness :
  (xfs.CopyFile "testfile" "testfile_copy" false demo =
   xfs.CopyFile "testfile" "testfile_copy" true demo) /\
  result (xfs.Stat "tree/a.txt") (after (xfs.CopyFile "testfile" "tree/a.txt" true) demo) =
    result (xfs.Stat "testfile") demo.
Proof.
  split.
  - apply (proj1 (CopyFile_copies_content_and_mode "testfile" "testfile_copy" false demo)).
    vm_compute. reflexivity.
  - apply (proj2 (CopyFile_copies_content_and_mode "testfile" "tree/a.txt" true demo));
      vm_compute; reflexivity.
Defined.

(** X7.  A file copied onto itself is emptied.  When [src] and [dst] name
    the same file (the same path, or one a link to the other) and
    [CopyFile(src, dst, true)] succeeds, the file is left with no content:
    [Create] truncates it before [io.Copy] reads it. *)
Theorem CopyFile_onto_itself src dst w :
  resolve true (sys w) src = resolve true (sys w) dst ->
  result (xfs.CopyFile src dst true) w = None ->
  content (sys (after (xfs.CopyFile src dst true) w)) src = Some [] /\
  content (sys (after (xfs.CopyFile src dst true) w)) dst = Some [].
Proof.
  intros Hsame Hok. pose proof (CopyFile_run src dst true w) as Hrun.
  unfold run in Hrun. rewrite Hok, andb_false_r in Hrun.
  destruct (os.stat src (sys w)) as [info [e|]]; [discriminate Hrun|].
  symmetry in Hrun.
  apply copy_steps_inv in Hrun
    as (i & j & ps & old & data & Hs & Hi & Hs' & Hd' & Hj & Hwas & _ & Heq).
  rewrite Hs in Hsame.
  destruct Hwas as [Hwas|(d & c & Hwas)]; rewrite Hwas in Hsame; [|discriminate Hsame].
  injection Hsame as ->. rewrite (Heq eq_refl) in Hj.
  split; [exact (content_Found _ _ _ _ _ Hs' Hj)|exact (content_Found _ _ _ _ _ Hd' Hj)].
Qed.

Lemma CopyFile_onto_itself_witness :
  content (sys demo) "testfile" = Some (bytes_of_string "test data") /\
  content (sys (after (xfs.CopyFile "testfile" "testfile" true) demo)) "testfile" = Some [] /\
  content (sys (after (xfs.CopyFile "testsymlink" "testfile" true) demo)) "testfile" = Some [].
Proof.
  split; [vm_compute; reflexivity|]. split.
  - apply (CopyFile_onto_itself "testfile" "testfile" demo); vm_compute; reflexivity.
  - apply (CopyFile_onto_itself "testsymlink" "testfile" demo); vm_compute; reflexivity.
Defined.

(** ** What a path names *)



Lemma perm_not_symlink p : N.land (N.land p ModePerm) ModeSymlink = 0%N.
Proof.
  by rewrite <- N.land_assoc, (N.land_0_r p : N.land p (N.land ModePerm ModeSymlink) = 0%N).
Qed.

Lemma stat_of_symlink n :
  negb (N.eqb (N.land (st_mode (stat_of n)) ModeSymlink) 0) = is_symlink n.
Proof.
  destruct n as [p dat|p parent ents|t]; cbn [stat_of st_mode is_symlink].
  - by rewrite perm_not_symlink.
  - by rewrite N.land_lor_distr_l, perm_not_symlink.
  - reflexivity.
Qed.

Lemma IsSymlink_run p w :
  (result (xfs.IsSymlink p) w = true <->
   exists i target,
     resolve false (sys w) p = Found i /\ inodes (sys w) !! i = Some (ISymlink target)) /\
  sys (after (xfs.IsSymlink p) w) = sys w.
Proof.
  unfold result, after, xfs.IsSymlink, os.Lstat, call, bind, ret. cbn [fst snd sys].
  unfold os.lstat, sys_stat.
  destruct (resolve false (sys w) p) as [i|d c|e] eqn:Hres.
  - destruct (inodes (sys w) !! i) as [n|] eqn:Hi; cbn [is_some fst snd sys FileInfo_Mode].
    + rewrite stat_of_symlink. split; [|reflexivity]. split.
      * destruct n as [| |t]; try (intros [=]; fail). intros _. by exists i, t.
      * intros (i' & t & [= <-] & Hi'). rewrite Hi in Hi'. by injection Hi' as ->.
    + split; [|reflexivity]. split; [intros [=]|].
      intros (i' & t & [= <-] & Hi'). rewrite Hi in Hi'. discriminate Hi'.
  - cbn. split; [|reflexivity]. split; [intros [=]|]. intros (i' & t & [=] & _).
  - cbn. split; [|reflexivity]. split; [intros [=]|]. intros (i' & t & [=] & _).
Qed.



(** ** The result of [Resolve] *)

Lemma abs_IsAbs path s p :
  (forall d i, cwd s = Some (d, i) -> filepath.IsAbs d = true) ->
  filepath.abs path s = (p, None) -> filepath.IsAbs p = true.
Proof.
  intros Hcwd. unfold filepath.abs.
  destruct (filepath.IsAbs path) eqn:Habs.
  - intros [= <-]. by rewrite IsAbs_Clean.
  - unfold os.getwd. destruct (cwd s) as [[d i]|]; [|intros [=]].
    intros [= <-]. apply IsAbs_Join_abs. by apply (Hcwd d i).
Qed.

(** X10.  On a host whose working directory has an absolute name, as
    [os.Getwd] reports it, a path that [Resolve] returns without an error
    is absolute.  [Resolve] returns such a path as it is, whatever the base
    and with no call to the host: resolving twice is resolving once. *)
Theorem Resolve_result_is_absolute relative base w p :
  (forall d i, cwd (sys w) = Some (d, i) -> filepath.IsAbs d = true) ->
  result (xfs.Resolve relative base) w = Returned (p, None) ->
  filepath.IsAbs p = true /\
  forall base' w', xfs.Resolve p base' w' = (Returned (p, None), w').
Proof.
  intros Hcwd Hres.
  assert (filepath.IsAbs p = true) as Hp.
  { revert Hres. unfold result. rewrite Resolve_unfold.
    destruct (filepath.IsAbs relative) eqn:Habs; [by intros [= <-]|].
    assert (sys (snd (resolve_base base w)) = sys w) as Hsys.
    { unfold resolve_base. by destruct (String.eqb base ""). }
    destruct (resolve_base base w) as [b w1]. cbn [fst snd] in *.
    destruct (xfs.prefixed relative tilde) as [[|]|]; [| |intros [=]].
    - destruct (os.userHomeDir (sys w1)) as [home [e|]]; [intros [=]|].
      cbn [fst]. rewrite Hsys. intros [= H]. by eapply abs_IsAbs.
    - destruct (xfs.prefixed relative dot) as [[|]|]; [| |intros [=]];
        cbn [fst]; rewrite Hsys; intros [= H]; by eapply abs_IsAbs. }
  split; [exact Hp|]. intros base' w'. by rewrite Resolve_unfold, Hp.
Qed.

Lemma Resolve_result_is_absolute_witness :
  filepath.IsAbs "/home/user/testfile" = true /\
  xfs.Resolve "/home/user/testfile" "elsewhere" lost = (Returned ("/home/user/testfile", None), lost).
Proof.
  destruct (Resolve_result_is_absolute "testfile" "" demo "/home/user/testfile") as [H1 H2].
  - intros d i H. vm_compute in H. by injection H as <- _.
  - vm_compute. reflexivity.
  - split; [exact H1|apply H2].
Defined.

(** ** The walk, step by step *)

Lemma walk_S fuel path info fn w :
  filepath.walk (S fuel) path info fn w =
  if negb (FileInfo_IsDir info) then fn path info None w
  else
    let '(names, err) := filepath.readDirNames (sys w) path in
    let '(err1, w1) := fn path info err w in
    if is_some err || is_some err1 then (err1, w1)
    else walk_names (fun p i => filepath.walk fuel p i fn) fn path names w1.
Proof.
  cbn [filepath.walk]. destruct (negb (FileInfo_IsDir info)); [reflexivity|].
  unfold bind at 1, get_sys.
  destruct (filepath.readDirNames (sys w) path) as [names err].
  unfold bind at 1. destruct (fn path info err w) as [err1 w1].
  destruct (is_some err || is_some err1); [reflexivity|].
  clear w. revert w1. induction names as [|name rest IH]; intros w; [reflexivity|].
  cbn [walk_names]. unfold bind, get_sys.
  destruct (os.lstat (filepath.Join path name) (sys w)) as [fileInfo lerr].
  destruct (is_some lerr).
  - destruct (fn (filepath.Join path name) fileInfo lerr w) as [err2 w2].
    destruct (is_some err2 && negb (filepath.is_SkipDir err2)); [reflexivity|exact (IH w2)].
  - destruct (filepath.walk fuel (filepath.Join path name) fileInfo fn w) as [err2 w2].
    destruct (is_some err2 && _); [reflexivity|exact (IH w2)].
Qed.

Lemma Walk_unfold root fn w :
  filepath.Walk root fn w =
  let w0 := mkWorld (sys w) (calls w ++ [call_Walk root]) in
  let '(err, w1) :=
    match os.lstat root (sys w) with
    | (info, Some e) => fn root None (Some e) w0
    | (info, None) => filepath.walk (S (size (inodes (sys w)))) root info fn w0
    end in
  (if filepath.is_SkipDir err || filepath.is_SkipAll err then None else err, w1).
Proof.
  unfold filepath.Walk, bind, trace, get_sys, ret. cbn [sys].
  destruct (os.lstat root (sys w)) as [info [e|]]; cbn [is_some].
  - destruct (fn root None (Some e) _) as [err w1].
    by destruct (filepath.is_SkipDir err || filepath.is_SkipAll err).
  - destruct (filepath.walk _ root info fn _) as [err w1].
    by destruct (filepath.is_SkipDir err || filepath.is_SkipAll err).
Qed.

(** A relation between hosts that every visit keeps is kept by the walk. *)
Section walk_preserves.

Variable R : Sys -> Sys -> Prop.
Hypothesis R_refl : forall s, R s s.
Hypothesis R_trans : forall s1 s2 s3, R s1 s2 -> R s2 s3 -> R s1 s3.
Variable fn : filepath.WalkFunc.
Hypothesis Hfn : forall p i e w, R (sys w) (sys (after (fn p i e) w)).

Lemma walk_names_preserves visit path names :
  (forall p i w, R (sys w) (sys (after (visit p i) w))) ->
  forall w, R (sys w) (sys (after (walk_names visit fn path names) w)).
Proof.
  intros Hvisit. induction names as [|name rest IH]; intros w; [apply R_refl|].
  unfold after. cbn [walk_names]. unfold bind, get_sys.
  destruct (os.lstat (filepath.Join path name) (sys w)) as [fileInfo lerr].
  destruct (is_some lerr).
  - pose proof (Hfn (filepath.Join path name) fileInfo lerr w) as H1. unfold after in H1.
    destruct (fn (filepath.Join path name) fileInfo lerr w) as [e1 w1]. cbn [snd] in H1.
    destruct (is_some e1 && negb (filepath.is_SkipDir e1)); [exact H1|].
    eapply R_trans; [exact H1|apply (IH w1)].
  - pose proof (Hvisit (filepath.Join path name) fileInfo w) as H1. unfold after in H1.
    destruct (visit (filepath.Join path name) fileInfo w) as [e1 w1]. cbn [snd] in H1.
    destruct (is_some e1 && _); [exact H1|].
    eapply R_trans; [exact H1|apply (IH w1)].
Qed.

Lemma walk_preserves fuel :
  forall path info w, R (sys w) (sys (after (filepath.walk fuel path info fn) w)).
Proof.
  induction fuel as [|fuel IH]; intros path info w; [apply R_refl|].
  unfold after. rewrite walk_S.
  destruct (negb (FileInfo_IsDir info)); [apply Hfn|].
  destruct (filepath.readDirNames (sys w) path) as [names err].
  pose proof (Hfn path info err w) as H1. unfold after in H1.
  destruct (fn path info err w) as [e1 w1]. cbn [snd] in H1.
  destruct (is_some err || is_some e1); [exact H1|].
  eapply R_trans; [exact H1|].
  apply (walk_names_preserves _ path names IH w1).
Qed.

Lemma Walk_preserves root w : R (sys w) (sys (after (filepath.Walk root fn) w)).
Proof.
  unfold after. rewrite Walk_unfold. cbv zeta.
  set (w0 := mkWorld (sys w) (calls w ++ [call_Walk root])).
  destruct (os.lstat root (sys w)) as [info [e|]].
  - pose proof (Hfn root None (Some e) w0) as H1. unfold after in H1.
    destruct (fn root None (Some e) w0) as [e1 w1]. exact H1.
  - pose proof (walk_preserves (S (size (inodes (sys w)))) root info w0) as H1.
    unfold after in H1. destruct (filepath.walk _ root info fn w0) as [e1 w1]. exact H1.
Qed.

End walk_preserves.

(** ** [CopyDir] on a source that is no directory *)

Lemma Rel_self path : filepath.Rel path path = (".", None).
Proof. unfold filepath.Rel. by rewrite String.eqb_refl. Qed.

Lemma not_skip_result (err : error) :
  filepath.is_skip err = false -> filepath.is_SkipDir err || filepath.is_SkipAll err = false.
Proof. by destruct err as [[]|]. Qed.

Lemma CopyDir_unfold_no_directory src dst overwrite w :
  (forall info e, os.lstat src (sys w) = (info, Some e) ->
     xfs.CopyDir src dst overwrite w =
       (Some e, mkWorld (sys w) (calls w ++ [call_Walk src]))) /\
  (forall info, os.lstat src (sys w) = (info, None) -> FileInfo_IsDir info = false ->
     xfs.CopyDir src dst overwrite w =
       xfs.copyFile src (filepath.Join dst ".") info overwrite
         (mkWorld (sys w) (calls w ++ [call_Walk src]))).
Proof.
  unfold xfs.CopyDir. rewrite Walk_unfold. cbv zeta. split.
  - intros info e Hl. rewrite Hl. rewrite CopyDir_func1_error.
    pose proof (lstat_not_skip (sys w) src) as Hns. rewrite Hl in Hns. cbn [snd] in Hns.
    by rewrite (not_skip_result _ Hns).
  - intros info Hl Hdir. rewrite Hl, walk_S, Hdir. cbn [negb].
    unfold xfs.CopyDir_func1. cbn [is_some]. rewrite Rel_self. cbn [is_some]. rewrite Hdir.
    pose proof (copyFile_not_skip src (filepath.Join dst ".") info overwrite
                  (mkWorld (sys w) (calls w ++ [call_Walk src]))) as Hns.
    unfold result in Hns.
    destruct (xfs.copyFile src (filepath.Join dst ".") info overwrite _) as [err w1].
    cbn [fst] in Hns. by rewrite (not_skip_result _ Hns).
Qed.

(** X12.  [CopyDir] on a source that is no directory.  When [Lstat] fails
    on the source, [CopyDir] returns that error and the host is as it was.
    When the source is not a directory for [Lstat], [CopyDir] is [copyFile]
    from the source to the cleaned destination, with the mode [Lstat]
    reported.  So a link that [CopyDir] copies becomes a regular file with
    all nine permission bits set, the mode of the link, not of the file it
    leads to. *)
Theorem CopyDir_of_no_directory src dst overwrite w :
  (forall info e, result (xfs.Lstat src) w = (info, Some e) ->
     xfs.CopyDir src dst overwrite w =
       (Some e, mkWorld (sys w) (calls w ++ [call_Walk src]))) /\
  (forall info, result (xfs.Lstat src) w = (info, None) -> FileInfo_IsDir info = false ->
     xfs.CopyDir src dst overwrite w =
       xfs.copyFile src (filepath.Join dst ".") info overwrite
         (mkWorld (sys w) (calls w ++ [call_Walk src]))) /\
  (result (xfs.IsSymlink src) w = true ->
   result (xfs.Exists (filepath.Join dst ".")) w && negb overwrite = false ->
   result (xfs.CopyDir src dst overwrite) w = None ->
   result (xfs.Stat (filepath.Join dst ".")) (after (xfs.CopyDir src dst overwrite) w) =
     (Some (mkStat ModePerm), None)).
Proof.
  destruct (CopyDir_unfold_no_directory src dst overwrite w) as [Herr Hfile].
  split; [exact Herr|]. split; [exact Hfile|].
  intros Hlink Hex Hok.
  apply (proj1 (IsSymlink_run src w)) in Hlink as (i & t & Hres & Hi).
  assert (os.lstat src (sys w) = (Some (stat_of (ISymlink t)), None)) as Hl.
  { unfold os.lstat. by rewrite (sys_stat_Found _ _ _ _ _ Hres Hi). }
  specialize (Hfile _ Hl eq_refl).
  unfold result, after in *. rewrite Hfile in *.
  set (w0 := mkWorld (sys w) (calls w ++ [call_Walk src])) in *.
  pose proof (copyFile_run src (filepath.Join dst ".") (Some (stat_of (ISymlink t))) overwrite w0)
    as Hrun.
  unfold run, result, after in Hrun. rewrite Hok in Hrun.
  rewrite Exists_run in Hex. cbn [fst] in Hex.
  change (sys w0) with (sys w) in Hrun. rewrite Hex in Hrun. symmetry in Hrun.
  apply copy_steps_inv in Hrun as (_ & j & _ & _ & data & _ & _ & _ & Hd' & Hj & _).
  unfold xfs.Stat, os.Stat, call. cbn [fst].
  exact (stat_file_mode _ _ _ _ _ Hd' Hj).
Qed.

Lemma CopyDir_of_no_directory_witness :
  result (xfs.Stat "testfile") demo = (Some (mkStat 420), None) /\
  result (xfs.Stat "copy") (after (xfs.CopyDir "testsymlink" "copy" true) demo) =
    (Some (mkStat ModePerm), None) /\
  xfs.CopyDir "nothing" "copy" true demo =
    (Some (PathError "lstat" "nothing" ENOENT), mkWorld (sys demo) [call_Walk "nothing"]).
Proof.
  split; [vm_compute; reflexivity|]. split.
  - apply (proj2 (proj2 (CopyDir_of_no_directory "testsymlink" "copy" true demo)));
      vm_compute; reflexivity.
  - apply (proj1 (CopyDir_of_no_directory "nothing" "copy" true demo) None).
    vm_compute. reflexivity.
Defined.

(** ** [MkdirAll] *)

Lemma MkdirAll_run dir perm w :
  run (xfs.MkdirAll dir perm) w = os.mkdirAll (String.length dir) dir perm (sys w).
Proof.
  unfold run, result, after, xfs.MkdirAll, os.MkdirAll, call.
  by destruct (os.mkdirAll (String.length dir) dir perm (sys w)).
Qed.

(** X13.  [MkdirAll] on a directory, or a link to one, does nothing and
    succeeds; on a path that exists and is no directory it fails with
    [ENOTDIR] and does nothing.  In every case it adds nothing but
    directories, each with the permission bits of [perm] less the mask, and
    after a success the path is a directory, so that a second call does
    nothing.  [MkdirAllDefault] is [MkdirAll] with [rwxr-xr-x]. *)
Theorem MkdirAll_makes_a_directory dir perm w :
  (result (xfs.IsDir dir) w = true ->
     run (xfs.MkdirAll dir perm) w = (None, sys w)) /\
  (result (xfs.IsFile dir) w = true ->
     run (xfs.MkdirAll dir perm) w = (Some (PathError "mkdir" dir ENOTDIR), sys w)) /\
  grows_dirs perm (sys w) (sys (after (xfs.MkdirAll dir perm) w)) /\
  (result (xfs.MkdirAll dir perm) w = None ->
     let w1 := after (xfs.MkdirAll dir perm) w in
     result (xfs.IsDir dir) w1 = true /\ run (xfs.MkdirAll dir perm) w1 = (None, sys w1)) /\
  (result (xfs.MkdirAllDefault dir) w = None ->
     result (xfs.IsDir dir) (after (xfs.MkdirAllDefault dir) w) = true /\
     grows_dirs 493 (sys w) (sys (after (xfs.MkdirAllDefault dir) w))).
Proof.
  assert (forall w, result (xfs.IsDir dir) w = true ->
            run (xfs.MkdirAll dir perm) w = (None, sys w)) as Hdir.
  { clear. intros w. rewrite IsDir_run, MkdirAll_run, mkdirAll_eq. unfold os.stat.
    destruct (sys_stat true (sys w) dir) as [e|st]; [intros [=]|]. by intros ->. }
  assert (forall perm w, result (xfs.MkdirAll dir perm) w = None ->
            result (xfs.IsDir dir) (after (xfs.MkdirAll dir perm) w) = true) as Hmade.
  { clear. intros perm w Hok. pose proof (MkdirAll_run dir perm w) as Hrun.
    unfold run in Hrun. rewrite Hok in Hrun. symmetry in Hrun.
    apply mkdirAll_is_dir in Hrun as (st & Hst & Hd).
    rewrite IsDir_run. unfold os.stat. by rewrite Hst. }
  assert (forall perm w, grows_dirs perm (sys w) (sys (after (xfs.MkdirAll dir perm) w)))
    as Hgrows.
  { clear. intros perm w. pose proof (MkdirAll_run dir perm w) as Hrun. unfold run in Hrun.
    symmetry in Hrun. by eapply mkdirAll_grows. }
  split; [apply Hdir|]. split; [|split; [apply Hgrows|split]].
  - rewrite IsFile_run, MkdirAll_run, mkdirAll_eq. unfold os.stat.
    destruct (sys_stat true (sys w) dir) as [e|st]; [intros [=]|].
    intros H. apply negb_true_iff in H. by rewrite H.
  - intros Hok w1. split; [by apply Hmade|]. apply Hdir. by apply Hmade.
  - intros Hok. split; [by apply Hmade|apply Hgrows].
Qed.

Lemma MkdirAll_makes_a_directory_witness :
  result (xfs.IsDir "testdir2000/subdir")
    (after (xfs.MkdirAllDefault "testdir2000/subdir") demo) = true /\
  run (xfs.MkdirAll "testfile" 493) demo =
    (Some (PathError "mkdir" "testfile" ENOTDIR), sys demo).
Proof.
  split.
  - destruct (proj2 (proj2 (proj2 (proj2
                (MkdirAll_makes_a_directory "testdir2000/subdir" 493 demo)))))
      as [H _]; [vm_compute; reflexivity|exact H].
  - apply (proj1 (proj2 (MkdirAll_makes_a_directory "testfile" 493 demo))).
    vm_compute. reflexivity.
Defined.

(** ** [Copy] by the kind of its source *)

(** X11.  What [Copy] does on each kind of source.  When [Stat] fails on
    the source, [Copy] returns that error and the host is as it was.  When
    the source is a regular file, or a link that leads to one: if the
    destination exists and [overwrite] is false, [Copy] succeeds and the
    host is as it was; otherwise, after a successful [Copy], [Stat] reports
    for the destination the mode it reported for the source, and the
    destination holds what the source held, unless the two are one file.
    When the source is a link that leads to a directory, nothing of the
    directory is copied: [Copy] takes the source for a directory by
    [Stat], the walk of [CopyDir] takes it for a file by [Lstat], and the
    copy of a directory as a file cannot succeed.  [Copy] then returns
    success only when the cleaned destination exists and [overwrite] is
    false, having done nothing. *)
Theorem Copy_by_kind_of_source src dst overwrite w :
  (forall e, snd (result (xfs.Stat src) w) = Some e ->
     run (xfs.Copy src dst overwrite) w = (Some e, sys w)) /\
  (result (xfs.IsFile src) w = true ->
   if result (xfs.Exists dst) w && negb overwrite
   then run (xfs.Copy src dst overwrite) w = (None, sys w)
   else
     result (xfs.Copy src dst overwrite) w = None ->
     let w1 := after (xfs.Copy src dst overwrite) w in
     result (xfs.Stat dst) w1 = result (xfs.Stat src) w /\
     exists data,
       content (sys w1) dst = Some data /\
       (resolve true (sys w1) src <> resolve true (sys w1) dst ->
        content (sys w) src = Some data /\ content (sys w1) src = Some data)) /\
  (result (xfs.IsSymlink src) w = true -> result (xfs.IsDir src) w = true ->
   if result (xfs.Exists (filepath.Join dst ".")) w && negb overwrite
   then run (xfs.Copy src dst overwrite) w = (None, sys w)
   else result (xfs.Copy src dst overwrite) w <> None).
Proof.
  pose proof (Copy_unfold src dst overwrite w) as Hun.
  set (w0 := mkWorld (sys w) (calls w ++ [call_Stat src])) in Hun.
  split; [|split].
  - intros e. unfold run, result, after, xfs.Stat, os.Stat, call. cbn [fst snd].
    rewrite Hun. destruct (os.stat src (sys w)) as [info [e'|]]; cbn [fst snd]; [|intros [=]].
    intros [= ->]. reflexivity.
  - rewrite IsFile_run. unfold run, result, after. rewrite Exists_run. cbn [fst].
    unfold xfs.Stat, os.Stat, call. cbn [fst].
    destruct (os.stat src (sys w)) as [info [e|]] eqn:Hst; [intros [=]|].
    intros Hfile. apply negb_true_iff in Hfile. rewrite Hfile in Hun. rewrite Hun.
    pose proof (CopyFile_run src dst overwrite w0) as Hrun.
    unfold run, result, after in Hrun. change (sys w0) with (sys w) in Hrun.
    rewrite Hst in Hrun.
    destruct (exists_on (sys w) dst && negb overwrite); [exact Hrun|].
    intros Hok. rewrite Hok in Hrun. symmetry in Hrun. cbv zeta.
    apply copy_steps_inv in Hrun
      as (i & j & ps & old & data & Hs & Hi & Hs' & Hd' & Hj & _ & Hne & _).
    rewrite (stat_file_mode _ _ _ _ _ Hs Hi) in Hst. injection Hst as <-.
    cbn [FileInfo_Mode st_mode] in Hj. rewrite land_perm_idem in Hj.
    split.
    + pose proof (stat_file_mode _ _ _ _ _ Hd' Hj) as Hst'.
      rewrite land_perm_idem in Hst'. exact Hst'.
    + exists data. split; [exact (content_Found _ _ _ _ _ Hd' Hj)|].
      rewrite Hs', Hd'. intros Hneq.
      destruct (Hne ltac:(intros ->; by apply Hneq)) as [-> Hi'].
      split; [exact (content_Found _ _ _ _ _ Hs Hi)|exact (content_Found _ _ _ _ _ Hs' Hi')].
  - intros Hlink. apply (proj1 (IsSymlink_run src w)) in Hlink as (i & t & Hres & Hi).
    rewrite IsDir_run. unfold run, result, after. rewrite Exists_run. cbn [fst].
    destruct (os.stat src (sys w)) as [info [e|]] eqn:Hst; [intros [=]|].
    intros Hdir. rewrite Hdir in Hun. rewrite Hun.
    assert (os.lstat src (sys w0) = (Some (stat_of (ISymlink t)), None)) as Hl.
    { unfold os.lstat. change (sys w0) with (sys w).
      by rewrite (sys_stat_Found _ _ _ _ _ Hres Hi). }
    rewrite (proj2 (CopyDir_unfold_no_directory src dst overwrite w0) _ Hl eq_refl).
    set (w1 := mkWorld (sys w0) (calls w0 ++ [call_Walk src])).
    pose proof (copyFile_run src (filepath.Join dst ".") (Some (stat_of (ISymlink t)))
                  overwrite w1) as Hrun.
    unfold run, result, after in Hrun. change (sys w1) with (sys w) in Hrun.
    destruct (exists_on (sys w) (filepath.Join dst ".") && negb overwrite); [exact Hrun|].
    intros Hok. rewrite Hok in Hrun. symmetry in Hrun.
    apply copy_steps_inv in Hrun as (i' & j & ps & old & data & Hs & Hi' & _).
    rewrite (stat_file_mode _ _ _ _ _ Hs Hi') in Hst. injection Hst as <-.
    rewrite perm_not_dir in Hdir. discriminate Hdir.
Qed.

Lemma Copy_by_kind_of_source_witness :
  run (xfs.Copy "nothing" "copy" true) demo =
    (Some (PathError "stat" "nothing" ENOENT), sys demo) /\
  result (xfs.Stat "copy") (after (xfs.Copy "testsymlink" "copy" false) demo) =
    result (xfs.Stat "testsymlink") demo /\
  run (xfs.Copy "testfile" "tree/a.txt" false) demo = (None, sys demo) /\
  result (xfs.Copy "tree/linkd" "out" true) demo <> None /\
  run (xfs.Copy "tree/linkd" "testdir" false) demo = (None, sys demo).
Proof.
  split; [|split; [|split; [|split]]].
  - apply (proj1 (Copy_by_kind_of_source "nothing" "copy" true demo)).
    vm_compute. reflexivity.
  - pose proof (proj1 (proj2 (Copy_by_kind_of_source "testsymlink" "copy" false demo))) as H.
    assert (result (xfs.Exists "copy") demo && negb false = false) as E
      by (vm_compute; reflexivity).
    rewrite E in H. destruct H as [H _]; [vm_compute; reflexivity..|exact H].
  - pose proof (proj1 (proj2 (Copy_by_kind_of_source "testfile" "tree/a.txt" false demo))) as H.
    assert (result (xfs.Exists "tree/a.txt") demo && negb false = true) as E
      by (vm_compute; reflexivity).
    rewrite E in H. apply H. vm_compute. reflexivity.
  - pose proof (proj2 (proj2 (Copy_by_kind_of_source "tree/linkd" "out" true demo))) as H.
    assert (result (xfs.Exists (filepath.Join "out" ".")) demo && negb true = false) as E
      by (vm_compute; reflexivity).
    rewrite E in H. apply H; vm_compute; reflexivity.
  - pose proof (proj2 (proj2 (Copy_by_kind_of_source "tree/linkd" "testdir" false demo))) as H.
    assert (result (xfs.Exists (filepath.Join "testdir" ".")) demo && negb false = true) as E
      by (vm_compute; reflexivity).
    rewrite E in H. apply H; vm_compute; reflexivity.
Defined.

(** ** [CopyDir] on a directory: the root *)

Lemma CopyDir_unfold_directory src dst overwrite w info :
  os.lstat src (sys w) = (info, None) -> FileInfo_IsDir info = true ->
  xfs.CopyDir src dst overwrite w =
  let w0 := mkWorld (sys w) (calls w ++ [call_Walk src]) in
  let '(names, err) := filepath.readDirNames (sys w) src in
  match err with
  | Some e => (Some e, w0)
  | None =>
      let '(err1, w1) := xfs.EnsureDir (filepath.Join dst ".") (FileInfo_Mode info) w0 in
      match err1 with
      | Some e => (Some e, w1)
      | None =>
          let '(err2, w2) :=
            walk_names
              (fun p i => filepath.walk (size (inodes (sys w))) p i
                            (xfs.CopyDir_func1 src dst overwrite))
              (xfs.CopyDir_func1 src dst overwrite) src names w1 in
          (if filepath.is_SkipDir err2 || filepath.is_SkipAll err2 then None else err2, w2)
      end
  end.
Proof.
  intros Hl Hdir. unfold xfs.CopyDir. rewrite Walk_unfold. cbv zeta.
  rewrite Hl, walk_S, Hdir. cbn [negb sys].
  pose proof (readDirNames_not_skip (sys w) src) as Hrd.
  destruct (filepath.readDirNames (sys w) src) as [names [e|]]; cbn [snd] in Hrd.
  - rewrite CopyDir_func1_error. cbn [is_some orb]. by rewrite (not_skip_result _ Hrd).
  - unfold xfs.CopyDir_func1 at 1. cbn [is_some]. rewrite Rel_self. cbn [is_some].
    rewrite Hdir.
    pose proof (EnsureDir_not_skip (filepath.Join dst ".") (FileInfo_Mode info)
                  (mkWorld (sys w) (calls w ++ [call_Walk src]))) as Hns.
    unfold result in Hns.
    destruct (xfs.EnsureDir (filepath.Join dst ".") (FileInfo_Mode info) _) as [[e|] w1];
      cbn [fst is_some orb] in *; [by rewrite (not_skip_result _ Hns)|reflexivity].
Qed.

(** X14.  [CopyDir] on a directory first ensures the cleaned destination
    with the mode of the source.  When the names of the source cannot be
    read, that error is the result and nothing is done; when ensuring the
    destination fails, that error is the result and nothing is copied.  For
    a source without entries [CopyDir] is that [EnsureDir] and no more: a
    destination that exists, be it a regular file, is left as it is and
    the call succeeds; a missing one is made a directory. *)
Theorem CopyDir_of_directory src dst overwrite w info :
  result (xfs.Lstat src) w = (info, None) -> FileInfo_IsDir info = true ->
  let w0 := mkWorld (sys w) (calls w ++ [call_Walk src]) in
  let root := xfs.EnsureDir (filepath.Join dst ".") (FileInfo_Mode info) in
  (forall names e, filepath.readDirNames (sys w) src = (names, Some e) ->
     xfs.CopyDir src dst overwrite w = (Some e, w0)) /\
  (forall names, filepath.readDirNames (sys w) src = (names, None) ->
     result root w0 <> None -> xfs.CopyDir src dst overwrite w = root w0) /\
  (filepath.readDirNames (sys w) src = ([], None) ->
     xfs.CopyDir src dst overwrite w = root w0 /\
     (result (xfs.Exists (filepath.Join dst ".")) w = true ->
        run (xfs.CopyDir src dst overwrite) w = (None, sys w)) /\
     (result (xfs.Exists (filepath.Join dst ".")) w = false ->
      result (xfs.CopyDir src dst overwrite) w = None ->
      result (xfs.IsDir (filepath.Join dst ".")) (after (xfs.CopyDir src dst overwrite) w) =
        true)).
Proof.
  intros Hl Hdir w0 root.
  pose proof (CopyDir_unfold_directory src dst overwrite w info Hl Hdir) as Hun.
  cbv zeta in Hun. fold w0 in Hun. fold root in Hun.
  split; [|split].
  - intros names e Hrd. by rewrite Hun, Hrd.
  - intros names Hrd Herr. rewrite Hun, Hrd. unfold result in Herr.
    destruct (root w0) as [[e|] w1]; [reflexivity|by destruct Herr].
  - intros Hrd.
    assert (xfs.CopyDir src dst overwrite w = root w0) as Heq.
    { rewrite Hun, Hrd. by destruct (root w0) as [[e|] w1]. }
    split; [exact Heq|].
    pose proof (EnsureDir_run (filepath.Join dst ".") (FileInfo_Mode info) w0) as Hrun.
    fold root in Hrun. change (sys w0) with (sys w) in Hrun.
    unfold run, result, after in *. rewrite Heq, Exists_run. cbn [fst].
    split.
    + intros Hex. by rewrite Hrun, Hex.
    + intros Hex Hok. rewrite Hex, Hok in Hrun. symmetry in Hrun.
      apply mkdirAll_is_dir in Hrun as (st & Hst & Hd).
      pose proof (IsDir_run (filepath.Join dst ".") (snd (root w0))) as HI.
      unfold result in HI. rewrite HI. unfold os.stat. by rewrite Hst.
Qed.

Lemma CopyDir_of_directory_witness :
  result (xfs.CopyDir "testdir" "testdir_copy" true) demo = None /\
  result (xfs.IsDir "testdir_copy") (after (xfs.CopyDir "testdir" "testdir_copy" true) demo) =
    true /\
  run (xfs.CopyDir "testdir" "testfile" true) demo = (None, sys demo).
Proof.
  destruct (CopyDir_of_directory "testdir" "testdir_copy" true demo
              (Some (mkStat (N.lor ModeDir 493))))
    as (_ & _ & H); [vm_compute; reflexivity..|].
  destruct H as (_ & _ & Hnew); [vm_compute; reflexivity|].
  split; [vm_compute; reflexivity|]. split.
  - apply Hnew; vm_compute; reflexivity.
  - destruct (CopyDir_of_directory "testdir" "testfile" true demo
                (Some (mkStat (N.lor ModeDir 493))))
      as (_ & _ & H); [vm_compute; reflexivity..|].
    destruct H as (_ & Hex & _); [vm_compute; reflexivity|].
    apply Hex. vm_compute. reflexivity.
Defined.

(** ** Reading what is not there *)

Lemma missing_not_opened filename s :
  exists_on s filename = false -> sys_open s filename = inl ENOENT.
Proof.
  unfold exists_on, os.stat, sys_stat, sys_open.
  destruct (resolve true s filename) as [i|d c|e].
  - destruct (inodes s !! i) as [n|]; [intros [=]|reflexivity].
  - reflexivity.
  - by destruct e.
Qed.

(** X15.  A path for which [Exists] is false cannot be read: [ReadFile],
    [ReadTextFile] and [ReadFileLines] return no data and the same error,
    of the not-found kind, and [Open] returns no file. *)
Theorem reading_what_does_not_exist filename w :
  result (xfs.Exists filename) w = false ->
  let e := PathError "open" filename ENOENT in
  os.IsNotExist (Some e) = true /\
  result (xfs.ReadFile filename) w = ([], Some e) /\
  result (xfs.ReadTextFile filename) w = ("", Some e) /\
  result (xfs.ReadFileLines filename) w = ([], Some e) /\
  result (xfs.Open filename) w = (None, Some e).
Proof.
  unfold result. rewrite Exists_run. cbn [fst]. intros Hex.
  apply missing_not_opened in Hex.
  rewrite ReadTextFile_unfold, ReadFileLines_unfold.
  unfold xfs.ReadFile, os.ReadFile, xfs.Open, os.Open, call, os.readFile, os.open.
  rewrite Hex. by cbn.
Qed.

Lemma reading_what_does_not_exist_witness :
  result (xfs.ReadFileLines "testfile999") demo =
    ([], Some (PathError "open" "testfile999" ENOENT)).
Proof.
  apply (reading_what_does_not_exist "testfile999" demo). vm_compute. reflexivity.
Defined.

(** ** The defaults *)

(** X16.  [EnsureFileDefault] gives a file it creates the mode [rw-r--r--]
    whatever the mask, and [EnsureDirDefault] makes the directories it
    creates with [rwxr-xr-x] less the mask; on a path that exists neither
    changes anything. *)
Theorem Ensure_defaults name w :
  (result (xfs.Exists name) w = true ->
     run (xfs.EnsureFileDefault name) w = (None, sys w) /\
     run (xfs.EnsureDirDefault name) w = (None, sys w)) /\
  (result (xfs.Exists name) w = false ->
     (result (xfs.EnsureFileDefault name) w = None ->
      let w1 := after (xfs.EnsureFileDefault name) w in
      result (xfs.Stat name) w1 = (Some (mkStat 420), None) /\
      content (sys w1) name = Some []) /\
     (result (xfs.EnsureDirDefault name) w = None ->
      let w1 := after (xfs.EnsureDirDefault name) w in
      result (xfs.IsDir name) w1 = true /\ grows_dirs 493 (sys w) (sys w1))).
Proof.
  unfold xfs.EnsureFileDefault, xfs.EnsureDirDefault.
  pose proof (EnsureFile_run name 420 w) as HF. pose proof (EnsureDir_run name 493 w) as HD.
  unfold result at 1 2. rewrite Exists_run. cbn [fst].
  split; intros Hex; rewrite Hex in HF, HD; [by split|]. split.
  - intros Hok. unfold run in HF. rewrite Hok in HF. symmetry in HF.
    apply create_chmod_file in HF as (i & Hres & Hi). cbv zeta.
    split; [|exact (content_Found _ _ _ _ _ Hres Hi)].
    unfold result, xfs.Stat, os.Stat, call. cbn [fst].
    exact (stat_file_mode _ _ _ _ _ Hres Hi).
  - intros Hok. unfold run in HD. rewrite Hok in HD. symmetry in HD. cbv zeta. split.
    + apply mkdirAll_is_dir in HD as (st & Hst & Hd).
      rewrite IsDir_run. unfold os.stat. by rewrite Hst.
    + by eapply mkdirAll_grows.
Qed.

Lemma Ensure_defaults_witness :
  result (xfs.Stat "testfile10") (after (xfs.EnsureFileDefault "testfile10") demo) =
    (Some (mkStat 420), None) /\
  result (xfs.IsDir "testdir10") (after (xfs.EnsureDirDefault "testdir10") demo) = true.
Proof.
  split.
  - destruct (proj2 (Ensure_defaults "testfile10" demo)) as [Hfile _];
      [vm_compute; reflexivity|].
    destruct Hfile as [H _]; [vm_compute; reflexivity|exact H].
  - destruct (proj2 (Ensure_defaults "testdir10" demo)) as [_ Hdir];
      [vm_compute; reflexivity|].
    destruct Hdir as [H _]; [vm_compute; reflexivity|exact H].
Defined.

(** ** Nothing is removed *)

Lemma keeps_names_refl s : keeps_names s s.
Proof.
  repeat split; [auto|]. intros i. destruct (inodes s !! i) as [[p dat|p parent ents|t]|]; eauto.
Qed.

Lemma keeps_names_trans s1 s2 s3 :
  keeps_names s1 s2 -> keeps_names s2 s3 -> keeps_names s1 s3.
Proof.
  intros (Hr1 & Hc1 & Hu1 & He1 & Hn1 & H1) (Hr2 & Hc2 & Hu2 & He2 & Hn2 & H2).
  split; [congruence|]. split; [congruence|]. split; [congruence|]. split; [congruence|].
  split; [intros follow q i Hq; apply Hn2, Hn1; exact Hq|].
  intros i. specialize (H1 i). specialize (H2 i).
  destruct (inodes s1 !! i) as [[p dat|p parent ents|t]|]; [| | |exact I].
  - destruct H1 as (p1 & d1 & H1). rewrite H1 in H2. exact H2.
  - destruct H1 as (ents' & H1 & Hsub). rewrite H1 in H2.
    destruct H2 as (ents'' & H2 & Hsub'). exists ents''. split; [exact H2|]. by etrans.
  - rewrite H1 in H2. exact H2.
Qed.

Lemma file_update_keeps s i p dat p' dat' :
  inodes s !! i = Some (IFile p dat) ->
  keeps_names s (set_inodes s (<[i := IFile p' dat']> (inodes s))).
Proof.
  intros Hi. split; [reflexivity|]. split; [reflexivity|]. split; [reflexivity|].
  split; [reflexivity|]. split.
  - intros follow q j Hq. rewrite (resolve_file_update _ _ _ _ _ _ _ _ Hi). exact Hq.
  - intros j. cbn [inodes set_inodes]. destruct (decide (j = i)) as [->|Hne].
    + rewrite Hi, lookup_insert_eq. eauto.
    + rewrite lookup_insert_ne by (intros Heq; apply Hne; symmetry; exact Heq).
      destruct (inodes s !! j) as [[p0 d0|p0 parent ents|t]|]; eauto.
Qed.

Lemma link_new_keeps s d name node n s' :
  link_new s d name node = inr (n, s') ->
  is_symlink node = false ->
  (exists perm parent ents, inodes s !! d = Some (IDir perm parent ents) /\ ents !! name = None) ->
  keeps_names s s'.
Proof.
  intros Hl Hnode Hdir.
  pose proof (link_new_resolve _ _ _ _ _ _ Hl Hnode Hdir) as Hext.
  destruct Hdir as (dp & dpar & dents & Hd & Hname).
  unfold link_new in Hl. rewrite Hd in Hl.
  destruct (may_write dp); [|discriminate Hl]. revert Hl Hext. intros [= <- <-] Hext.
  split; [reflexivity|]. split; [reflexivity|]. split; [reflexivity|].
  split; [reflexivity|]. split.
  - intros follow q i Hq. specialize (Hext follow q). rewrite Hq in Hext. exact Hext.
  - intros i. cbn [inodes set_inodes].
    pose proof (fresh_ino_None (inodes s)) as Hfresh.
    destruct (decide (i = fresh_ino (inodes s))) as [->|Hi].
    { by rewrite Hfresh. }
    rewrite lookup_insert_ne by (intros Heq; apply Hi; symmetry; exact Heq).
    destruct (decide (i = d)) as [->|Hid].
    { rewrite Hd, lookup_insert_eq. eexists. split; [reflexivity|]. by apply insert_subseteq. }
    rewrite lookup_insert_ne by (intros Heq; apply Hid; symmetry; exact Heq).
    destruct (inodes s !! i) as [[p0 d0|p0 parent ents|t]|]; eauto.
Qed.

Lemma sys_creat_keeps rdwr s path perm f s' :
  sys_creat rdwr s path perm = inr (f, s') -> keeps_names s s'.
Proof.
  unfold sys_creat. destruct (resolve true s path) as [i|d name|e] eqn:Hres; [| |intros [=]].
  - destruct (inodes s !! i) as [[p dat| |]|] eqn:Hi; try (intros [=]; fail).
    destruct (may_write p && (negb rdwr || may_read p)); [|intros [=]].
    intros [= <- <-]. by eapply file_update_keeps.
  - destruct (link_new s d name _) as [e|[n s1]] eqn:Hl; [intros [=]|].
    intros [= <- <-]. eapply link_new_keeps; [exact Hl|reflexivity|].
    exact (resolve_Absent_inv _ _ _ _ _ Hres).
Qed.

Lemma sys_mkdir_keeps s path perm s' :
  sys_mkdir s path perm = inr s' -> keeps_names s s'.
Proof.
  unfold sys_mkdir. destruct (resolve false s path) as [i|d name|e] eqn:Hres;
    try (intros [=]; fail).
  destruct (link_new s d name _) as [e|[n s1]] eqn:Hl; [intros [=]|]. intros [= <-].
  eapply link_new_keeps; [exact Hl|reflexivity|].
  exact (resolve_Absent_inv _ _ _ _ _ Hres).
Qed.

Lemma mkdirAll_keeps perm fuel :
  forall path s err s', os.mkdirAll fuel path perm s = (err, s') -> keeps_names s s'.
Proof.
  induction fuel as [|fuel IH]; intros path s err s'; rewrite mkdirAll_eq.
  - destruct (sys_stat true s path) as [e0|dir].
    + cbv zeta iota beta.
      destruct (sys_mkdir s path perm) as [e|s2] eqn:Hmk.
      * destruct (sys_stat false s path) as [e1|dir]; [|destruct (FileInfo_IsDir _)];
          intros [= <- <-]; apply keeps_names_refl.
      * intros [= <- <-]. by eapply sys_mkdir_keeps.
    + destruct (FileInfo_IsDir _); intros [= <- <-]; apply keeps_names_refl.
  - destruct (sys_stat true s path) as [e0|dir].
    + cbv zeta.
      match goal with
      | |- match ?x with _ => _ end = _ -> _ => destruct x as [[e|] s1] eqn:Hparent
      end.
      * intros [= <- <-].
        destruct (negb (String.eqb (os.parent_of path) "")); [by eapply IH|].
        discriminate Hparent.
      * assert (keeps_names s s1) as Hg1.
        { destruct (negb (String.eqb (os.parent_of path) "")); [by eapply IH|].
          revert Hparent. intros [= <-]. apply keeps_names_refl. }
        destruct (sys_mkdir s1 path perm) as [e|s2] eqn:Hmk.
        -- destruct (sys_stat false s1 path) as [e1|dir]; [|destruct (FileInfo_IsDir _)];
             intros [= <- <-]; exact Hg1.
        -- intros [= <- <-]. eapply keeps_names_trans; [exact Hg1|]. by eapply sys_mkdir_keeps.
    + destruct (FileInfo_IsDir _); intros [= <- <-]; apply keeps_names_refl.
Qed.

Lemma writeFile_keeps name data perm s err s' :
  os.writeFile name data perm s = (err, s') -> keeps_names s s'.
Proof.
  unfold os.writeFile.
  destruct (sys_creat false s name perm) as [e|[f s1]] eqn:Hc;
    [intros [= <- <-]; apply keeps_names_refl|].
  pose proof (sys_creat_keeps _ _ _ _ _ _ Hc) as H1.
  destruct (sys_write s1 f data) as [e|s2] eqn:Hw; intros [= <- <-]; [exact H1|].
  apply sys_write_inv in Hw as (p & old & Hf & ->).
  eapply keeps_names_trans; [exact H1|]. by eapply file_update_keeps.
Qed.

(** [Create] and then [Chmod] of the same name, as [EnsureFile] does. *)
Lemma create_chmod_keeps filename perm s err s' :
  (match os.create filename s with
   | ((_, Some e), s1) => (Some e, s1)
   | ((_, None), s1) => os.chmod filename perm s1
   end) = (err, s') ->
  keeps_names s s'.
Proof.
  unfold os.create.
  destruct (sys_creat true s filename 438%N) as [e|[fd s1]] eqn:Hc;
    [intros [= <- <-]; apply keeps_names_refl|].
  pose proof (sys_creat_keeps _ _ _ _ _ _ Hc) as H1.
  apply sys_creat_inv in Hc as (_ & (p & Hfd) & Hres & _).
  unfold os.chmod. rewrite (sys_chmod_file _ _ _ _ _ _ Hres Hfd). intros [= <- <-].
  eapply keeps_names_trans; [exact H1|]. by eapply file_update_keeps.
Qed.

(** The steps of [copyFile] past the test of the destination, whether they
    succeed or not. *)
Lemma copy_steps_keep src dst mode s err s' :
  (match os.open src s with
   | (_, Some e) => (Some e, s)
   | (srcFile, None) =>
       match os.create dst s with
       | ((_, Some e), s1) => (Some e, s1)
       | ((dstFile, None), s1) =>
           match io.copy dstFile srcFile s1 with
           | ((_, Some e), s2) => (Some e, s2)
           | ((_, None), s2) => os.chmod dst mode s2
           end
       end
   end) = (err, s') ->
  keeps_names s s'.
Proof.
  unfold os.open. destruct (sys_open s src) as [e|fs] eqn:Ho;
    [intros [= <- <-]; apply keeps_names_refl|].
  unfold os.create. destruct (sys_creat true s dst 438%N) as [e|[fd s1]] eqn:Hc;
    [intros [= <- <-]; apply keeps_names_refl|].
  pose proof (sys_creat_keeps _ _ _ _ _ _ Hc) as H1.
  apply sys_creat_inv in Hc as (_ & (p & Hfd) & Hdst & _).
  unfold io.copy. destruct (sys_read_all s1 fs) as [e|data] eqn:Hr;
    [intros [= <- <-]; exact H1|].
  destruct (sys_write s1 fd data) as [e|s2] eqn:Hw; [intros [= <- <-]; exact H1|].
  apply sys_write_inv in Hw as (p' & old & Hfd' & ->).
  rewrite Hfd in Hfd'. injection Hfd' as <- <-. rewrite drop_nil, app_nil_r.
  set (s2 := set_inodes s1 (<[fd_ino fd := IFile p data]> (inodes s1))).
  assert (keeps_names s s2) as H2.
  { eapply keeps_names_trans; [exact H1|]. by eapply file_update_keeps. }
  assert (Hdst2 : resolve true s2 dst = Found (fd_ino fd)).
  { unfold s2. erewrite resolve_file_update; [exact Hdst|exact Hfd]. }
  assert (Hfd2 : inodes s2 !! fd_ino fd = Some (IFile p data)).
  { unfold s2. cbn. by rewrite lookup_insert_eq. }
  unfold os.chmod. rewrite (sys_chmod_file _ _ _ _ _ _ Hdst2 Hfd2).
  intros [= <- <-]. eapply keeps_names_trans; [exact H2|]. by eapply file_update_keeps.
Qed.

Lemma copyFile_keeps src dst info overwrite w :
  keeps_names (sys w) (sys (after (xfs.copyFile src dst info overwrite) w)).
Proof.
  pose proof (copyFile_run src dst info overwrite w) as Hrun. unfold run in Hrun.
  destruct (exists_on (sys w) dst && negb overwrite).
  - injection Hrun as _ ->. apply keeps_names_refl.
  - symmetry in Hrun. by eapply copy_steps_keep.
Qed.

Lemma EnsureDir_keeps dir perm w :
  keeps_names (sys w) (sys (after (xfs.EnsureDir dir perm) w)).
Proof.
  pose proof (EnsureDir_run dir perm w) as Hrun. unfold run in Hrun.
  destruct (exists_on (sys w) dir).
  - injection Hrun as _ ->. apply keeps_names_refl.
  - symmetry in Hrun. by eapply mkdirAll_keeps.
Qed.

Lemma CopyDir_func1_keeps src dst overwrite path info err w :
  keeps_names (sys w) (sys (after (xfs.CopyDir_func1 src dst overwrite path info err) w)).
Proof.
  unfold xfs.CopyDir_func1. destruct (is_some err); [apply keeps_names_refl|].
  destruct (filepath.Rel src path) as [relPath rerr].
  destruct (is_some rerr); [apply keeps_names_refl|].
  destruct (FileInfo_IsDir info); [apply EnsureDir_keeps|apply copyFile_keeps].
Qed.

Lemma CopyDir_keeps src dst overwrite w :
  keeps_names (sys w) (sys (after (xfs.CopyDir src dst overwrite) w)).
Proof.
  apply (Walk_preserves keeps_names keeps_names_refl keeps_names_trans).
  intros p i e w'. apply CopyDir_func1_keeps.
Qed.

Lemma CopyFile_keeps src dst overwrite w :
  keeps_names (sys w) (sys (after (xfs.CopyFile src dst overwrite) w)).
Proof.
  unfold after. rewrite CopyFile_unfold.
  destruct (os.stat src (sys w)) as [info [e|]]; [apply keeps_names_refl|].
  apply (copyFile_keeps src dst info overwrite (mkWorld (sys w) (calls w ++ [call_Stat src]))).
Qed.

Lemma EnsureFile_keeps name perm w :
  keeps_names (sys w) (sys (after (xfs.EnsureFile name perm) w)).
Proof.
  pose proof (EnsureFile_run name perm w) as Hrun. unfold run in Hrun.
  destruct (exists_on (sys w) name).
  - injection Hrun as _ ->. apply keeps_names_refl.
  - symmetry in Hrun. by eapply create_chmod_keeps.
Qed.

(** What [keeps_names] means for the queries of the package. *)
Lemma keeps_names_queries s s' p (c c' : list Call) :
  keeps_names s s' ->
  (snd (result (xfs.Stat p) (mkWorld s c)) = None ->
   result (xfs.Exists p) (mkWorld s' c') = true /\
   result (xfs.IsDir p) (mkWorld s' c') = result (xfs.IsDir p) (mkWorld s c) /\
   result (xfs.IsFile p) (mkWorld s' c') = result (xfs.IsFile p) (mkWorld s c)) /\
  (result (xfs.IsSymlink p) (mkWorld s c) = true ->
   result (xfs.IsSymlink p) (mkWorld s' c') = true).
Proof.
  intros (_ & _ & _ & _ & Hn & Hi). split.
  - assert (result (xfs.Exists p) (mkWorld s' c') = exists_on s' p) as ->
      by (unfold result; by rewrite Exists_run).
    rewrite !IsDir_run, !IsFile_run.
    unfold xfs.Stat, os.Stat, call, result, exists_on, os.stat, sys_stat. cbn [fst snd sys].
    destruct (resolve true s p) as [i|d0 c0|e] eqn:Hres; [|intros [=]..].
    rewrite (Hn _ _ _ Hres). specialize (Hi i).
    destruct (inodes s !! i) as [[p0 d0|p0 parent ents|t]|]; [| | |intros [=]]; intros _.
    + destruct Hi as (p1 & d1 & ->). cbn [stat_of is_some snd negb orb].
      by rewrite !perm_not_dir.
    + destruct Hi as (ents' & -> & _). by cbn.
    + rewrite Hi. by cbn.
  - intros Hl. apply (proj1 (IsSymlink_run p (mkWorld s c))) in Hl as (i & t & Hres & Hit).
    apply (proj1 (IsSymlink_run p (mkWorld s' c'))). exists i, t. cbn [sys] in *.
    split; [apply Hn; exact Hres|]. specialize (Hi i). rewrite Hit in Hi. exact Hi.
Qed.

(** X17.  Nothing is removed.  Whatever their arguments and whether they
    succeed or fail, [Copy], [CopyDir], [CopyFile], [EnsureDir],
    [EnsureFile], [MkdirAll], [WriteFile], [WriteTextFile] and
    [WriteFileLinesSep] leave every path naming what it named: no entry is
    removed or renamed, no directory loses an entry or changes its
    permission bits, no link is changed and no regular file becomes
    anything else.  So what [Stat] found is found after the call, a
    directory is still a directory, a file a file and a link a link. *)
Theorem nothing_is_removed w :
  (forall src dst overwrite,
     keeps_names (sys w) (sys (after (xfs.Copy src dst overwrite) w)) /\
     keeps_names (sys w) (sys (after (xfs.CopyDir src dst overwrite) w)) /\
     keeps_names (sys w) (sys (after (xfs.CopyFile src dst overwrite) w))) /\
  (forall name perm,
     keeps_names (sys w) (sys (after (xfs.EnsureDir name perm) w)) /\
     keeps_names (sys w) (sys (after (xfs.EnsureFile name perm) w)) /\
     keeps_names (sys w) (sys (after (xfs.MkdirAll name perm) w))) /\
  (forall name data text lines sep perm,
     keeps_names (sys w) (sys (after (xfs.WriteFile name data perm) w)) /\
     keeps_names (sys w) (sys (after (xfs.WriteTextFile name text perm) w)) /\
     keeps_names (sys w) (sys (after (xfs.WriteFileLinesSep name lines sep perm) w))) /\
  (forall w' p,
     keeps_names (sys w) (sys w') ->
     (snd (result (xfs.Stat p) w) = None ->
      result (xfs.Exists p) w' = true /\
      result (xfs.IsDir p) w' = result (xfs.IsDir p) w /\
      result (xfs.IsFile p) w' = result (xfs.IsFile p) w) /\
     (result (xfs.IsSymlink p) w = true -> result (xfs.IsSymlink p) w' = true)).
Proof.
  assert (forall name data perm w,
            keeps_names (sys w) (sys (after (xfs.WriteFile name data perm) w))) as Hwrite.
  { clear. intros name data perm w. unfold after, xfs.WriteFile, os.WriteFile, call.
    destruct (os.writeFile name data perm (sys w)) as [err s'] eqn:Hw. cbn [snd sys].
    by eapply writeFile_keeps. }
  split; [|split; [|split]].
  - intros src dst overwrite. split; [|split; [apply CopyDir_keeps|apply CopyFile_keeps]].
    unfold after. rewrite Copy_unfold.
    destruct (os.stat src (sys w)) as [info [e|]]; [apply keeps_names_refl|].
    destruct (FileInfo_IsDir info).
    + apply (CopyDir_keeps src dst overwrite (mkWorld (sys w) (calls w ++ [call_Stat src]))).
    + apply (CopyFile_keeps src dst overwrite (mkWorld (sys w) (calls w ++ [call_Stat src]))).
  - intros name perm. split; [apply EnsureDir_keeps|]. split.
    + apply EnsureFile_keeps.
    + pose proof (MkdirAll_run name perm w) as Hrun. unfold run in Hrun.
      symmetry in Hrun. by eapply mkdirAll_keeps.
  - intros name data text lines sep perm. split; [apply Hwrite|]. split.
    + apply (Hwrite name (bytes_of_string text) perm w).
    + rewrite WriteFileLinesSep_unfold.
      apply (Hwrite name (bytes_of_string (lines_with_sep lines sep)) perm w).
  - intros w' p Hk. destruct w as [s c], w' as [s' c']. by apply keeps_names_queries.
Qed.

Lemma nothing_is_removed_witness :
  result (xfs.IsDir "tree/sub")
    (after (xfs.CopyDir "tree" "out" true) demo) = result (xfs.IsDir "tree/sub") demo /\
  result (xfs.IsSymlink "tree/linkd") (after (xfs.CopyDir "tree" "tree" true) demo) = true.
Proof.
  split.
  - apply (proj2 (proj2 (proj2 (nothing_is_removed demo)))
             (after (xfs.CopyDir "tree" "out" true) demo) "tree/sub").
    + exact (proj1 (proj2 (proj1 (nothing_is_removed demo) "tree" "out" true))).
    + vm_compute. reflexivity.
  - apply (proj2 (proj2 (proj2 (nothing_is_removed demo)))
             (after (xfs.CopyDir "tree" "tree" true) demo) "tree/linkd").
    + exact (proj1 (proj2 (proj1 (nothing_is_removed demo) "tree" "tree" true))).
    + vm_compute. reflexivity.
Defined.

(** ** [Resolve] from an absolute anchor *)

Lemma abs_of_absolute path s :
  filepath.IsAbs path = true -> filepath.abs path s = (filepath.Clean path, None).
Proof. intros H. unfold filepath.abs. by rewrite H. Qed.

Lemma IsAbs_nonempty base : filepath.IsAbs base = true -> String.eqb base "" = false.
Proof. by destruct base. Qed.

(** X18.  From an absolute anchor [Resolve] does not depend on the working
    directory and does not fail.  With an absolute [base], a relative path
    that does not start with [~/] is joined to the base, a leading [./]
    left out, and cleaned; [Getwd] is not called.  With an absolute home
    directory, a path that starts with [~/] is joined to it, the first two
    characters left out, whatever the base. *)
Theorem Resolve_from_absolute_anchor relative base w :
  filepath.IsAbs relative = false ->
  (filepath.IsAbs base = true ->
   xfs.prefixed relative tilde = Some false ->
   forall dotted, xfs.prefixed relative dot = Some dotted ->
   let path := filepath.Join base (if dotted then drop_string 2 relative else relative) in
   xfs.Resolve relative base w =
     (Returned (filepath.Clean path, None), mkWorld (sys w) (calls w ++ [call_Abs path]))) /\
  (xfs.prefixed relative tilde = Some true ->
   forall home, result os.UserHomeDir w = (home, None) -> filepath.IsAbs home = true ->
   result (xfs.Resolve relative base) w =
     Returned (filepath.Clean (filepath.Join home (drop_string 2 relative)), None)).
Proof.
  intros Habs. split.
  - intros Hbase Ht dotted Hd. rewrite Resolve_unfold, Habs.
    unfold resolve_base. rewrite (IsAbs_nonempty _ Hbase), Ht, Hd.
    destruct dotted; rewrite abs_of_absolute by (by apply IsAbs_Join_abs); reflexivity.
  - intros Ht home Hhome Hh. unfold result in *. rewrite Resolve_unfold, Habs.
    assert (sys (snd (resolve_base base w)) = sys w) as Hsys.
    { unfold resolve_base. by destruct (String.eqb base ""). }
    destruct (resolve_base base w) as [b w1]. cbn [fst snd] in *. rewrite Ht, Hsys.
    unfold os.UserHomeDir, call in Hhome. cbn [fst] in Hhome. rewrite Hhome. cbn [fst].
    by rewrite abs_of_absolute by (by apply IsAbs_Join_abs).
Qed.

Lemma Resolve_from_absolute_anchor_witness :
  result (xfs.Resolve "./a/../b" "/srv") lost = Returned ("/srv/b", None) /\
  result (xfs.Resolve (String tilde "/x") "rel") lost = Returned ("/home/user/x", None).
Proof.
  split.
  - pose proof (proj1 (Resolve_from_absolute_anchor "./a/../b" "/srv" lost eq_refl)
                  eq_refl eq_refl true eq_refl) as H.
    unfold result. rewrite H. vm_compute. reflexivity.
  - pose proof (proj2 (Resolve_from_absolute_anchor (String tilde "/x") "rel" lost eq_refl)
                  eq_refl "/home/user" eq_refl eq_refl) as H.
    rewrite H. vm_compute. reflexivity.
Defined.

(** ** Paths made of simple names *)

Lemma simple_name_inv name :
  simple_name name = true ->
  existsb (Ascii.eqb slash) (list_ascii_of_string name) = false /\
  name <> "" /\ name <> "." /\ name <> "..".
Proof.
  unfold simple_name. rewrite !andb_true_iff, !negb_true_iff.
  intros [[[H1 H2] H3] H4]. split; [exact H1|].
  split; [|split]; intros ->; discriminate.
Qed.

Lemma eqb_slash_sym c : Ascii.eqb slash c = Ascii.eqb c slash.
Proof. apply Ascii.eqb_sym. Qed.

Lemma fields_no_slash name :
  existsb (Ascii.eqb slash) (list_ascii_of_string name) = false -> fields name = [name].
Proof.
  induction name as [|c name IH]; [reflexivity|]. cbn [list_ascii_of_string existsb fields].
  rewrite eqb_slash_sym. intros H. apply orb_false_elim in H as [Hc Hn].
  by rewrite Hc, (IH Hn).
Qed.

Lemma fields_slash a b :
  existsb (Ascii.eqb slash) (list_ascii_of_string a) = false ->
  fields (a +:+ String slash b) = a :: fields b.
Proof.
  induction a as [|c a IH]; intros H.
  - cbn [fields]. change ("" +:+ String slash b) with (String slash b). cbn [fields].
    by rewrite Ascii.eqb_refl.
  - cbn [list_ascii_of_string existsb] in H. rewrite eqb_slash_sym in H.
    apply orb_false_elim in H as [Hc Hn].
    rewrite append_cons. cbn [fields]. by rewrite Hc, (IH Hn).
Qed.

Lemma nonempty_eqb name : name <> "" -> String.eqb name "" = false.
Proof. by destruct name. Qed.

Lemma components_simple a : simple_name a = true -> components a = [a].
Proof.
  intros (Hs & Ha & _)%simple_name_inv. unfold components.
  rewrite (fields_no_slash _ Hs). cbn [List.filter]. by rewrite (nonempty_eqb _ Ha).
Qed.

Lemma components_slash a b :
  simple_name a = true -> components (a +:+ String slash b) = a :: components b.
Proof.
  intros (Hs & Ha & _)%simple_name_inv. unfold components.
  rewrite (fields_slash _ _ Hs). cbn [List.filter]. by rewrite (nonempty_eqb _ Ha).
Qed.

Lemma IsAbs_simple a : simple_name a = true -> filepath.IsAbs a = false.
Proof.
  intros (Hs & Ha & _)%simple_name_inv. destruct a as [|c a]; [reflexivity|].
  cbn [list_ascii_of_string existsb] in Hs. rewrite eqb_slash_sym in Hs.
  by apply orb_false_elim in Hs as [Hc _].
Qed.

Lemma IsAbs_append a b : a <> "" -> filepath.IsAbs (a +:+ b) = filepath.IsAbs a.
Proof. destruct a as [|c a]; [by intros H|]. intros _. by rewrite append_cons. Qed.

Lemma not_dot_eqb a :
  simple_name a = true -> String.eqb a "." = false /\ String.eqb a ".." = false.
Proof.
  intros (_ & _ & H1 & H2)%simple_name_inv.
  split; apply String.eqb_neq; assumption.
Qed.

Lemma append_nonempty (a b : string) : a <> "" -> a +:+ b <> "".
Proof. destruct a; [by intros H|]. intros _. by rewrite append_cons. Qed.

Lemma Clean_simple a : simple_name a = true -> filepath.Clean a = a.
Proof.
  intros Ha. unfold filepath.Clean.
  rewrite (IsAbs_simple _ Ha), (components_simple _ Ha).
  destruct (not_dot_eqb _ Ha) as [H1 H2].
  cbn [filepath.clean_elems]. rewrite H1, H2. cbn [rev app join_strings].
  apply simple_name_inv in Ha as (_ & Hne & _). by rewrite (nonempty_eqb _ Hne).
Qed.

Lemma Clean_simple_slash a b :
  simple_name a = true -> simple_name b = true ->
  filepath.Clean (a +:+ String slash b) = a +:+ String slash b.
Proof.
  intros Ha Hb. unfold filepath.Clean.
  pose proof (simple_name_inv _ Ha) as (_ & Hne & _).
  rewrite (IsAbs_append _ _ Hne), (IsAbs_simple _ Ha).
  rewrite (components_slash _ _ Ha), (components_simple _ Hb).
  destruct (not_dot_eqb _ Ha) as [H1 H2]. destruct (not_dot_eqb _ Hb) as [H3 H4].
  cbn [filepath.clean_elems]. rewrite H1, H2, H3, H4. cbn [rev app join_strings].
  by rewrite (nonempty_eqb _ (append_nonempty _ _ Hne)).
Qed.

Lemma Join_simple a b :
  simple_name a = true -> simple_name b = true ->
  filepath.Join a b = a +:+ String slash b.
Proof.
  intros Ha Hb. unfold filepath.Join.
  pose proof (simple_name_inv _ Ha) as (_ & Hne & _).
  rewrite (nonempty_eqb _ Hne). cbn [negb]. by apply Clean_simple_slash.
Qed.

Lemma Join_simple_dot a : simple_name a = true -> filepath.Join a "." = a.
Proof.
  intros Ha. unfold filepath.Join.
  pose proof (simple_name_inv _ Ha) as (_ & Hne & _).
  rewrite (nonempty_eqb _ Hne). cbn [negb]. unfold filepath.Clean.
  rewrite (IsAbs_append _ _ Hne), (IsAbs_simple _ Ha).
  change (a +:+ "/" +:+ ".") with (a +:+ String slash ".").
  rewrite (components_slash _ _ Ha).
  destruct (not_dot_eqb _ Ha) as [H1 H2].
  change (components ".") with ["."]. cbn [filepath.clean_elems]. rewrite H1, H2.
  cbn [String.eqb Ascii.eqb Bool.eqb rev app join_strings].
  by rewrite (nonempty_eqb _ Hne).
Qed.

Lemma length_append (a b : string) :
  String.length (a +:+ b) = String.length a + String.length b.
Proof. induction a as [|c a IH]; [reflexivity|]. rewrite append_cons. cbn. by rewrite IH. Qed.

Lemma Rel_simple a b :
  simple_name a = true -> simple_name b = true ->
  filepath.Rel a (filepath.Join a b) = (b, None).
Proof.
  intros Ha Hb. rewrite (Join_simple _ _ Ha Hb). unfold filepath.Rel.
  rewrite (Clean_simple _ Ha), (Clean_simple_slash _ _ Ha Hb).
  assert (String.eqb (a +:+ String slash b) a = false) as ->.
  { apply String.eqb_neq. intros H. apply (f_equal String.length) in H.
    rewrite length_append in H. cbn in H. lia. }
  destruct (not_dot_eqb _ Ha) as [-> _].
  pose proof (simple_name_inv _ Ha) as (_ & Hne & _).
  rewrite (IsAbs_append _ _ Hne), (IsAbs_simple _ Ha). cbn [Bool.eqb negb].
  rewrite (components_slash _ _ Ha), (components_simple _ Ha), (components_simple _ Hb).
  cbn [filepath.strip_common]. by rewrite String.eqb_refl.
Qed.

Lemma drop_while_all p l : forallb p l = true -> os.drop_while p l = [].
Proof.
  induction l as [|c l IH]; [reflexivity|]. cbn. intros [-> H]%andb_true_iff. by apply IH.
Qed.

Lemma drop_while_none p l :
  match l with c :: _ => p c = false | [] => True end -> os.drop_while p l = l.
Proof. destruct l as [|c l]; [reflexivity|]. cbn. by intros ->. Qed.

Lemma parent_of_simple a : simple_name a = true -> os.parent_of a = "".
Proof.
  intros (Hs & _)%simple_name_inv. unfold os.parent_of.
  assert (forallb (fun c => negb (os.is_sep c)) (rev (list_ascii_of_string a)) = true) as Hall.
  { apply forallb_forall. intros c Hc%in_rev. apply negb_true_iff.
    destruct (os.is_sep c) eqn:Hsep; [|reflexivity].
    assert (existsb (Ascii.eqb slash) (list_ascii_of_string a) = true) as Hex.
    { apply existsb_exists. exists c. split; [exact Hc|]. by rewrite eqb_slash_sym. }
    rewrite Hex in Hs. discriminate Hs. }
  rewrite (drop_while_none os.is_sep).
  - by rewrite (drop_while_all _ _ Hall).
  - destruct (rev (list_ascii_of_string a)) as [|c l]; [exact I|].
    cbn [forallb] in Hall. apply andb_true_iff in Hall as [Hc _]. by apply negb_true_iff.
Qed.

(** ** One file copied to a name that is free *)

Lemma resolve_file_update_in follow s m i p dat p' dat' path :
  m !! i = Some (IFile p dat) ->
  resolve follow (set_inodes s (<[i := IFile p' dat']> m)) path =
  resolve follow (set_inodes s m) path.
Proof.
  intros Hi.
  pose proof (resolve_file_update follow (set_inodes s m) i p dat p' dat' path Hi) as R.
  cbn [set_inodes inodes root cwd umask env_HOME] in R. exact R.
Qed.

Lemma missing_not_exists s p :
  (exists d c, resolve true s p = Absent d c) -> exists_on s p = false.
Proof. intros (d & c & H). unfold exists_on, os.stat, sys_stat. by rewrite H. Qed.

(** [copyFile] from a regular file its owner may read to a name that is
    free in a directory its owner may write: the file is created there
    with the content of the source and the permission bits of [info]. *)
Lemma copyFile_into_slot s srcp dstp info overwrite i p data d name pd par ents
    (c : list Call) :
  resolve true s srcp = Found i -> inodes s !! i = Some (IFile p data) -> may_read p = true ->
  resolve true s dstp = Absent d name ->
  inodes s !! d = Some (IDir pd par ents) -> may_write pd = true ->
  exists j s',
    run (xfs.copyFile srcp dstp info overwrite) (mkWorld s c) = (None, s') /\
    inodes s !! j = None /\
    inodes s' !! j = Some (IFile (N.land (FileInfo_Mode info) ModePerm) data) /\
    inodes s' !! d = Some (IDir pd par (<[name := j]> ents)) /\
    (forall i0, i0 <> j -> i0 <> d -> inodes s' !! i0 = inodes s !! i0) /\
    (forall follow q, extends_at d name j (resolve follow s q) (resolve follow s' q)).
Proof.
  intros Hsrc Hi Hread Hdst Hd Hwrite.
  pose proof (resolve_Absent_inv _ _ _ _ _ Hdst) as Hfree.
  assert (ents !! name = None) as Hname.
  { destruct Hfree as (p0 & par0 & ents0 & Hd0 & Hn0). rewrite Hd in Hd0.
    injection Hd0 as <- <- <-. exact Hn0. }
  set (j := fresh_ino (inodes s)).
  pose proof (fresh_ino_None (inodes s)) as Hj. fold j in Hj.
  set (perm0 := N.ldiff (N.land 438 ModePerm) (umask s)).
  set (m1 := <[j := IFile perm0 []]> (<[d := IDir pd par (<[name := j]> ents)]> (inodes s))).
  assert (link_new s d name (IFile perm0 []) = inr (j, set_inodes s m1)) as Hl.
  { unfold link_new. by rewrite Hd, Hwrite. }
  assert (j <> d) as Hjd by (intros Heq; rewrite Heq, Hd in Hj; discriminate Hj).
  assert (i <> j) as Hij by (intros Heq; rewrite Heq, Hj in Hi; discriminate Hi).
  assert (i <> d) as Hid by (intros Heq; rewrite Heq, Hd in Hi; discriminate Hi).
  set (mode := N.land (FileInfo_Mode info) ModePerm).
  exists j, (set_inodes s (<[j := IFile mode data]> (<[j := IFile perm0 data]> m1))).
  split; [|split; [exact Hj|split; [|split; [|split]]]].
  - rewrite copyFile_run. cbn [sys].
    rewrite (missing_not_exists s dstp) by (by exists d, name). cbn [andb].
    assert (os.open srcp s = (Some (mkFile srcp i), None)) as ->.
    { unfold os.open, sys_open. by rewrite Hsrc, Hi, Hread. }
    assert (os.create dstp s = ((Some (mkFile dstp j), None), set_inodes s m1)) as ->.
    { unfold os.create, sys_creat. rewrite Hdst. fold perm0. by rewrite Hl. }
    assert (io.copy (Some (mkFile dstp j)) (Some (mkFile srcp i)) (set_inodes s m1) =
            ((N.of_nat (length data), None),
             set_inodes s (<[j := IFile perm0 data]> m1))) as ->.
    { unfold io.copy, sys_read_all, sys_write. cbn [fd_ino inodes set_inodes].
      assert (m1 !! i = Some (IFile p data)) as ->
        by (unfold m1; by rewrite !lookup_insert_ne).
      assert (m1 !! j = Some (IFile perm0 [])) as ->
        by (unfold m1; by rewrite lookup_insert_eq).
      by rewrite drop_nil, app_nil_r. }
    unfold os.chmod.
    assert (resolve true (set_inodes s m1) dstp = Found j) as Hres1.
    { pose proof (link_new_resolve _ _ _ _ _ _ Hl eq_refl Hfree true dstp) as Hext.
      rewrite Hdst in Hext. unfold extends_at in Hext.
      rewrite decide_True in Hext; [exact Hext|split; reflexivity]. }
    assert (resolve true (set_inodes s (<[j := IFile perm0 data]> m1)) dstp = Found j) as Hres2.
    { rewrite (resolve_file_update_in true s m1 j perm0 [] perm0 data dstp); [exact Hres1|].
      unfold m1. apply lookup_insert_eq. }
    rewrite (sys_chmod_file _ _ _ j perm0 data Hres2)
      by (cbn; by rewrite lookup_insert_eq).
    reflexivity.
  - cbn. by rewrite lookup_insert_eq.
  - cbn. unfold m1. rewrite !lookup_insert_ne by (intros Heq; apply Hjd; exact Heq).
    by rewrite lookup_insert_eq.
  - intros i0 H1 H2. cbn. unfold m1.
    rewrite !lookup_insert_ne; [reflexivity|..]; intros Heq; [apply H2|apply H1..];
      symmetry; exact Heq.
  - intros follow q.
    pose proof (link_new_resolve _ _ _ _ _ _ Hl eq_refl Hfree follow q) as Hext.
    assert (resolve follow
              (set_inodes s (<[j := IFile mode data]> (<[j := IFile perm0 data]> m1))) q =
            resolve follow (set_inodes s m1) q) as ->; [|exact Hext].
    rewrite (resolve_file_update_in follow s (<[j := IFile perm0 data]> m1) j perm0 data)
      by apply lookup_insert_eq.
    apply (resolve_file_update_in follow s m1 j perm0 []).
    unfold m1. apply lookup_insert_eq.
Qed.

(** ** A directory of files, copied *)

Lemma mkdir_perm_bits pd u :
  N.land u 192 = 0%N -> may_write pd = true -> may_search pd = true ->
  may_write (N.ldiff (N.land (N.lor ModeDir (N.land pd ModePerm)) ModePerm) u) = true /\
  may_search (N.ldiff (N.land (N.lor ModeDir (N.land pd ModePerm)) ModePerm) u) = true.
Proof.
  unfold may_write, may_search. intros Hu Hw Hx.
  assert (N.testbit u 7 = false /\ N.testbit u 6 = false) as [H7 H6].
  { split.
    - apply (f_equal (fun x => N.testbit x 7)) in Hu. rewrite N.land_spec in Hu.
      by rewrite andb_true_r in Hu.
    - apply (f_equal (fun x => N.testbit x 6)) in Hu. rewrite N.land_spec in Hu.
      by rewrite andb_true_r in Hu. }
  rewrite !N.ldiff_spec, !N.land_spec, !N.lor_spec, !N.land_spec, H7, H6, Hw, Hx.
  split; reflexivity.
Qed.

Lemma dir_lookup_simple d parent ents name :
  simple_name name = true -> dir_lookup d parent ents name = ents !! name.
Proof. intros [H1 H2]%not_dot_eqb. unfold dir_lookup. by rewrite H1, H2. Qed.

Lemma insert_sorted_perm x l : Permutation (insert_sorted x l) (x :: l).
Proof.
  induction l as [|y l IH]; [reflexivity|]. cbn [insert_sorted].
  destruct (String.leb x y); [reflexivity|]. rewrite IH. apply perm_swap.
Qed.

Lemma sort_strings_perm l : Permutation (sort_strings l) l.
Proof.
  induction l as [|x l IH]; [reflexivity|]. cbn [sort_strings fold_right].
  fold (sort_strings l). rewrite insert_sorted_perm. by constructor.
Qed.

Lemma readable_file_inv n :
  readable_file n = true -> exists p data, n = Some (IFile p data) /\ may_read p = true.
Proof. destruct n as [[p data| |]|]; try (intros [=]; fail). intros H. by exists p, data. Qed.

Lemma namei_step_found fuel m rt follow d p par ents name i n rest :
  m !! d = Some (IDir p par ents) -> may_search p = true ->
  simple_name name = true -> ents !! name = Some i ->
  m !! i = Some n -> is_symlink n = false ->
  namei fuel m rt follow d (name :: rest) = namei fuel m rt follow i rest.
Proof.
  intros Hd Hx Hname Hi Hn Hsym. rewrite namei_cons, Hd, Hx. cbn [negb].
  rewrite (dir_lookup_simple _ _ _ _ Hname), Hi, Hn.
  by destruct n.
Qed.

Lemma namei_step_absent fuel m rt follow d p par ents name :
  m !! d = Some (IDir p par ents) -> may_search p = true ->
  simple_name name = true -> ents !! name = None ->
  namei fuel m rt follow d [name] = Absent d name.
Proof.
  intros Hd Hx Hname Hi. rewrite namei_cons, Hd, Hx. cbn [negb].
  by rewrite (dir_lookup_simple _ _ _ _ Hname), Hi.
Qed.

(** A path of simple names starts at the working directory. *)
Lemma resolve_from_cwd follow s cn c path comps :
  cwd s = Some (cn, c) -> path <> "" -> filepath.IsAbs path = false ->
  components path = comps ->
  resolve follow s path = namei MAXSYMLINKS (inodes s) (root s) follow c comps.
Proof.
  intros Hcwd Hne Habs <-. unfold resolve. rewrite (nonempty_eqb _ Hne).
  change (IsAbs_prefix path) with (filepath.IsAbs path). by rewrite Habs, Hcwd.
Qed.

Lemma resolve_name follow s cn c name :
  cwd s = Some (cn, c) -> simple_name name = true ->
  resolve follow s name = namei MAXSYMLINKS (inodes s) (root s) follow c [name].
Proof.
  intros Hcwd Hname. apply (resolve_from_cwd follow s cn c name [name] Hcwd).
  - by apply simple_name_inv in Hname as (_ & H & _).
  - by apply IsAbs_simple.
  - by apply components_simple.
Qed.

Lemma resolve_name_slash follow s cn c a b :
  cwd s = Some (cn, c) -> simple_name a = true -> simple_name b = true ->
  resolve follow s (filepath.Join a b) =
  namei MAXSYMLINKS (inodes s) (root s) follow c [a; b].
Proof.
  intros Hcwd Ha Hb. rewrite (Join_simple _ _ Ha Hb).
  pose proof (simple_name_inv _ Ha) as (_ & Hne & _).
  apply (resolve_from_cwd follow s cn c _ [a; b] Hcwd).
  - by apply append_nonempty.
  - by rewrite (IsAbs_append _ _ Hne), (IsAbs_simple _ Ha).
  - by rewrite (components_slash _ _ Ha), (components_simple _ Hb).
Qed.

Lemma length_nonempty (x : string) : x <> "" -> exists k, String.length x = S k.
Proof. destruct x as [|ch x]; [by intros H|]. intros _. by exists (String.length x). Qed.

Section flat_copy.

Variables (s0 : Sys) (src dst : string) (overwrite : bool).
Variables (cn : string) (c : ino) (pc : N) (cpar : ino) (centries : gmap string ino).
Variables (ds : ino) (pd : N) (dpar : ino) (entries : gmap string ino).

Hypothesis Hsrc : simple_name src = true.
Hypothesis Hdst : simple_name dst = true.
Hypothesis Hmask : N.land (umask s0) 192 = 0%N.
Hypothesis Hcwd : cwd s0 = Some (cn, c).
Hypothesis Hc : inodes s0 !! c = Some (IDir pc cpar centries).
Hypothesis Hpcx : may_search pc = true.
Hypothesis Hpcw : may_write pc = true.
Hypothesis Hsrc_in : centries !! src = Some ds.
Hypothesis Hdst_out : centries !! dst = None.
Hypothesis Hds : inodes s0 !! ds = Some (IDir pd dpar entries).
Hypothesis Hpdr : may_read pd = true.
Hypothesis Hpdw : may_write pd = true.
Hypothesis Hpdx : may_search pd = true.
Hypothesis Hfiles :
  forall name i, entries !! name = Some i ->
    simple_name name = true /\
    exists p data, inodes s0 !! i = Some (IFile p data) /\ may_read p = true.

Local Abbreviation mode := (N.lor ModeDir (N.land pd ModePerm)).
Local Abbreviation dperm := (N.ldiff (N.land mode ModePerm) (umask s0)).
Local Abbreviation fn := (xfs.CopyDir_func1 src dst overwrite).
Local Abbreviation n := (fresh_ino (inodes s0)).
Local Abbreviation s1 :=
  (set_inodes s0 (<[n := IDir dperm c ∅]>
                    (<[c := IDir pc cpar (<[dst := n]> centries)]> (inodes s0)))).

Lemma flat_resolve_src follow : resolve follow s0 src = Found ds.
Proof.
  rewrite (resolve_name follow s0 cn c src Hcwd Hsrc).
  rewrite (namei_step_found _ _ _ _ _ _ _ _ _ _ _ _ Hc Hpcx Hsrc Hsrc_in Hds eq_refl).
  apply namei_nil.
Qed.

Lemma flat_resolve_entry follow name i :
  entries !! name = Some i -> resolve follow s0 (filepath.Join src name) = Found i.
Proof.
  intros Hi. destruct (Hfiles name i Hi) as (Hname & p & data & Hfile & _).
  rewrite (resolve_name_slash follow s0 cn c src name Hcwd Hsrc Hname).
  rewrite (namei_step_found _ _ _ _ _ _ _ _ _ _ _ _ Hc Hpcx Hsrc Hsrc_in Hds eq_refl).
  rewrite (namei_step_found _ _ _ _ _ _ _ _ _ _ _ _ Hds Hpdx Hname Hi Hfile eq_refl).
  apply namei_nil.
Qed.

Lemma flat_resolve_dst follow : resolve follow s0 dst = Absent c dst.
Proof.
  rewrite (resolve_name follow s0 cn c dst Hcwd Hdst).
  exact (namei_step_absent _ _ _ _ _ _ _ _ _ Hc Hpcx Hdst Hdst_out).
Qed.

Lemma flat_n_fresh : inodes s0 !! n = None.
Proof. apply fresh_ino_None. Qed.

Lemma flat_n_ne_c : n <> c.
Proof. intros Heq. pose proof flat_n_fresh as H. rewrite Heq, Hc in H. discriminate H. Qed.

Lemma flat_mkdir : sys_mkdir s0 dst mode = inr s1.
Proof.
  unfold sys_mkdir. rewrite flat_resolve_dst. unfold link_new. by rewrite Hc, Hpcw.
Qed.

Lemma flat_EnsureDir (calls0 : list Call) :
  run (xfs.EnsureDir (filepath.Join dst ".") mode) (mkWorld s0 calls0) = (None, s1).
Proof.
  rewrite (Join_simple_dot _ Hdst), EnsureDir_run. cbn [sys].
  rewrite (missing_not_exists s0 dst) by (exists c, dst; apply flat_resolve_dst).
  pose proof (simple_name_inv _ Hdst) as (_ & Hne & _).
  destruct (length_nonempty _ Hne) as [k ->].
  rewrite mkdirAll_eq. unfold sys_stat. rewrite flat_resolve_dst.
  rewrite (parent_of_simple _ Hdst). cbn [String.eqb negb].
  by rewrite flat_mkdir.
Qed.

Lemma flat_s1_c : inodes s1 !! c = Some (IDir pc cpar (<[dst := n]> centries)).
Proof.
  cbn. rewrite lookup_insert_ne by apply flat_n_ne_c. apply lookup_insert_eq.
Qed.

Lemma flat_s1_n : inodes s1 !! n = Some (IDir dperm c ∅).
Proof. cbn. apply lookup_insert_eq. Qed.

Lemma flat_resolve_new follow name :
  simple_name name = true ->
  resolve follow s1 (filepath.Join dst name) = Absent n name.
Proof.
  intros Hname.
  rewrite (resolve_name_slash follow s1 cn c dst name Hcwd Hdst Hname).
  rewrite (namei_step_found _ _ _ _ _ _ _ _ _ _ _ _ flat_s1_c Hpcx Hdst
             (lookup_insert_eq _ _ _) flat_s1_n eq_refl).
  destruct (mkdir_perm_bits pd (umask s0) Hmask Hpdw Hpdx) as [_ Hx].
  exact (namei_step_absent _ _ _ _ _ _ _ _ _ flat_s1_n Hx Hname (lookup_empty _)).
Qed.

Local Abbreviation visit := (fun p i => filepath.walk (size (inodes s0)) p i fn).

(** What holds between two visits: the source is as it was; the new
    directory is there; the names still to copy are free in it; the names
    copied lead to files with the content and the permission bits of their
    sources. *)
Local Abbreviation Inv s todo :=
  (keeps_names s1 s /\
   (forall name i, entries !! name = Some i -> inodes s !! i = inodes s0 !! i) /\
   (exists ents, inodes s !! n = Some (IDir dperm c ents)) /\
   (forall name, name ∈ todo -> resolve true s (filepath.Join dst name) = Absent n name) /\
   (forall name i p data, entries !! name = Some i -> name ∉ todo ->
      inodes s0 !! i = Some (IFile p data) ->
      exists j, resolve true s (filepath.Join dst name) = Found j /\
                inodes s !! j = Some (IFile (N.land p ModePerm) data))).

Lemma flat_s0_s1 : keeps_names s0 s1.
Proof. exact (sys_mkdir_keeps _ _ _ _ flat_mkdir). Qed.

Lemma flat_size : exists F, size (inodes s0) = S F.
Proof.
  destruct (size (inodes s0)) as [|F] eqn:Hsz; [|by exists F].
  apply map_size_empty_inv in Hsz. rewrite Hsz, lookup_empty in Hc. discriminate Hc.
Qed.

Lemma flat_visit_file s calls0 name i p data ents :
  entries !! name = Some i ->
  keeps_names s0 s ->
  inodes s !! i = inodes s0 !! i ->
  inodes s0 !! i = Some (IFile p data) -> may_read p = true -> simple_name name = true ->
  inodes s !! n = Some (IDir dperm c ents) ->
  resolve true s (filepath.Join dst name) = Absent n name ->
  exists j s' calls',
    os.lstat (filepath.Join src name) s = (Some (mkStat (N.land p ModePerm)), None) /\
    visit (filepath.Join src name) (Some (mkStat (N.land p ModePerm))) (mkWorld s calls0) =
      (None, mkWorld s' calls') /\
    inodes s !! j = None /\
    inodes s' !! j = Some (IFile (N.land p ModePerm) data) /\
    inodes s' !! n = Some (IDir dperm c (<[name := j]> ents)) /\
    (forall i0, i0 <> j -> i0 <> n -> inodes s' !! i0 = inodes s !! i0) /\
    (forall follow q, extends_at n name j (resolve follow s q) (resolve follow s' q)).
Proof.
  intros Hi Hk Hsame Hfile Hread Hname Hn Hfree.
  assert (inodes s !! i = Some (IFile p data)) as Hfile' by (by rewrite Hsame).
  assert (forall follow, resolve follow s (filepath.Join src name) = Found i) as Hres.
  { intros follow. destruct Hk as (_ & _ & _ & _ & Hmono & _).
    apply Hmono, flat_resolve_entry, Hi. }
  destruct (mkdir_perm_bits pd (umask s0) Hmask Hpdw Hpdx) as [Hw _].
  destruct (copyFile_into_slot s (filepath.Join src name) (filepath.Join dst name)
              (Some (mkStat (N.land p ModePerm))) overwrite i p data n name dperm c ents
              calls0 (Hres true) Hfile' Hread Hfree Hn Hw)
    as (j & s' & Hrun & Hj & Hj' & Hn' & Hother & Hext).
  cbn [FileInfo_Mode st_mode] in Hj'. rewrite land_perm_idem in Hj'.
  destruct (xfs.copyFile (filepath.Join src name) (filepath.Join dst name)
              (Some (mkStat (N.land p ModePerm))) overwrite (mkWorld s calls0))
    as [err [s'' calls']] eqn:Hcopy.
  unfold run, result, after in Hrun. rewrite Hcopy in Hrun. cbn [fst snd sys] in Hrun.
  injection Hrun as -> ->.
  exists j, s', calls'. split.
  { unfold os.lstat. by rewrite (sys_stat_Found _ _ _ _ _ (Hres false) Hfile'). }
  split; [|by repeat split].
  destruct flat_size as [F ->]. rewrite walk_S, perm_not_dir. cbn [negb].
  unfold xfs.CopyDir_func1. cbn [is_some]. rewrite (Rel_simple _ _ Hsrc Hname).
  cbn [is_some]. rewrite perm_not_dir. exact Hcopy.
Qed.

Lemma flat_loop todo :
  NoDup todo ->
  (forall name, name ∈ todo -> is_Some (entries !! name)) ->
  forall s calls0,
    Inv s todo ->
    exists s' calls',
      walk_names visit fn src todo (mkWorld s calls0) = (None, mkWorld s' calls') /\
      Inv s' [].
Proof.
  induction todo as [|name rest IH]; intros Hnd Hin s calls0 HInv.
  { exists s, calls0. split; [reflexivity|exact HInv]. }
  destruct HInv as (Hk & Hsrcs & (ents & Hn) & Htodo & Hdone).
  apply NoDup_cons in Hnd as [Hnotin Hnd].
  destruct (Hin name ltac:(left)) as [i Hi].
  destruct (Hfiles name i Hi) as (Hname & p & data & Hfile & Hread).
  destruct (flat_visit_file s calls0 name i p data ents Hi
              (keeps_names_trans _ _ _ flat_s0_s1 Hk) (Hsrcs name i Hi) Hfile Hread
              Hname Hn (Htodo name ltac:(left)))
    as (j & s' & calls' & Hlstat & Hvisit & Hj & Hj' & Hn' & Hother & Hext).
  assert (walk_names visit fn src (name :: rest) (mkWorld s calls0) =
          walk_names visit fn src rest (mkWorld s' calls')) as ->.
  { cbn [walk_names]. unfold bind at 1, get_sys. cbn [sys]. rewrite Hlstat. cbn [is_some].
    unfold bind at 1. by rewrite Hvisit. }
  apply IH; [exact Hnd|intros name' H'; apply Hin; by right|].
  assert (keeps_names s s') as Hstep.
  { pose proof (copyFile_keeps (filepath.Join src name) (filepath.Join dst name)
                  (Some (mkStat (N.land p ModePerm))) overwrite (mkWorld s calls0)) as H.
    clear - H Hvisit Hsrc Hname Hc. revert Hvisit.
    destruct flat_size as [F ->]. rewrite walk_S, perm_not_dir. cbn [negb].
    unfold xfs.CopyDir_func1. cbn [is_some]. rewrite (Rel_simple _ _ Hsrc Hname).
    cbn [is_some]. rewrite perm_not_dir. intros Hcopy.
    unfold after in H. rewrite Hcopy in H. exact H. }
  assert (forall i0 n0, inodes s !! i0 = Some n0 -> i0 <> j) as Hold.
  { intros i0 n0 H0 ->. rewrite Hj in H0. discriminate H0. }
  split; [by eapply keeps_names_trans|]. split; [|split; [|split]].
  - intros name0 i0 Hi0. rewrite <- (Hsrcs name0 i0 Hi0).
    destruct (Hfiles name0 i0 Hi0) as (_ & p0 & d0 & Hf0 & _).
    rewrite <- (Hsrcs name0 i0 Hi0) in Hf0.
    apply Hother; [by eapply Hold|]. intros ->. rewrite Hn in Hf0. discriminate Hf0.
  - eexists. exact Hn'.
  - intros name' H'. specialize (Hext true (filepath.Join dst name')).
    rewrite (Htodo name' ltac:(by right)) in Hext. unfold extends_at in Hext.
    rewrite decide_False in Hext; [exact Hext|].
    intros [_ ->]. by apply Hnotin.
  - intros name0 i0 p0 d0 Hi0 Hnot Hf0.
    destruct (decide (name0 = name)) as [->|Hne].
    + rewrite Hi in Hi0. injection Hi0 as <-. rewrite Hfile in Hf0. injection Hf0 as <- <-.
      exists j. split; [|exact Hj'].
      specialize (Hext true (filepath.Join dst name)).
      rewrite (Htodo name ltac:(left)) in Hext. unfold extends_at in Hext.
      rewrite decide_True in Hext; [exact Hext|by split].
    + destruct (Hdone name0 i0 p0 d0 Hi0) as (j0 & Hres0 & Hj0); [|exact Hf0|].
      { intros [->|H']%elem_of_cons; [by apply Hne|by apply Hnot]. }
      exists j0. split.
      * specialize (Hext true (filepath.Join dst name0)). rewrite Hres0 in Hext. exact Hext.
      * rewrite <- Hj0. apply Hother; [by eapply Hold|].
        intros ->. rewrite Hn in Hj0. discriminate Hj0.
Qed.

End flat_copy.

Lemma flat_files s entries :
  forallb (fun '(name, i) => simple_name name && readable_file (inodes s !! i))
    (map_to_list entries) = true ->
  forall name i, entries !! name = Some i ->
    simple_name name = true /\
    exists p data, inodes s !! i = Some (IFile p data) /\ may_read p = true.
Proof.
  intros Hall name i Hi.
  assert (In (name, i) (map_to_list entries)) as Hin
    by (apply list_elem_of_In, elem_of_map_to_list, Hi).
  pose proof (proj1 (forallb_forall _ _) Hall _ Hin) as H. cbn beta iota in H.
  apply andb_true_iff in H as [H1 H2]. split; [exact H1|by apply readable_file_inv].
Qed.

Lemma readDirNames_dir s path i p par entries :
  resolve true s path = Found i -> inodes s !! i = Some (IDir p par entries) ->
  may_read p = true ->
  filepath.readDirNames s path = (sort_strings (fst <$> map_to_list entries), None).
Proof.
  intros Hres Hi Hr. unfold filepath.readDirNames, sys_open. rewrite Hres, Hi, Hr.
  unfold sys_readdirnames. cbn [fd_ino]. by rewrite Hi.
Qed.



(** ** Without [overwrite] no file is touched *)

Lemma keeps_files_refl s : keeps_files s s.
Proof. by intros i p data H. Qed.

Lemma keeps_files_trans s1 s2 s3 : keeps_files s1 s2 -> keeps_files s2 s3 -> keeps_files s1 s3.
Proof. intros H1 H2 i p data H. by apply H2, H1. Qed.

Lemma grows_dirs_keeps_files perm s s' : grows_dirs perm s s' -> keeps_files s s'.
Proof.
  intros (_ & _ & _ & _ & H) i p data Hi. specialize (H i). by rewrite Hi in H.
Qed.

(** A file created where [Exists] was false is a new one. *)
Lemma creat_missing_keeps_files rdwr s path perm f s' :
  exists_on s path = false ->
  sys_creat rdwr s path perm = inr (f, s') ->
  keeps_files s s' /\ inodes s !! fd_ino f = None.
Proof.
  intros Hex Hc. pose proof (sys_creat_mode _ _ _ _ _ _ Hc) as Hmode.
  assert (inodes s !! fd_ino f = None) as Hnew.
  { destruct (resolve true s path) as [i|d name|e] eqn:Hres; [| |destruct Hmode].
    - destruct Hmode as (_ & p & old & Hi & _).
      rewrite (exists_on_stat _ _ _ (sys_stat_Found _ _ _ _ _ Hres Hi)) in Hex.
      discriminate Hex.
    - by destruct Hmode. }
  split; [|exact Hnew].
  apply sys_creat_inv in Hc as (_ & _ & _ & _ & Hfiles & _).
  intros i p data Hi. apply Hfiles; [|exact Hi].
  intros ->. rewrite Hnew in Hi. discriminate Hi.
Qed.

Lemma new_file_update_keeps_files s s1 j node :
  inodes s !! j = None -> keeps_files s s1 ->
  keeps_files s (set_inodes s1 (<[j := node]> (inodes s1))).
Proof.
  intros Hj H1 i p data Hi. cbn [inodes set_inodes].
  rewrite lookup_insert_ne; [by apply H1|]. intros ->. rewrite Hj in Hi. discriminate Hi.
Qed.

Lemma copy_steps_keep_files src dst mode s err s' :
  exists_on s dst = false ->
  (match os.open src s with
   | (_, Some e) => (Some e, s)
   | (srcFile, None) =>
       match os.create dst s with
       | ((_, Some e), s1) => (Some e, s1)
       | ((dstFile, None), s1) =>
           match io.copy dstFile srcFile s1 with
           | ((_, Some e), s2) => (Some e, s2)
           | ((_, None), s2) => os.chmod dst mode s2
           end
       end
   end) = (err, s') ->
  keeps_files s s'.
Proof.
  intros Hex.
  unfold os.open. destruct (sys_open s src) as [e|fs] eqn:Ho;
    [intros [= <- <-]; apply keeps_files_refl|].
  unfold os.create. destruct (sys_creat true s dst 438%N) as [e|[fd s1]] eqn:Hc;
    [intros [= <- <-]; apply keeps_files_refl|].
  destruct (creat_missing_keeps_files _ _ _ _ _ _ Hex Hc) as [H1 Hnew].
  apply sys_creat_inv in Hc as (_ & (p & Hfd) & Hdst & _).
  unfold io.copy. destruct (sys_read_all s1 fs) as [e|data] eqn:Hr;
    [intros [= <- <-]; exact H1|].
  destruct (sys_write s1 fd data) as [e|s2] eqn:Hw; [intros [= <- <-]; exact H1|].
  apply sys_write_inv in Hw as (p' & old & Hfd' & ->).
  rewrite Hfd in Hfd'. injection Hfd' as <- <-. rewrite drop_nil, app_nil_r.
  set (s2 := set_inodes s1 (<[fd_ino fd := IFile p data]> (inodes s1))).
  assert (keeps_files s s2) as H2 by (by apply new_file_update_keeps_files).
  assert (Hdst2 : resolve true s2 dst = Found (fd_ino fd)).
  { unfold s2. erewrite resolve_file_update; [exact Hdst|exact Hfd]. }
  assert (Hfd2 : inodes s2 !! fd_ino fd = Some (IFile p data)).
  { unfold s2. cbn. by rewrite lookup_insert_eq. }
  unfold os.chmod. rewrite (sys_chmod_file _ _ _ _ _ _ Hdst2 Hfd2).
  intros [= <- <-]. by apply new_file_update_keeps_files.
Qed.

Lemma create_chmod_keep_files filename perm s err s' :
  exists_on s filename = false ->
  (match os.create filename s with
   | ((_, Some e), s1) => (Some e, s1)
   | ((_, None), s1) => os.chmod filename perm s1
   end) = (err, s') ->
  keeps_files s s'.
Proof.
  intros Hex. unfold os.create.
  destruct (sys_creat true s filename 438%N) as [e|[fd s1]] eqn:Hc;
    [intros [= <- <-]; apply keeps_files_refl|].
  destruct (creat_missing_keeps_files _ _ _ _ _ _ Hex Hc) as [H1 Hnew].
  apply sys_creat_inv in Hc as (_ & (p & Hfd) & Hres & _).
  unfold os.chmod. rewrite (sys_chmod_file _ _ _ _ _ _ Hres Hfd). intros [= <- <-].
  by apply new_file_update_keeps_files.
Qed.

Lemma copyFile_keeps_files src dst info w :
  keeps_files (sys w) (sys (after (xfs.copyFile src dst info false) w)).
Proof.
  pose proof (copyFile_run src dst info false w) as Hrun. unfold run in Hrun.
  rewrite andb_true_r in Hrun. destruct (exists_on (sys w) dst) eqn:Hex.
  - injection Hrun as _ ->. apply keeps_files_refl.
  - symmetry in Hrun. by eapply copy_steps_keep_files.
Qed.

Lemma EnsureDir_keeps_files dir perm w :
  keeps_files (sys w) (sys (after (xfs.EnsureDir dir perm) w)).
Proof.
  pose proof (EnsureDir_run dir perm w) as Hrun. unfold run in Hrun.
  destruct (exists_on (sys w) dir).
  - injection Hrun as _ ->. apply keeps_files_refl.
  - symmetry in Hrun. eapply grows_dirs_keeps_files, mkdirAll_grows, Hrun.
Qed.

Lemma CopyDir_keeps_files src dst w :
  keeps_files (sys w) (sys (after (xfs.CopyDir src dst false) w)).
Proof.
  apply (Walk_preserves keeps_files keeps_files_refl keeps_files_trans).
  intros path info err w'. unfold xfs.CopyDir_func1.
  destruct (is_some err); [apply keeps_files_refl|].
  destruct (filepath.Rel src path) as [relPath rerr].
  destruct (is_some rerr); [apply keeps_files_refl|].
  destruct (FileInfo_IsDir info); [apply EnsureDir_keeps_files|apply copyFile_keeps_files].
Qed.

Lemma CopyFile_keeps_files src dst w :
  keeps_files (sys w) (sys (after (xfs.CopyFile src dst false) w)).
Proof.
  unfold after. rewrite CopyFile_unfold.
  destruct (os.stat src (sys w)) as [info [e|]]; [apply keeps_files_refl|].
  apply (copyFile_keeps_files src dst info (mkWorld (sys w) (calls w ++ [call_Stat src]))).
Qed.

Lemma content_inv s path data :
  content s path = Some data ->
  exists i p, resolve true s path = Found i /\ inodes s !! i = Some (IFile p data).
Proof.
  unfold content. destruct (resolve true s path) as [i|d c|e] eqn:Hres;
    try (intros [=]; fail).
  destruct (inodes s !! i) as [[p dat| |]|] eqn:Hi; try (intros [=]; fail).
  intros [= ->]. exists i, p. split; [reflexivity|exact Hi].
Qed.

(** X20.  Without [overwrite] no file is touched.  [Copy], [CopyDir] and
    [CopyFile] with [overwrite] false, and [EnsureDir], [EnsureFile] and
    [MkdirAll], whatever their other arguments and whether they succeed or
    fail, leave every regular file of the host with the content and the
    permission bits it had: they only add.  Together with the names being
    kept, every path that led to a file leads to the same content and
    mode. *)
Theorem existing_files_are_kept w :
  (forall src dst,
     keeps_files (sys w) (sys (after (xfs.Copy src dst false) w)) /\
     keeps_files (sys w) (sys (after (xfs.CopyDir src dst false) w)) /\
     keeps_files (sys w) (sys (after (xfs.CopyFile src dst false) w))) /\
  (forall name perm,
     keeps_files (sys w) (sys (after (xfs.EnsureDir name perm) w)) /\
     keeps_files (sys w) (sys (after (xfs.EnsureFile name perm) w)) /\
     keeps_files (sys w) (sys (after (xfs.MkdirAll name perm) w))) /\
  (forall w' path data,
     keeps_names (sys w) (sys w') -> keeps_files (sys w) (sys w') ->
     content (sys w) path = Some data ->
     content (sys w') path = Some data /\
     result (xfs.Stat path) w' = result (xfs.Stat path) w /\
     result (xfs.ReadTextFile path) w' = result (xfs.ReadTextFile path) w).
Proof.
  split; [|split].
  - intros src dst. split; [|split; [apply CopyDir_keeps_files|apply CopyFile_keeps_files]].
    unfold after. rewrite Copy_unfold.
    destruct (os.stat src (sys w)) as [info [e|]]; [apply keeps_files_refl|].
    destruct (FileInfo_IsDir info).
    + apply (CopyDir_keeps_files src dst (mkWorld (sys w) (calls w ++ [call_Stat src]))).
    + apply (CopyFile_keeps_files src dst (mkWorld (sys w) (calls w ++ [call_Stat src]))).
  - intros name perm. split; [apply EnsureDir_keeps_files|]. split.
    + pose proof (EnsureFile_run name perm w) as Hrun. unfold run in Hrun.
      destruct (exists_on (sys w) name) eqn:Hex.
      * injection Hrun as _ ->. apply keeps_files_refl.
      * symmetry in Hrun. by eapply create_chmod_keep_files.
    + pose proof (MkdirAll_run name perm w) as Hrun. unfold run in Hrun.
      symmetry in Hrun. eapply grows_dirs_keeps_files, mkdirAll_grows, Hrun.
  - intros w' path data (_ & _ & _ & _ & Hmono & _) Hfiles Hcontent.
    apply content_inv in Hcontent as (i & p & Hres & Hi).
    pose proof (Hmono _ _ _ Hres) as Hres'. pose proof (Hfiles _ _ _ Hi) as Hi'.
    split; [exact (content_Found _ _ _ _ _ Hres' Hi')|].
    unfold result. rewrite !ReadTextFile_unfold.
    unfold xfs.Stat, os.Stat, call. cbn [fst].
    rewrite (stat_file_mode _ _ _ _ _ Hres Hi), (stat_file_mode _ _ _ _ _ Hres' Hi').
    by rewrite (readFile_of_file _ _ _ _ _ Hres Hi), (readFile_of_file _ _ _ _ _ Hres' Hi').
Qed.

Lemma existing_files_are_kept_witness :
  content (sys (after (xfs.CopyFile "testfile" "tree/a.txt" false) demo)) "tree/a.txt" =
    Some (bytes_of_string "hello") /\
  content (sys (after (xfs.EnsureFile "testfile" 420) demo)) "testfile" =
    Some (bytes_of_string "test data").
Proof.
  split.
  - apply (proj2 (proj2 (existing_files_are_kept demo))
             (after (xfs.CopyFile "testfile" "tree/a.txt" false) demo) "tree/a.txt").
    + apply CopyFile_keeps.
    + exact (proj2 (proj2 (proj1 (existing_files_are_kept demo) "testfile" "tree/a.txt"))).
    + vm_compute. reflexivity.
  - apply (proj2 (proj2 (existing_files_are_kept demo))
             (after (xfs.EnsureFile "testfile" 420) demo) "testfile").
    + apply EnsureFile_keeps.
    + exact (proj1 (proj2 (proj1 (proj2 (existing_files_are_kept demo)) "testfile" 420%N))).
    + vm_compute. reflexivity.
Defined.
